(** * Yadam webtoon maker: the batch generation orchestrator

    A shallow embedding of [src/services/geminiService.ts] (scene analysis,
    image rendering, prompt repair) and of the event handlers of
    [src/App.tsx] ([handleGenerate], [handleRetry], [handleDelete],
    [handleSelectHistoryItem]), followed by the properties of the
    orchestrator.

    Modelling conventions.
    - JavaScript strings are Rocq strings holding the UTF-8 bytes of the text.
    - An [async] handler is cut at its [await]s.  The code between two
      [await]s runs without interruption; it is modelled as a function that
      returns the React state updates it issues, in order, and the
      continuation it leaves pending (a [task]).
    - React re-renders between two events, so a handler reads the state of
      the moment it is invoked; functional updates ([setX(prev => ...)]) act
      on the state of the moment they are applied.
    - The TypeScript types are taken at their word: a value cast with [as]
      has the declared shape.  The one exception is an element of the array
      [analyzeScript] parses, which may be [null]: [handleGenerate] reads a
      property of it outside its inner [try], and the [TypeError] ends the
      batch in its outer [catch]. *)

From Stdlib Require Import ZArith List String Ascii DecimalString Lia.
From Stdlib Require Import DecimalNat DecimalFacts Sorting.Sorted.
From stdpp Require Import base gmap strings list.
Import ListNotations.
Local Open Scope string_scope.
Local Open Scope list_scope.

(* ===================================================================== *)
(** ** JavaScript string primitives used by the sources *)
(* ===================================================================== *)

Module Js.

(** Truthiness of a string: the empty string is falsy. *)
Definition truthy (s : string) : bool := negb (String.eqb s "").

(** Truthiness of [string | undefined]. *)
Definition truthy_opt (o : option string) : bool :=
  match o with
  | Some s => truthy s
  | None => false
  end.

Definition bytes (l : list nat) : string :=
  string_of_list_ascii (List.map ascii_of_nat l).

(** The code points [String.prototype.trim] removes (WhiteSpace and
    LineTerminator of ECMA-262), each as its UTF-8 byte sequence:
    TAB LF VT FF CR SP, U+00A0, U+1680, U+2000..U+200A, U+2028, U+2029,
    U+202F, U+205F, U+3000, U+FEFF. *)
Definition whitespace : list string :=
  List.map bytes
    [ [9]; [10]; [11]; [12]; [13]; [32]; [194; 160]; [225; 154; 128];
      [226; 128; 128]; [226; 128; 129]; [226; 128; 130]; [226; 128; 131];
      [226; 128; 132]; [226; 128; 133]; [226; 128; 134]; [226; 128; 135];
      [226; 128; 136]; [226; 128; 137]; [226; 128; 138]; [226; 128; 168];
      [226; 128; 169]; [226; 128; 175]; [226; 129; 159]; [227; 128; 128];
      [239; 187; 191] ].

Definition startsWith (s p : string) : bool := String.prefix p s.

Definition drop (n : nat) (s : string) : string :=
  String.substring n (String.length s - n) s.

(** [strip_one seqs s]: [s] without its first code point when that is one
    of [seqs]. *)
Fixpoint strip_one (seqs : list string) (s : string) : option string :=
  match seqs with
  | [] => None
  | w :: seqs' =>
      if startsWith s w then Some (drop (String.length w) s)
      else strip_one seqs' s
  end.

Fixpoint strip_many (fuel : nat) (seqs : list string) (s : string) : string :=
  match fuel with
  | O => s
  | S fuel' =>
      match strip_one seqs s with
      | Some s' => strip_many fuel' seqs s'
      | None => s
      end
  end.

Definition trimStart (s : string) : string :=
  strip_many (String.length s) whitespace s.

Definition trimEnd (s : string) : string :=
  String.rev
    (strip_many (String.length s) (List.map String.rev whitespace)
       (String.rev s)).

Definition trim (s : string) : string := trimEnd (trimStart s).

(** [s.replace(/^p/, '')] for a literal [p]. *)
Definition remove_prefix (p s : string) : string :=
  if startsWith s p then drop (String.length p) s else s.

(** [s.replace(/p$/, '')] for a literal [p]. *)
Definition remove_suffix (p s : string) : string :=
  String.rev (remove_prefix (String.rev p) (String.rev s)).

(** [Number.prototype.toString] on an integer. *)
Definition nat_toString (n : nat) : string :=
  NilZero.string_of_uint (Nat.to_uint n).

Definition Z_toString (z : Z) : string :=
  NilZero.string_of_int (Z.to_int z).

(** [a.localeCompare(b)] as a sign.  The host collation is not part of the
    repository; on the ids this program builds for one batch (a common
    prefix followed by decimal digits) it orders digit by digit, which is
    what the code-unit comparison below does. *)
Definition localeCompare (a b : string) : comparison := String.compare a b.

(** [Array.prototype.sort(cmp)]: a stable sort. The comparator's result is
    used as [cmp a b <= 0]. *)
Section Sort.
Context {A : Type} (cmp : A -> A -> comparison).

Definition le_cmp (a b : A) : bool :=
  match cmp a b with
  | Gt => false
  | _ => true
  end.

Fixpoint insert_sorted (x : A) (l : list A) : list A :=
  match l with
  | [] => [x]
  | y :: l' => if le_cmp x y then x :: l else y :: insert_sorted x l'
  end.

Definition sort (l : list A) : list A := List.fold_right insert_sorted [] l.
End Sort.

End Js.

(* ===================================================================== *)
(** ** types.ts *)
(* ===================================================================== *)

Module ImageStatus.
Inductive t := success | failed.
#[global] Instance eq_dec : EqDecision t.
Proof. solve_decision. Defined.
End ImageStatus.

Module LoadingStatus.
Inductive t := idle | analyzing | generating | error | success.
#[global] Instance eq_dec : EqDecision t.
Proof. solve_decision. Defined.
End LoadingStatus.

Record GeneratedImage := mkGeneratedImage {
  id : string;
  originalInput : string;
  refinedPrompt : string;
  suggestedPrompt : option string;
  sceneSummary : option string;
  imageUrl : string;
  timestamp : Z;
  aspectRatio : string;
  batchId : option string;
  status : ImageStatus.t
}.

#[global] Instance GeneratedImage_eq_dec : EqDecision GeneratedImage.
Proof. solve_decision. Defined.

Record LoadingState := mkLoadingState {
  ls_status : LoadingStatus.t;
  current : option nat;
  total : option nat;
  message : option string
}.

(* ===================================================================== *)
(** ** constants.ts *)
(* ===================================================================== *)

Definition MASTER_STYLE_PROMPT : string :=
  "A flat 2D vector illustration in the style of a Korean educational webtoon. Set in the Joseon Dynasty. Cute characters with simple features and expressive faces. Thick clean black outlines, cel-shaded coloring, flat colors, no 3D effects, no realistic textures.".

(* ===================================================================== *)
(** ** Exceptions *)
(* ===================================================================== *)

Inductive exc (A : Type) : Type :=
| Ok (a : A)
| Throw (msg : string).
Arguments Ok {A} a.
Arguments Throw {A} msg.

Definition exc_bind {A B} (m : exc A) (k : A -> exc B) : exc B :=
  match m with
  | Ok a => k a
  | Throw msg => Throw msg
  end.

Definition try_catch {A} (body : exc A) (handler : string -> exc A) : exc A :=
  match body with
  | Ok a => Ok a
  | Throw msg => handler msg
  end.

#[global] Instance exc_mbind : MBind exc := fun A B k m => exc_bind m k.

(* ===================================================================== *)
(** ** services/geminiService.ts *)
(* ===================================================================== *)

(** What a call to the provider client does: [await
    client.models.generateContent(...)] either yields a response or throws.
    [Rejected] also stands for [getAi()] throwing on a missing key: both
    happen inside the same [try] block of each service function. *)
Inductive call_outcome (R : Type) : Type :=
| Rejected
| Resolved (response : R).
Arguments Rejected {R}.
Arguments Resolved {R} response.

Definition await {R} (o : call_outcome R) : exc R :=
  match o with
  | Rejected => Throw "provider call failed"
  | Resolved r => Ok r
  end.

Record SceneBlueprint := mkSceneBlueprint {
  scene_number : Z;
  korean_summary : string;
  english_prompt : string
}.

#[global] Instance SceneBlueprint_eq_dec : EqDecision SceneBlueprint.
Proof. solve_decision. Defined.

(** The response of a text model: [response.text] is [string | undefined]. *)
Record TextResponse := mkTextResponse { text : option string }.

(** The response of the image model, as far as [generateImage] reads it. *)
Record InlineData := mkInlineData { data : string; mimeType : option string }.
Record Part := mkPart { inlineData : option InlineData }.
Record Content := mkContent { parts : option (list Part) }.
Record Candidate := mkCandidate { content : option Content }.
Record ImageResponse := mkImageResponse { candidates : option (list Candidate) }.

(** The value [JSON.parse] returns, seen through the tests and casts
    [analyzeScript] applies to it: an array, a non-null object (cast to
    [SceneBlueprint]), or anything else.

    [analyzeScript] returns an array unchecked, so its elements are what the
    text holds.  An element is [null] ([None] below), on which reading a
    property throws a [TypeError], or a value whose properties can be read
    ([Some]); for the latter the cast to [SceneBlueprint] is taken at its
    word, as the response schema of the analysis call requires the three
    fields. *)
Inductive ParsedJson :=
| JArray (elems : list (option SceneBlueprint))
| JObject (o : SceneBlueprint)
| JOther.

(** What belongs to the host, not to the repository: [JSON.parse], where
    [None] is a thrown [SyntaxError], and the message of the [TypeError] the
    engine throws when a property of [null] is read, which differs between
    engines. *)
Class Host := {
  JSON_parse : string -> option ParsedJson;
  null_read_message : string
}.

Definition cleanJson (text : string) : string :=
  let clean := Js.trim text in
  let clean :=
    if Js.startsWith clean "```json" then
      Js.remove_suffix "```" (Js.remove_prefix "```json" clean)
    else if Js.startsWith clean "```" then
      Js.remove_suffix "```" (Js.remove_prefix "```" clean)
    else clean in
  Js.trim clean.

Definition fallback_scene (userInput : string) : SceneBlueprint :=
  {| scene_number := 1;
     korean_summary := "단일 장면";
     english_prompt := userInput |}.

Section AnalyzeScript.
Context `{Host}.

(** The [try] block of [analyzeScript]. *)
Definition analyzeScript_try (reply : call_outcome TextResponse)
  : exc (list (option SceneBlueprint)) :=
  response ← await reply;
  match text response with
  | Some t =>
      if Js.truthy t then
        match JSON_parse (cleanJson t) with
        | None => Throw "SyntaxError"
        | Some (JArray elems) => Ok elems
        | Some (JObject o) => Ok [Some o]
        | Some JOther => Throw "Empty or invalid response from AI analysis"
        end
      else Throw "Empty or invalid response from AI analysis"
  | None => Throw "Empty or invalid response from AI analysis"
  end.

(** [analyzeScript] never rejects: its [catch] returns the fallback. *)
Definition analyzeScript (reply : call_outcome TextResponse)
    (userInput : string) : list (option SceneBlueprint) :=
  match analyzeScript_try reply with
  | Ok scenes => scenes
  | Throw _ => [Some (fallback_scene userInput)]
  end.
End AnalyzeScript.

(** The text sent to the image model. *)
Definition fullPrompt (sceneDescription : string) : string :=
  MASTER_STYLE_PROMPT +:+ " " +:+ sceneDescription.

(** The [for] loop over the parts: the first part with inline data decides. *)
Fixpoint first_inline_image (ps : list Part) : string :=
  match ps with
  | [] => ""
  | p :: ps' =>
      match inlineData p with
      | Some d =>
          let mime :=
            match mimeType d with
            | Some m => if Js.truthy m then m else "image/png"
            | None => "image/png"
            end in
          "data:" +:+ mime +:+ ";base64," +:+ data d
      | None => first_inline_image ps'
      end
  end.

(** [response.candidates && response.candidates[0].content.parts] and the
    loop it guards; reading [.content] of a missing first candidate or
    [.parts] of a missing content is a [TypeError]. *)
Definition extract_image (response : ImageResponse) : exc string :=
  match candidates response with
  | None => Ok ""
  | Some cs =>
      match cs with
      | [] => Throw "TypeError"
      | c :: _ =>
          match content c with
          | None => Throw "TypeError"
          | Some ct =>
              match parts ct with
              | None => Ok ""
              | Some ps => Ok (first_inline_image ps)
              end
          end
      end
  end.

Definition generateImage (reply : call_outcome ImageResponse) : exc string :=
  try_catch
    (response ← await reply;
     imageUrl ← extract_image response;
     if Js.truthy imageUrl then Ok imageUrl
     else Throw "이미지를 생성하지 못했습니다.")
    (fun _ => Throw "이미지 생성 중 오류가 발생했습니다.").

(** [getPromptFix] never rejects: [response.text?.trim() || originalPrompt],
    and the original prompt from its [catch]. *)
Definition getPromptFix (reply : call_outcome TextResponse)
    (originalPrompt : string) : string :=
  match await reply with
  | Ok response =>
      match text response with
      | Some t => if Js.truthy (Js.trim t) then Js.trim t else originalPrompt
      | None => originalPrompt
      end
  | Throw _ => originalPrompt
  end.


(* ===================================================================== *)
(** ** App.tsx: state and state updates *)
(* ===================================================================== *)

(** The component state ([useState] cells) the handlers read and write.
    [selectedAspectRatio] is the [aspectRatio] cell. *)
Record AppState := mkAppState {
  inputText : string;
  selectedAspectRatio : string;
  loadingState : LoadingState;
  currentBatch : list GeneratedImage;
  history : list GeneratedImage;
  errorMsg : option string;
  retryingIds : gset string
}.

(** The calls to state setters that occur in the handlers. *)
Inductive update :=
| setLoadingState (ls : LoadingState)
| setErrorMsg (m : option string)
| setCurrentBatch (b : list GeneratedImage)
    (* setCurrentBatch(b) *)
| setCurrentBatch_replace (target : string) (x : GeneratedImage)
    (* setCurrentBatch(prev => prev.map(img => img.id === target ? x : img)) *)
| setCurrentBatch_remove (target : string)
    (* setCurrentBatch(prev => prev.filter(item => item.id !== target)) *)
| setHistory_prepend (x : GeneratedImage)
    (* setHistory(prev => [x, ...prev]) *)
| setHistory_remove (target : string)
    (* setHistory(prev => prev.filter(item => item.id !== target)) *)
| setRetryingIds_add (x : string)
| setRetryingIds_delete (x : string).

Definition replace_by_id (target : string) (x : GeneratedImage)
    (l : list GeneratedImage) : list GeneratedImage :=
  List.map (fun img => if String.eqb (id img) target then x else img) l.

Definition remove_by_id (target : string) (l : list GeneratedImage)
    : list GeneratedImage :=
  List.filter (fun item => negb (String.eqb (id item) target)) l.

Definition apply_update (u : update) (st : AppState) : AppState :=
  match u with
  | setLoadingState ls =>
      mkAppState (inputText st) (selectedAspectRatio st) ls (currentBatch st)
        (history st) (errorMsg st) (retryingIds st)
  | setErrorMsg m =>
      mkAppState (inputText st) (selectedAspectRatio st) (loadingState st)
        (currentBatch st) (history st) m (retryingIds st)
  | setCurrentBatch b =>
      mkAppState (inputText st) (selectedAspectRatio st) (loadingState st)
        b (history st) (errorMsg st) (retryingIds st)
  | setCurrentBatch_replace target x =>
      mkAppState (inputText st) (selectedAspectRatio st) (loadingState st)
        (replace_by_id target x (currentBatch st)) (history st) (errorMsg st)
        (retryingIds st)
  | setCurrentBatch_remove target =>
      mkAppState (inputText st) (selectedAspectRatio st) (loadingState st)
        (remove_by_id target (currentBatch st)) (history st) (errorMsg st)
        (retryingIds st)
  | setHistory_prepend x =>
      mkAppState (inputText st) (selectedAspectRatio st) (loadingState st)
        (currentBatch st) (x :: history st) (errorMsg st) (retryingIds st)
  | setHistory_remove target =>
      mkAppState (inputText st) (selectedAspectRatio st) (loadingState st)
        (currentBatch st) (remove_by_id target (history st)) (errorMsg st)
        (retryingIds st)
  | setRetryingIds_add x =>
      mkAppState (inputText st) (selectedAspectRatio st) (loadingState st)
        (currentBatch st) (history st) (errorMsg st) ({[x]} ∪ retryingIds st)
  | setRetryingIds_delete x =>
      mkAppState (inputText st) (selectedAspectRatio st) (loadingState st)
        (currentBatch st) (history st) (errorMsg st) (retryingIds st ∖ {[x]})
  end.

Definition apply_updates (us : list update) (st : AppState) : AppState :=
  List.fold_left (fun s u => apply_update u s) us st.

(** The state of a freshly mounted component, with the history read from
    local storage. *)
Definition initial_state (saved : list GeneratedImage) : AppState :=
  {| inputText := "";
     selectedAspectRatio := "16:9";
     loadingState := mkLoadingState LoadingStatus.idle None None None;
     currentBatch := [];
     history := saved;
     errorMsg := None;
     retryingIds := ∅ |}.

(* ===================================================================== *)
(** ** App.tsx: the asynchronous handlers *)
(* ===================================================================== *)

(** The asynchronous calls a handler waits for. *)
Inductive request :=
| analyzeScript_call (userInput : string)
| generateImage_call (sceneDescription : string) (aspect : string)
| getPromptFix_call (originalPrompt : string)
| setTimeout_call (ms : nat).

(** What the outside world hands back when such a call settles. *)
Inductive settlement :=
| TextReply (o : call_outcome TextResponse)
| ImageReply (o : call_outcome ImageResponse)
| TimerFired.

(** The variables of one [handleGenerate] invocation that stay fixed:
    [inputText] and [aspectRatio] as captured by the closure, and the
    [batchId] it draws. *)
Record GenCtx := mkGenCtx {
  g_inputText : string;
  g_aspectRatio : string;
  g_batchId : string
}.

(** A handler suspended at an [await], with its live local variables.
    At the pacing delay [scene] is [scenes[i]] as read at App.tsx:74, which
    may be [null]; at the later [await]s a property of it has been read. *)
Inductive task :=
| GenAwaitAnalyze (ctx : GenCtx)
    (* App.tsx:60  await analyzeScript(inputText) *)
| GenAwaitDelay (ctx : GenCtx) (scenes : list (option SceneBlueprint))
    (i : nat) (scene : option SceneBlueprint)
    (tempBatch : list GeneratedImage)
    (* App.tsx:79  await new Promise(resolve => setTimeout(resolve, 3000)) *)
| GenAwaitImage (ctx : GenCtx) (scenes : list (option SceneBlueprint))
    (i : nat) (scene : SceneBlueprint) (tempBatch : list GeneratedImage)
    (* App.tsx:90  await generateImage(scene.english_prompt, aspectRatio) *)
| GenAwaitFix (ctx : GenCtx) (scenes : list (option SceneBlueprint))
    (i : nat) (scene : SceneBlueprint) (tempBatch : list GeneratedImage)
    (* App.tsx:114 await getPromptFix(scene.english_prompt) *)
| RetryAwaitImage (item : GeneratedImage) (prompt : string).
    (* App.tsx:157 await generateImage(promptToUse, item.aspectRatio) *)

Definition awaiting (t : task) : request :=
  match t with
  | GenAwaitAnalyze ctx => analyzeScript_call (g_inputText ctx)
  | GenAwaitDelay _ _ _ _ _ => setTimeout_call 3000
  | GenAwaitImage ctx _ _ scene _ =>
      generateImage_call (english_prompt scene) (g_aspectRatio ctx)
  | GenAwaitFix _ _ _ scene _ => getPromptFix_call (english_prompt scene)
  | RetryAwaitImage item prompt =>
      generateImage_call prompt (aspectRatio item)
  end.

(** One uninterrupted stretch of a handler: the updates it issues, in
    order, and the [await] it stops at ([None] when the handler returns). *)
Definition segment : Type := list update * option task.

Definition scene_id (batch : string) (i : nat) : string :=
  batch +:+ "_" +:+ Js.nat_toString i.

Definition generating_state (cur tot : nat) (msg : string) : LoadingState :=
  mkLoadingState LoadingStatus.generating (Some cur) (Some tot) (Some msg).

(** App.tsx:82-90 for a scene whose properties can be read: the progress
    update and the render call. *)
Definition scene_start (ctx : GenCtx) (scenes : list (option SceneBlueprint))
    (i : nat) (scene : SceneBlueprint) (tempBatch : list GeneratedImage)
    : segment :=
  ([ setLoadingState
       (generating_state (i + 1) (length scenes)
          ("장면 " +:+ Js.nat_toString (i + 1) +:+ " / "
           +:+ Js.nat_toString (length scenes) +:+ " 그리는 중... ("
           +:+ korean_summary scene +:+ ")")) ],
   Some (GenAwaitImage ctx scenes i scene tempBatch)).

Definition error_state : LoadingState :=
  mkLoadingState LoadingStatus.error None None None.

(** App.tsx:139-143, the [catch] of the outer [try]: [err.message ||
    "..."], then the phase [error].  The handler returns. *)
Definition outer_catch (message : string) : segment :=
  ([ setErrorMsg
       (Some (if Js.truthy message then message
              else "알 수 없는 오류가 발생했습니다."));
     setLoadingState error_state ],
   None).

Section Loop.
Context `{Host}.

(** App.tsx:82-90, from the progress update to the render call.  The
    argument of [setLoadingState] reads [scene.korean_summary]: on [null]
    that throws before any update is issued, outside the inner [try], and
    the outer [catch] runs. *)
Definition loop_body (ctx : GenCtx) (scenes : list (option SceneBlueprint))
    (i : nat) (scene : option SceneBlueprint)
    (tempBatch : list GeneratedImage) : segment :=
  match scene with
  | Some s => scene_start ctx scenes i s tempBatch
  | None => outer_catch null_read_message
  end.

(** App.tsx:73-80 and 137: the loop test [i < scenes.length], the pacing
    delay before every scene but the first, and the exit of the loop. *)
Definition loop_test (ctx : GenCtx) (scenes : list (option SceneBlueprint))
    (i : nat) (tempBatch : list GeneratedImage) : segment :=
  match scenes !! i with
  | Some scene =>
      if (0 <? i)%nat then
        ([], Some (GenAwaitDelay ctx scenes i scene tempBatch))
      else loop_body ctx scenes i scene tempBatch
  | None =>
      ([ setLoadingState (mkLoadingState LoadingStatus.success None None None) ],
       None)
  end.

End Loop.

Definition then_ (us : list update) (s : segment) : segment :=
  (us ++ fst s, snd s).

(** App.tsx:92-102. *)
Definition newImage (ctx : GenCtx) (i : nat) (scene : SceneBlueprint)
    (url : string) (now : Z) : GeneratedImage :=
  {| id := scene_id (g_batchId ctx) i;
     batchId := Some (g_batchId ctx);
     originalInput := g_inputText ctx;
     refinedPrompt := english_prompt scene;
     suggestedPrompt := None;
     sceneSummary := Some (korean_summary scene);
     imageUrl := url;
     timestamp := now;
     aspectRatio := g_aspectRatio ctx;
     status := ImageStatus.success |}.

(** App.tsx:119-130; [suggested] is the local [suggestedPrompt]. *)
Definition failedImage (ctx : GenCtx) (i : nat) (scene : SceneBlueprint)
    (suggested : option string) (now : Z) : GeneratedImage :=
  {| id := scene_id (g_batchId ctx) i;
     batchId := Some (g_batchId ctx);
     originalInput := g_inputText ctx;
     refinedPrompt := english_prompt scene;
     suggestedPrompt :=
       match suggested with
       | Some s =>
           if Js.truthy s && negb (String.eqb s (english_prompt scene))
           then Some s else None
       | None => None
       end;
     sceneSummary := Some (korean_summary scene);
     imageUrl := "";
     timestamp := now;
     aspectRatio := g_aspectRatio ctx;
     status := ImageStatus.failed |}.

(** App.tsx:46-57: the click on the generate button, up to the first
    [await].  [now] is the value [Date.now()] returns there.

    [analyzeScript] and [getPromptFix] do not reject and a rejection of
    [generateImage] is caught inside the loop, so the one exception that
    reaches the [catch] of App.tsx:139 is the [TypeError] of [loop_body]. *)
Definition handleGenerate (st : AppState) (now : Z) : segment :=
  if negb (Js.truthy (Js.trim (inputText st))) then ([], None)
  else
    ([ setLoadingState
         (mkLoadingState LoadingStatus.analyzing None None
            (Some "이야기를 분석하고 장면을 나누고 있습니다..."));
       setErrorMsg None ],
     Some (GenAwaitAnalyze
             (mkGenCtx (inputText st) (selectedAspectRatio st)
                (Js.Z_toString now)))).

(** App.tsx:156: [useSuggestion && item.suggestedPrompt ?
    item.suggestedPrompt : item.refinedPrompt]. *)
Definition promptToUse (item : GeneratedImage) (useSuggestion : bool) : string :=
  match suggestedPrompt item with
  | Some suggested =>
      if useSuggestion && Js.truthy suggested then suggested
      else refinedPrompt item
  | None => refinedPrompt item
  end.

(** App.tsx:146-157: the click on a retry button, up to the [await]. *)
Definition handleRetry (st : AppState) (item : GeneratedImage)
    (useSuggestion : bool) : segment :=
  if bool_decide (id item ∈ retryingIds st) then ([], None)
  else
    ([ setRetryingIds_add (id item) ],
     Some (RetryAwaitImage item (promptToUse item useSuggestion))).

(** App.tsx:159-165. *)
Definition successItem (item : GeneratedImage) (url prompt : string)
    (now : Z) : GeneratedImage :=
  {| id := id item;
     batchId := batchId item;
     originalInput := originalInput item;
     refinedPrompt := prompt;
     suggestedPrompt := suggestedPrompt item;
     sceneSummary := sceneSummary item;
     imageUrl := url;
     timestamp := now;
     aspectRatio := aspectRatio item;
     status := ImageStatus.success |}.

Section Resume.
Context `{Host}.

(** The code a handler runs when the call it waits for settles; [now] is
    what [Date.now()] returns in that stretch.  [None]: the settlement is
    not of the kind the handler waits for. *)
Definition resume (t : task) (s : settlement) (now : Z) : option segment :=
  match t, s with
  | GenAwaitAnalyze ctx, TextReply o =>
      (* App.tsx:60-73 *)
      let scenes := analyzeScript o (g_inputText ctx) in
      Some (then_
              [ setLoadingState
                  (generating_state 0 (length scenes)
                     ("총 " +:+ Js.nat_toString (length scenes)
                      +:+ "개의 장면을 생성할 준비가 되었습니다."));
                setCurrentBatch [] ]
              (loop_test ctx scenes 0 []))
  | GenAwaitDelay ctx scenes i scene tempBatch, TimerFired =>
      Some (loop_body ctx scenes i scene tempBatch)
  | GenAwaitImage ctx scenes i scene tempBatch, ImageReply o =>
      match generateImage o with
      | Ok imageUrl =>
          (* App.tsx:92-106 *)
          let img := newImage ctx i scene imageUrl now in
          let tempBatch' := tempBatch ++ [img] in
          Some (then_ [ setCurrentBatch tempBatch'; setHistory_prepend img ]
                  (loop_test ctx scenes (i + 1) tempBatch'))
      | Throw _ =>
          (* App.tsx:108-114 *)
          Some ([], Some (GenAwaitFix ctx scenes i scene tempBatch))
      end
  | GenAwaitFix ctx scenes i scene tempBatch, TextReply o =>
      (* App.tsx:114-134; getPromptFix does not reject, so the catch at
         line 115 is never entered *)
      let suggested := Some (getPromptFix o (english_prompt scene)) in
      let img := failedImage ctx i scene suggested now in
      let tempBatch' := tempBatch ++ [img] in
      Some (then_ [ setCurrentBatch tempBatch' ]
              (loop_test ctx scenes (i + 1) tempBatch'))
  | RetryAwaitImage item prompt, ImageReply o =>
      match generateImage o with
      | Ok imageUrl =>
          (* App.tsx:159-174, then the finally block *)
          let x := successItem item imageUrl prompt now in
          Some ([ setCurrentBatch_replace (id item) x;
                  setHistory_prepend x;
                  setRetryingIds_delete (id item) ], None)
      | Throw _ =>
          (* App.tsx:176-178, then the finally block *)
          Some ([ setErrorMsg
                    (Some "재시도에 실패했습니다. 잠시 후 다시 시도해주세요.");
                  setRetryingIds_delete (id item) ], None)
      end
  | _, _ => None
  end.

End Resume.

(** App.tsx:188-191. *)
Definition handleDelete (target : string) : list update :=
  [ setHistory_remove target; setCurrentBatch_remove target ].

(** App.tsx:200-211. *)
Definition handleSelectHistoryItem (st : AppState) (item : GeneratedImage)
    : list update :=
  setCurrentBatch [item] ::
  match batchId item with
  | Some b =>
      if Js.truthy b then
        let siblings :=
          List.rev
            (List.filter
               (fun h => bool_decide (batchId h = batchId item))
               (history st)) in
        if (1 <? length siblings)%nat then
          [ setCurrentBatch
              (Js.sort (fun a b => Js.localeCompare (id a) (id b)) siblings) ]
        else [ setCurrentBatch [item] ]
      else [ setCurrentBatch [item] ]
  | None => [ setCurrentBatch [item] ]
  end.

(* ===================================================================== *)
(** ** The event loop: handlers interleaved at their awaits *)
(* ===================================================================== *)

(** The component together with the handler invocations that are suspended
    at an [await]. *)
Record Machine := mkMachine {
  app : AppState;
  pending : list task
}.

Inductive event :=
| Type_input (s : string)
| Choose_aspect (a : string)
| Click_generate (now : Z)
| Click_retry (item : GeneratedImage) (useSuggestion : bool)
| Click_delete (target : string)
| Click_select (item : GeneratedImage)
| Settle (k : nat) (s : settlement) (now : Z).
    (* the call awaited by the [k]-th suspended handler settles *)

Definition option_to_list {A} (o : option A) : list A :=
  match o with
  | Some a => [a]
  | None => []
  end.

Definition run_segment (seg : segment) (m : Machine) : Machine :=
  {| app := apply_updates (fst seg) (app m);
     pending := pending m ++ option_to_list (snd seg) |}.

Section Step.
Context `{Host}.

Definition step (m : Machine) (e : event) : option Machine :=
  match e with
  | Type_input s =>
      let st := app m in
      Some {| app := mkAppState s (selectedAspectRatio st) (loadingState st)
                       (currentBatch st) (history st) (errorMsg st)
                       (retryingIds st);
              pending := pending m |}
  | Choose_aspect a =>
      let st := app m in
      Some {| app := mkAppState (inputText st) a (loadingState st)
                       (currentBatch st) (history st) (errorMsg st)
                       (retryingIds st);
              pending := pending m |}
  | Click_generate now => Some (run_segment (handleGenerate (app m) now) m)
  | Click_retry item useSuggestion =>
      Some (run_segment (handleRetry (app m) item useSuggestion) m)
  | Click_delete target => Some (run_segment (handleDelete target, None) m)
  | Click_select item =>
      Some (run_segment (handleSelectHistoryItem (app m) item, None) m)
  | Settle k s now =>
      match pending m !! k with
      | Some t =>
          match resume t s now with
          | Some seg =>
              Some {| app := apply_updates (fst seg) (app m);
                      pending := take k (pending m)
                                 ++ option_to_list (snd seg)
                                 ++ drop (S k) (pending m) |}
          | None => None
          end
      | None => None
      end
  end.

End Step.

(** What the rendered page lets the user do: a retry button exists on the
    failed cards of the live batch view (the one for the suggestion only
    when a suggestion is shown), and the history lists the stored records. *)
Definition offered (m : Machine) (e : event) : Prop :=
  match e with
  | Click_retry item useSuggestion =>
      item ∈ currentBatch (app m) ∧ status item = ImageStatus.failed
      ∧ (useSuggestion = true → Js.truthy_opt (suggestedPrompt item) = true)
  | Click_select item => item ∈ history (app m)
  | _ => True
  end.

(* ===================================================================== *)
(** ** One handler run on its own *)
(* ===================================================================== *)

(** The outside world as one handler invocation meets it: what the provider
    does at each call the handler can make, and what [Date.now()] returns
    where the handler reads it.  Within one batch every scene is rendered
    once and repaired at most once, so these calls are named by the loop
    index of the scene. *)
Record World := mkWorld {
  analysis_reply : call_outcome TextResponse;
  render_reply : nat -> call_outcome ImageResponse;
  repair_reply : nat -> call_outcome TextResponse;
  retry_reply : call_outcome ImageResponse;
  click_time : Z;          (* Date.now() at the click, App.tsx:55 *)
  record_time : nat -> Z;  (* Date.now() at App.tsx:99 or 127, per scene *)
  retry_time : Z           (* Date.now() at App.tsx:164 *)
}.

Definition answer (W : World) (t : task) : settlement :=
  match t with
  | GenAwaitAnalyze _ => TextReply (analysis_reply W)
  | GenAwaitDelay _ _ _ _ _ => TimerFired
  | GenAwaitImage _ _ i _ _ => ImageReply (render_reply W i)
  | GenAwaitFix _ _ i _ _ => TextReply (repair_reply W i)
  | RetryAwaitImage _ _ => ImageReply (retry_reply W)
  end.

Definition now_at (W : World) (t : task) : Z :=
  match t with
  | GenAwaitImage _ _ i _ _ => record_time W i
  | GenAwaitFix _ _ i _ _ => record_time W i
  | RetryAwaitImage _ _ => retry_time W
  | _ => click_time W
  end.

(** What a run does, in order: the state updates applied and the calls
    issued. *)
Inductive log_entry :=
| Applied (u : update)
| Issued (r : request).

Definition segment_log (seg : segment) : list log_entry :=
  List.map Applied (fst seg)
  ++ List.map (fun t => Issued (awaiting t)) (option_to_list (snd seg)).

Record Outcome := mkOutcome {
  final : AppState;
  unfinished : option task;
  log : list log_entry
}.

Section Run.
Context `{Host}.

(** Drive a suspended handler with the answers of [W] through at most
    [fuel] settlements. *)
Fixpoint run (W : World) (fuel : nat) (st : AppState) (t : option task)
    : Outcome :=
  match t with
  | None => mkOutcome st None []
  | Some tk =>
      match fuel with
      | O => mkOutcome st (Some tk) []
      | S fuel' =>
          match resume tk (answer W tk) (now_at W tk) with
          | Some seg =>
              let r := run W fuel' (apply_updates (fst seg) st) (snd seg) in
              mkOutcome (final r) (unfinished r) (segment_log seg ++ log r)
          | None => mkOutcome st (Some tk) []
          end
      end
  end.

Definition run_from_click (W : World) (fuel : nat) (st : AppState)
    (seg : segment) : Outcome :=
  let r := run W fuel (apply_updates (fst seg) st) (snd seg) in
  mkOutcome (final r) (unfinished r) (segment_log seg ++ log r).

(** [startGeneration]: a click on the generate button and what follows. *)
Definition startGeneration (W : World) (fuel : nat) (st : AppState) : Outcome :=
  run_from_click W fuel st (handleGenerate st (click_time W)).

(** [retry]: a click on a retry button and what follows. *)
Definition retry (W : World) (st : AppState) (item : GeneratedImage)
    (useSuggestion : bool) : Outcome :=
  run_from_click W 1 st (handleRetry st item useSuggestion).

(** The generation loop waits at most three times per scene (delay, render,
    repair), after the one wait for the analysis. *)
Definition enough_fuel (scenes : list (option SceneBlueprint)) : nat :=
  1 + 3 * length scenes.

End Run.

(* ===================================================================== *)
(** ** What one batch produces, scene by scene *)
(* ===================================================================== *)

Definition is_success (r : GeneratedImage) : bool :=
  bool_decide (status r = ImageStatus.success).

Definition success_state : LoadingState :=
  mkLoadingState LoadingStatus.success None None None.

(** The record the loop body builds for the scene at loop index [i]. *)
Definition result_of (W : World) (ctx : GenCtx) (i : nat)
    (scene : SceneBlueprint) : GeneratedImage :=
  match generateImage (render_reply W i) with
  | Ok imageUrl => newImage ctx i scene imageUrl (record_time W i)
  | Throw _ =>
      failedImage ctx i scene
        (Some (getPromptFix (repair_reply W i) (english_prompt scene)))
        (record_time W i)
  end.

Fixpoint results_from (W : World) (ctx : GenCtx) (i : nat)
    (rest : list SceneBlueprint) : list GeneratedImage :=
  match rest with
  | [] => []
  | scene :: rest' => result_of W ctx i scene :: results_from W ctx (i + 1) rest'
  end.

(** The scenes the loop gets to: those before the first [null] element. *)
Fixpoint attempted (scenes : list (option SceneBlueprint))
    : list SceneBlueprint :=
  match scenes with
  | Some scene :: rest => scene :: attempted rest
  | _ => []
  end.

(** Whether the loop meets a [null] element. *)
Fixpoint has_null (scenes : list (option SceneBlueprint)) : bool :=
  match scenes with
  | [] => false
  | None :: _ => true
  | Some _ :: rest => has_null rest
  end.

(** The log of one loop iteration, with [tempBatch] as it is on entry. *)
Definition scene_log (W : World) (ctx : GenCtx)
    (scenes : list (option SceneBlueprint))
    (i : nat) (scene : SceneBlueprint) (tempBatch : list GeneratedImage)
    : list log_entry :=
  (if (0 <? i)%nat then [ Issued (setTimeout_call 3000) ] else [])
  ++ segment_log (scene_start ctx scenes i scene tempBatch)
  ++ match generateImage (render_reply W i) with
     | Ok _ =>
         [ Applied (setCurrentBatch (tempBatch ++ [result_of W ctx i scene]));
           Applied (setHistory_prepend (result_of W ctx i scene)) ]
     | Throw _ =>
         [ Issued (getPromptFix_call (english_prompt scene));
           Applied (setCurrentBatch (tempBatch ++ [result_of W ctx i scene])) ]
     end.

(** How the loop ends at index [i]: past the last scene, or ([halted]) on
    a [null] element, after the pacing delay when it is not the first. *)
Definition loop_end `{Host} (i : nat) (halted : bool) : list log_entry :=
  if halted then
    (if (0 <? i)%nat then [ Issued (setTimeout_call 3000) ] else [])
    ++ segment_log (outer_catch null_read_message)
  else [ Applied (setLoadingState success_state) ].

(** The log of the loop from index [i] on, over the scenes [rest] it still
    gets to. *)
Fixpoint loop_log `{Host} (W : World) (ctx : GenCtx)
    (scenes : list (option SceneBlueprint))
    (i : nat) (rest : list SceneBlueprint) (halted : bool)
    (tempBatch : list GeneratedImage) : list log_entry :=
  match rest with
  | [] => loop_end i halted
  | scene :: rest' =>
      scene_log W ctx scenes i scene tempBatch
      ++ loop_log W ctx scenes (i + 1) rest' halted
           (tempBatch ++ [result_of W ctx i scene])
  end.

(** The phase and the error message a batch ends with. *)
Definition end_state (halted : bool) : LoadingState :=
  if halted then error_state else success_state.

Definition end_message `{Host} (halted : bool) (before : option string)
    : option string :=
  if halted then
    Some (if Js.truthy null_read_message then null_read_message
          else "알 수 없는 오류가 발생했습니다.")
  else before.

(** The state a loop leaves, entered in state [st] with [tempBatch] on
    display, once it has produced [results]. *)
Definition after_loop `{Host} (st : AppState)
    (tempBatch results : list GeneratedImage) (halted : bool) : AppState :=
  {| inputText := inputText st;
     selectedAspectRatio := selectedAspectRatio st;
     loadingState := end_state halted;
     currentBatch := tempBatch ++ results;
     history := List.rev (List.filter is_success results) ++ history st;
     errorMsg := end_message halted (errorMsg st);
     retryingIds := retryingIds st |}.

(** Projections of a log. *)
Definition render_calls (l : list log_entry) : list (string * string) :=
  List.flat_map
    (fun e => match e with
              | Issued (generateImage_call p a) => [(p, a)]
              | _ => []
              end) l.

Definition progress_indices (l : list log_entry) : list nat :=
  List.flat_map
    (fun e => match e with
              | Applied (setLoadingState
                           (mkLoadingState LoadingStatus.generating (Some c) _ _)) =>
                  [c]
              | _ => []
              end) l.

Definition history_inserts (l : list log_entry) : list GeneratedImage :=
  List.flat_map
    (fun e => match e with
              | Applied (setHistory_prepend x) => [x]
              | _ => []
              end) l.

(** The writes to the live batch view: [Some b] for [setCurrentBatch(b)],
    [None] for a functional update. *)
Definition batch_writes (l : list log_entry)
    : list (option (list GeneratedImage)) :=
  List.flat_map
    (fun e => match e with
              | Applied (setCurrentBatch b) => [Some b]
              | Applied (setCurrentBatch_replace _ _) => [None]
              | Applied (setCurrentBatch_remove _) => [None]
              | _ => []
              end) l.

(** The records an update carries into the state. *)
Definition carried (u : update) : list GeneratedImage :=
  match u with
  | setCurrentBatch b => b
  | setCurrentBatch_replace _ x => [x]
  | setHistory_prepend x => [x]
  | _ => []
  end.

Definition emitted (l : list log_entry) : list GeneratedImage :=
  List.flat_map
    (fun e => match e with
              | Applied u => carried u
              | Issued _ => []
              end) l.

Definition prepend_log (l : list log_entry) (r : Outcome) : Outcome :=
  mkOutcome (final r) (unfinished r) (l ++ log r).

(** The fixed variables of the batch a click in state [st] starts, the
    scene list its analysis yields, and the records it builds. *)
Definition batch_ctx (W : World) (st : AppState) : GenCtx :=
  mkGenCtx (inputText st) (selectedAspectRatio st)
    (Js.Z_toString (click_time W)).

Definition analyzed `{Host} (W : World) (st : AppState)
    : list (option SceneBlueprint) :=
  analyzeScript (analysis_reply W) (inputText st).

Definition batch_results `{Host} (W : World) (st : AppState)
    : list GeneratedImage :=
  results_from W (batch_ctx W st) 0 (attempted (analyzed W st)).

(** The log of a whole batch: the click, the stretch after the analysis,
    the loop. *)
Definition analysis_done_log (scenes : list (option SceneBlueprint))
    : list log_entry :=
  [ Applied
      (setLoadingState
         (generating_state 0 (length scenes)
            ("총 " +:+ Js.nat_toString (length scenes)
             +:+ "개의 장면을 생성할 준비가 되었습니다.")));
    Applied (setCurrentBatch []) ].

Definition batch_log `{Host} (W : World) (st : AppState) : list log_entry :=
  segment_log (handleGenerate st (click_time W))
  ++ analysis_done_log (analyzed W st)
  ++ loop_log W (batch_ctx W st) (analyzed W st) 0 (attempted (analyzed W st))
       (has_null (analyzed W st)) [].

Definition render_succeeds (W : World) (i : nat) : bool :=
  match generateImage (render_reply W i) with
  | Ok _ => true
  | Throw _ => false
  end.

(** How many of the first [n] scenes the renderer delivers. *)
Definition successes (W : World) (n : nat) : nat :=
  length (List.filter (render_succeeds W) (List.seq 0 n)).

(** The state updates of a log, and the state they lead to from [st]. *)
Definition applied (l : list log_entry) : list update :=
  List.flat_map
    (fun e => match e with
              | Applied u => [u]
              | Issued _ => []
              end) l.

Definition replay (l : list log_entry) (st : AppState) : AppState :=
  apply_updates (applied l) st.

(** The live batch view after each state update of a log, from [st] on. *)
Fixpoint views_along (l : list log_entry) (st : AppState)
    : list (list GeneratedImage) :=
  match l with
  | [] => []
  | Applied u :: l' =>
      currentBatch (apply_update u st) :: views_along l' (apply_update u st)
  | Issued _ :: l' => views_along l' st
  end.

(** A write to the live batch view that puts at least one record there. *)
Definition writes_records (w : option (list GeneratedImage)) : bool :=
  match w with
  | Some (_ :: _) => true
  | _ => false
  end.

(** The records a suspended handler holds in its local [tempBatch]. *)
Definition task_records (t : task) : list GeneratedImage :=
  match t with
  | GenAwaitAnalyze _ => []
  | GenAwaitDelay _ _ _ _ tempBatch => tempBatch
  | GenAwaitImage _ _ _ _ tempBatch => tempBatch
  | GenAwaitFix _ _ _ _ tempBatch => tempBatch
  | RetryAwaitImage _ _ => []
  end.

(** A property of records that holds throughout: on display, in the
    history, and in the batches under construction. *)
Definition records_ok (P : GeneratedImage -> Prop) (m : Machine) : Prop :=
  Forall P (currentBatch (app m))
  /\ Forall P (history (app m))
  /\ Forall (fun t => Forall P (task_records t)) (pending m).

(** The image payload is present exactly on the successful records. *)
Definition payload_ok (x : GeneratedImage) : Prop :=
  imageUrl x <> "" <-> status x = ImageStatus.success.

(** A failed record offers no suggestion equal to the prompt it used. *)
Definition suggestion_ok (x : GeneratedImage) : Prop :=
  status x = ImageStatus.failed ->
  suggestedPrompt x <> Some (refinedPrompt x).

(** The ids with a retry in flight: those of the suspended [handleRetry]
    invocations. *)
Definition retry_target (t : task) : option string :=
  match t with
  | RetryAwaitImage item _ => Some (id item)
  | _ => None
  end.

Definition retries_in_flight (m : Machine) : list string :=
  omap retry_target (pending m).

(** No id has two retries in flight, and [retryingIds] holds exactly the
    ids that have one. *)
Definition in_flight_ok (m : Machine) : Prop :=
  NoDup (retries_in_flight m)
  /\ forall x, x ∈ retryingIds (app m) <-> x ∈ retries_in_flight m.

Definition touches_retrying (u : update) : bool :=
  match u with
  | setRetryingIds_add _ => true
  | setRetryingIds_delete _ => true
  | _ => false
  end.

(** The states the event loop can be in, started from a fresh mount with
    the history [saved]. *)
Inductive reachable `{Host} (saved : list GeneratedImage) : Machine -> Prop :=
| reachable_init : reachable saved (mkMachine (initial_state saved) [])
| reachable_step m e m' :
    reachable saved m -> step m e = Some m' -> reachable saved m'.

#[global] Instance offered_dec m e : Decision (offered m e).
Proof. destruct e; simpl; apply _. Defined.

(** A run of the event loop in which every event is one the page offers. *)
Fixpoint steps_offered `{Host} (m : Machine) (es : list event)
    : option Machine :=
  match es with
  | [] => Some m
  | e :: es' =>
      if bool_decide (offered m e) then
        match step m e with
        | Some m' => steps_offered m' es'
        | None => None
        end
      else None
  end.

(* ===================================================================== *)
(** ** Concrete worlds *)
(* ===================================================================== *)

Module Scenario.

Definition quote : string := Js.bytes [34].

(** The JSON text of a scene list, as the provider is asked to return it. *)
Definition scene_json (s : SceneBlueprint) : string :=
  "{" +:+ quote +:+ "scene_number" +:+ quote +:+ ":"
  +:+ Js.Z_toString (scene_number s)
  +:+ "," +:+ quote +:+ "korean_summary" +:+ quote +:+ ":"
  +:+ quote +:+ korean_summary s +:+ quote
  +:+ "," +:+ quote +:+ "english_prompt" +:+ quote +:+ ":"
  +:+ quote +:+ english_prompt s +:+ quote +:+ "}".

Fixpoint scenes_json_items (l : list SceneBlueprint) : string :=
  match l with
  | [] => ""
  | [s] => scene_json s
  | s :: l' => scene_json s +:+ "," +:+ scenes_json_items l'
  end.

Definition scenes_json (l : list SceneBlueprint) : string :=
  "[" +:+ scenes_json_items l +:+ "]".

Definition two_scenes : list SceneBlueprint :=
  [ mkSceneBlueprint 1 "선비가 과거를 보러 길을 떠난다"
      "A young scholar in a white hanbok leaves his village at dawn";
    mkSceneBlueprint 2 "산길에서 호랑이를 만난다"
      "The scholar meets a tiger on a misty mountain path" ].

Definition panels (n : nat) : list SceneBlueprint :=
  List.map
    (fun i =>
       mkSceneBlueprint (Z.of_nat (i + 1))
         ("장면 " +:+ Js.nat_toString (i + 1))
         ("Panel " +:+ Js.nat_toString (i + 1) +:+ " of the story"))
    (List.seq 0 n).

Definition ten_scenes : list SceneBlueprint := panels 10.
Definition eleven_scenes : list SceneBlueprint := panels 11.

Definition first_scene : SceneBlueprint :=
  mkSceneBlueprint 1 "선비가 과거를 보러 길을 떠난다"
    "A young scholar in a white hanbok leaves his village at dawn".

(** The text of an array whose second element is [null]. *)
Definition scene_then_null_json : string :=
  "[" +:+ scene_json first_scene +:+ ",null]".

(** [JSON.parse] on the texts the examples use; it throws on any other
    text.  The message is the one V8 gives. *)
Definition example_host : Host :=
  {| JSON_parse s :=
       if String.eqb s "[]" then Some (JArray [])
       else if String.eqb s "[null]" then Some (JArray [None])
       else if String.eqb s scene_then_null_json then
         Some (JArray [Some first_scene; None])
       else if String.eqb s (scenes_json two_scenes) then
         Some (JArray (List.map Some two_scenes))
       else if String.eqb s (scenes_json ten_scenes) then
         Some (JArray (List.map Some ten_scenes))
       else if String.eqb s (scenes_json eleven_scenes) then
         Some (JArray (List.map Some eleven_scenes))
       else None;
     null_read_message :=
       "Cannot read properties of null (reading 'korean_summary')" |}.

Definition text_ok (t : string) : call_outcome TextResponse :=
  Resolved (mkTextResponse (Some t)).

Definition image_ok : call_outcome ImageResponse :=
  Resolved
    (mkImageResponse
       (Some [ mkCandidate
                 (Some (mkContent
                          (Some [ mkPart
                                    (Some (mkInlineData "iVBORw0KGgo="
                                             (Some "image/png"))) ]))) ])).

Definition story : string := "옛날 옛적에 한 선비가 살았다".

(** The page after the user has typed the story. *)
Definition typed : AppState :=
  mkAppState story "16:9" (mkLoadingState LoadingStatus.idle None None None)
    [] [] None ∅.

(** Two scenes; the first render is refused and repaired, the second
    succeeds. *)
Definition world_two : World :=
  {| analysis_reply := text_ok (scenes_json two_scenes);
     render_reply := fun i => if Nat.eqb i 0 then Rejected else image_ok;
     repair_reply := fun _ => text_ok "A scholar walks out of a quiet village";
     retry_reply := image_ok;
     click_time := 1700000000000%Z;
     record_time := fun i => (1700000005000 + 3000 * Z.of_nat i)%Z;
     retry_time := 1700000060000%Z |}.

(** Eleven scenes, all rendered. *)
Definition world_eleven : World :=
  {| analysis_reply := text_ok (scenes_json eleven_scenes);
     render_reply := fun _ => image_ok;
     repair_reply := fun _ => Rejected;
     retry_reply := image_ok;
     click_time := 1700000000000%Z;
     record_time := fun i => (1700000005000 + 3000 * Z.of_nat i)%Z;
     retry_time := 1700000060000%Z |}.

(** Ten scenes, all rendered. *)
Definition world_ten : World :=
  {| analysis_reply := text_ok (scenes_json ten_scenes);
     render_reply := fun _ => image_ok;
     repair_reply := fun _ => Rejected;
     retry_reply := image_ok;
     click_time := 1700000000000%Z;
     record_time := fun i => (1700000005000 + 3000 * Z.of_nat i)%Z;
     retry_time := 1700000060000%Z |}.

(** The provider answers the analysis with an array that holds [null]
    alone, and with a scene followed by [null]. *)
Definition world_null : World :=
  {| analysis_reply := text_ok "[null]";
     render_reply := fun _ => image_ok;
     repair_reply := fun _ => Rejected;
     retry_reply := image_ok;
     click_time := 1700000000000%Z;
     record_time := fun i => (1700000005000 + 3000 * Z.of_nat i)%Z;
     retry_time := 1700000060000%Z |}.

Definition world_scene_then_null : World :=
  {| analysis_reply := text_ok scene_then_null_json;
     render_reply := fun _ => image_ok;
     repair_reply := fun _ => Rejected;
     retry_reply := image_ok;
     click_time := 1700000000000%Z;
     record_time := fun i => (1700000005000 + 3000 * Z.of_nat i)%Z;
     retry_time := 1700000060000%Z |}.

(** The provider answers the analysis with the empty array. *)
Definition world_empty : World :=
  {| analysis_reply := text_ok "[]";
     render_reply := fun _ => image_ok;
     repair_reply := fun _ => Rejected;
     retry_reply := image_ok;
     click_time := 1700000000000%Z;
     record_time := fun i => (1700000005000 + 3000 * Z.of_nat i)%Z;
     retry_time := 1700000060000%Z |}.

(** The page after the ten-scene batch and after the eleven-scene batch. *)
Definition after_ten : AppState :=
  final (startGeneration (H := example_host) world_ten 31 typed).

Definition after_eleven : AppState :=
  final (startGeneration (H := example_host) world_eleven 34 typed).

(** The ids of the live batch view once [item] is selected in the
    history. *)
Definition selected_ids (st : AppState) (item : GeneratedImage) : list string :=
  List.map id
    (currentBatch (apply_updates (handleSelectHistoryItem st item) st)).

(** The failed card of the first scene of [world_two]'s batch, with its
    suggestion, and the same card when the repair brings nothing. *)
Definition ctx_two : GenCtx := mkGenCtx story "16:9" "1700000000000".

Definition failed_card : GeneratedImage :=
  failedImage ctx_two 0 first_scene
    (Some "A scholar walks out of a quiet village") 1700000005000%Z.

Definition failed_card_plain : GeneratedImage :=
  failedImage ctx_two 0 first_scene None 1700000005000%Z.

(** A batch of two scenes whose first render is refused; the user accepts
    the suggested prompt while the second scene is still to come. *)
Definition accept_suggestion : list event :=
  [ Type_input story;
    Click_generate 1700000000000%Z;
    Settle 0 (TextReply (text_ok (scenes_json two_scenes))) 1700000002000%Z;
    Settle 0 (ImageReply Rejected) 1700000004000%Z;
    Settle 0 (TextReply (text_ok "A scholar walks out of a quiet village"))
      1700000005000%Z;
    Click_retry failed_card true;
    Settle 1 (ImageReply image_ok) 1700000006000%Z ].

(** A batch of two scenes whose first render is refused and not repaired.
    The user retries the first scene during the pacing delay and the retry
    succeeds; the second scene then arrives and the batch ends; the user
    retries the first scene once more. *)
Definition retry_twice : list event :=
  [ Type_input story;
    Click_generate 1700000000000%Z;
    Settle 0 (TextReply (text_ok (scenes_json two_scenes))) 1700000002000%Z;
    Settle 0 (ImageReply Rejected) 1700000004000%Z;
    Settle 0 (TextReply Rejected) 1700000005000%Z;
    Click_retry failed_card_plain false;
    Settle 1 (ImageReply image_ok) 1700000006000%Z;
    Settle 0 TimerFired 1700000008000;
    Settle 0 (ImageReply image_ok) 1700000010000%Z;
    Click_retry failed_card_plain false;
    Settle 0 (ImageReply image_ok) 1700000020000%Z ].

Definition mounted : Machine := mkMachine (initial_state []) [].

Definition after_accept_suggestion : Machine :=
  default mounted (steps_offered (H := example_host) mounted accept_suggestion).

Definition after_retry_twice : Machine :=
  default mounted (steps_offered (H := example_host) mounted retry_twice).

(** The same run stopped after the first retry click: the generation waits
    for its pacing delay and the retry for its render. *)
Definition retry_in_flight : Machine :=
  default mounted
    (steps_offered (H := example_host) mounted (take 6 retry_twice)).

End Scenario.

(** The invariant of the data model as the specification words it: a
    suggestion that is present differs from [refinedPrompt]. *)
Definition suggestion_differs (x : GeneratedImage) : Prop :=
  forall s, suggestedPrompt x = Some s -> s <> refinedPrompt x.


(** The records of a list that carry the id [target]. *)
Definition with_id (target : string) (l : list GeneratedImage)
    : list GeneratedImage :=
  List.filter (fun y => String.eqb (id y) target) l.

(* ===================================================================== *)
(** ** Further definitions: deletion, selection, the order of ids *)
(* ===================================================================== *)

(** The page once [handleDelete(target)] has run. *)
Definition after_delete (target : string) (st : AppState) : AppState :=
  apply_updates (handleDelete target) st.

(** The page once [handleSelectHistoryItem(item)] has run. *)
Definition after_select (st : AppState) (item : GeneratedImage) : AppState :=
  apply_updates (handleSelectHistoryItem st item) st.

(** The stored records of the batch of [item], oldest first: the
    [siblings] of App.tsx:203. *)
Definition siblings_of (st : AppState) (item : GeneratedImage)
    : list GeneratedImage :=
  List.rev
    (List.filter (fun h => bool_decide (batchId h = batchId item))
       (history st)).

(** The order [handleSelectHistoryItem] sorts by: [a.id.localeCompare(b.id)
    <= 0]. *)
Definition id_le (a b : GeneratedImage) : Prop :=
  String.leb (id a) (id b) = true.

(* ===================================================================== *)
(** ** services/geminiService.ts: the API key and the client *)
(* ===================================================================== *)

(** The provider client, as far as the sources fix it: the key it was
    built with ([new GoogleGenAI({ apiKey })]). *)
Record Client := mkClient { apiKey : string }.

(** [hasApiKey]: [!!process.env.API_KEY]; the environment variable is a
    string or undefined. *)
Definition hasApiKey (API_KEY : option string) : bool := Js.truthy_opt API_KEY.

(** [getApiKey]. *)
Definition getApiKey (API_KEY : option string) : option string := API_KEY.

(** [getAi], with the module variable [ai] passed in and out: it throws on
    a missing key, and builds the client only when none was built. *)
Definition getAi (API_KEY : option string) (ai : option Client)
    : exc Client * option Client :=
  match API_KEY with
  | Some key =>
      if Js.truthy key then
        match ai with
        | Some client => (Ok client, ai)
        | None => (Ok (mkClient key), Some (mkClient key))
        end
      else
        (Throw "API Key가 설정되지 않았습니다. .env 파일을 확인해주세요.", ai)
  | None =>
      (Throw "API Key가 설정되지 않았습니다. .env 파일을 확인해주세요.", ai)
  end.

(** The first two statements of the [try] block of each service function:
    [const client = getAi(); const response = await
    client.models.generateContent(...)], where [send] is what the provider
    does for a client.  The result is what the rest of the function sees,
    and the module variable [ai] afterwards. *)
Definition client_call {R} (API_KEY : option string) (ai : option Client)
    (send : Client -> call_outcome R) : call_outcome R * option Client :=
  match getAi API_KEY ai with
  | (Ok client, ai') => (send client, ai')
  | (Throw _, ai') => (Rejected, ai')
  end.

(** A world in which every provider call goes through [getAi] under the
    key [API_KEY]. *)
Definition through_getAi {R} (API_KEY : option string) (o : call_outcome R)
    : call_outcome R :=
  fst (client_call API_KEY None (fun _ => o)).

Definition world_with_key (API_KEY : option string) (W : World) : World :=
  {| analysis_reply := through_getAi API_KEY (analysis_reply W);
     render_reply := fun i => through_getAi API_KEY (render_reply W i);
     repair_reply := fun i => through_getAi API_KEY (repair_reply W i);
     retry_reply := through_getAi API_KEY (retry_reply W);
     click_time := click_time W;
     record_time := record_time W;
     retry_time := retry_time W |}.

(** The message every failure of [generateImage] carries. *)
Definition generateImage_error : string := "이미지 생성 중 오류가 발생했습니다.".

(* ===================================================================== *)
(** ** Further definitions: the calls of a batch *)
(* ===================================================================== *)

(** The calls a log records, in order. *)
Definition issued_requests (l : list log_entry) : list request :=
  List.flat_map
    (fun e => match e with
              | Issued r => [r]
              | Applied _ => []
              end) l.

(** The calls of the loop iteration for the scene at index [i]: the pacing
    delay (not before the first scene), the render, and the repair when the
    render fails. *)
Definition scene_requests (W : World) (ctx : GenCtx) (i : nat)
    (scene : SceneBlueprint) : list request :=
  (if (0 <? i)%nat then [ setTimeout_call 3000 ] else [])
  ++ [ generateImage_call (english_prompt scene) (g_aspectRatio ctx) ]
  ++ (if render_succeeds W i then []
      else [ getPromptFix_call (english_prompt scene) ]).

Fixpoint loop_requests (W : World) (ctx : GenCtx) (i : nat)
    (rest : list SceneBlueprint) : list request :=
  match rest with
  | [] => []
  | scene :: rest' =>
      scene_requests W ctx i scene ++ loop_requests W ctx (i + 1) rest'
  end.

(** The call the loop makes when it ends at index [i] on a [null]
    element: the pacing delay, unless the element is the first. *)
Definition halt_requests (i : nat) (halted : bool) : list request :=
  if halted && (0 <? i)%nat then [ setTimeout_call 3000 ] else [].

Definition is_delay (r : request) : bool :=
  match r with
  | setTimeout_call _ => true
  | _ => false
  end.

Definition is_repair (r : request) : bool :=
  match r with
  | getPromptFix_call _ => true
  | _ => false
  end.

(** The message [handleRetry] shows when the render fails. *)
Definition retry_error : string :=
  "재시도에 실패했습니다. 잠시 후 다시 시도해주세요.".

(* ===================================================================== *)
(** ** App.tsx: the masked key and the download *)
(* ===================================================================== *)

(** Strings of ASCII characters: on these the length in bytes is the
    length JavaScript counts, and a byte is a character. *)
Definition is_ascii (s : string) : Prop :=
  Forall (fun c => nat_of_ascii c < 128) (list_ascii_of_string s).

(** ['*'.repeat(n)]. *)
Fixpoint stars (n : nat) : string :=
  match n with
  | O => ""
  | S n' => String "*" (stars n')
  end.

(** App.tsx:244-247, with [key.slice(0, 4)] and [key.slice(-4)]. *)
Definition maskApiKey (key : string) : string :=
  if (String.length key <=? 8)%nat then "***"
  else
    String.substring 0 4 key
    +:+ stars (String.length key - 8)
    +:+ Js.drop (String.length key - 4) key.

(** App.tsx:272: what the settings dialog shows for the key. *)
Definition shown_key (API_KEY : option string) : string :=
  match getApiKey API_KEY with
  | Some key => if Js.truthy key then maskApiKey key else "설정되지 않음"
  | None => "설정되지 않음"
  end.

(** The anchor [downloadImage] builds, clicks and removes again. *)
Record Anchor := mkAnchor { href : string; download : string }.

(** geminiService.ts:166-173, as the anchor that is clicked. *)
Definition downloadImage (dataUrl filename : string) : Anchor :=
  mkAnchor dataUrl filename.

(** App.tsx:193-198: the download a click on the save button starts, if
    any. *)
Definition handleDownload (img : GeneratedImage) : option Anchor :=
  match status img with
  | ImageStatus.success =>
      Some (downloadImage (imageUrl img) ("yadam_" +:+ id img +:+ ".png"))
  | ImageStatus.failed => None
  end.

(** A successful record holds a [data:] URI. *)
Definition data_uri_ok (x : GeneratedImage) : Prop :=
  status x = ImageStatus.success -> Js.startsWith (imageUrl x) "data:" = true.

(* ===================================================================== *)
(** ** App.tsx: the busy flag *)
(* ===================================================================== *)

(** App.tsx:242. *)
Definition isLoading (ls : LoadingState) : bool :=
  match ls_status ls with
  | LoadingStatus.analyzing => true
  | LoadingStatus.generating => true
  | _ => false
  end.

(** The values a log gives to [loadingState], in order. *)
Definition loading_states (l : list log_entry) : list LoadingState :=
  List.flat_map
    (fun e => match e with
              | Applied (setLoadingState ls) => [ls]
              | _ => []
              end) l.

(** A value of [loadingState] during a batch of [n] scenes: busy, and
    counting at most [n] of [n]. *)
Definition busy_counting (n : nat) (ls : LoadingState) : Prop :=
  isLoading ls = true
  /\ (ls_status ls = LoadingStatus.generating ->
      exists c, current ls = Some c /\ total ls = Some n /\ c <= n).

(* ===================================================================== *)
(** ** Further concrete cases *)
(* ===================================================================== *)

Module Cases.
Import Scenario.

Definition png : string := "data:image/png;base64,iVBORw0KGgo=".

Definition second_scene : SceneBlueprint :=
  mkSceneBlueprint 2 "산길에서 호랑이를 만난다"
    "The scholar meets a tiger on a misty mountain path".

(** The page after the batch of [world_two], and the record of its second
    scene, the one that rendered. *)
Definition after_two : AppState :=
  final (startGeneration (H := example_host) world_two 7 typed).

Definition second_card : GeneratedImage :=
  newImage ctx_two 1 second_scene png 1700000008000%Z.

(** The first card once the retry with the suggested prompt has succeeded,
    and once the retry with its own prompt has. *)
Definition retried_card : GeneratedImage :=
  successItem failed_card png (promptToUse failed_card true)
    1700000060000%Z.

Definition retried_card_plain : GeneratedImage :=
  successItem failed_card_plain png (refinedPrompt failed_card_plain)
    1700000020000%Z.

(** [world_two] with a provider that refuses the retry. *)
Definition retry_refused : World :=
  {| analysis_reply := analysis_reply world_two;
     render_reply := render_reply world_two;
     repair_reply := repair_reply world_two;
     retry_reply := Rejected;
     click_time := click_time world_two;
     record_time := record_time world_two;
     retry_time := retry_time world_two |}.

(** The run [retry_twice] stopped when the first retry has succeeded. *)
Definition first_retry_done : Machine :=
  default mounted
    (steps_offered (H := example_host) mounted (take 7 retry_twice)).

(** A key of the shape the setup screen shows. *)
Definition sample_key : string := "AIzaSy-sample-key-0123".

End Cases.

(* ===================================================================== *)
(** * Properties *)
(* ===================================================================== *)

(** ** The primitives on small inputs *)

Example trim_spaces_and_newlines :
  Js.trim "  
	옛날 옛적에  " = "옛날 옛적에".
Proof. reflexivity. Qed.

Example trim_blank : Js.truthy (Js.trim "   ") = false.
Proof. reflexivity. Qed.

Example trim_ideographic_space :
  Js.trim (Js.bytes [227; 128; 128] +:+ "a" +:+ Js.bytes [194; 160]) = "a".
Proof. reflexivity. Qed.

Example cleanJson_fenced :
  cleanJson "```json
[]
```" = "[]".
Proof. reflexivity. Qed.

Example cleanJson_plain_fence : cleanJson "```[1]```" = "[1]".
Proof. reflexivity. Qed.

Example sort_is_stable_and_textual :
  Js.sort Js.localeCompare ["b_2"; "b_10"; "a"; "b_1"; "b_10"]
  = ["a"; "b_1"; "b_10"; "b_10"; "b_2"].
Proof. reflexivity. Qed.

Example generateImage_no_candidates :
  generateImage (Resolved (mkImageResponse None))
  = Throw "이미지 생성 중 오류가 발생했습니다.".
Proof. reflexivity. Qed.

Example generateImage_empty_candidates :
  generateImage (Resolved (mkImageResponse (Some [])))
  = Throw "이미지 생성 중 오류가 발생했습니다.".
Proof. reflexivity. Qed.

Example generateImage_default_mime :
  generateImage
    (Resolved
       (mkImageResponse
          (Some [ mkCandidate
                    (Some (mkContent
                             (Some [ mkPart None;
                                     mkPart (Some (mkInlineData "AAAA" None)) ]))) ])))
  = Ok "data:image/png;base64,AAAA".
Proof. reflexivity. Qed.

Example getPromptFix_blank_reply :
  getPromptFix (Resolved (mkTextResponse (Some "  "))) "a tiger" = "a tiger".
Proof. reflexivity. Qed.

Section Properties.
Context `{Host}.

Lemma run_done W fuel st : run W fuel st None = mkOutcome st None [].
Proof. destruct fuel; reflexivity. Qed.

Lemma run_from_click_then W fuel st us seg :
  run_from_click W fuel st (then_ us seg)
  = prepend_log (List.map Applied us)
      (run_from_click W fuel (apply_updates us st) seg).
Proof.
  unfold run_from_click, then_, prepend_log, segment_log, apply_updates. simpl.
  rewrite fold_left_app, List.map_app, <- !app_assoc. reflexivity.
Qed.

Lemma run_from_click_await W fuel st tk seg :
  resume tk (answer W tk) (now_at W tk) = Some seg ->
  run_from_click W (S fuel) st ([], Some tk)
  = prepend_log [Issued (awaiting tk)] (run_from_click W fuel st seg).
Proof.
  intros Hres. unfold run_from_click, prepend_log. simpl. rewrite Hres.
  reflexivity.
Qed.

Lemma run_from_click_more W fuel st us tk seg :
  resume tk (answer W tk) (now_at W tk) = Some seg ->
  run_from_click W (S fuel) st (us, Some tk)
  = prepend_log (List.map Applied us ++ [Issued (awaiting tk)])
      (run_from_click W fuel (apply_updates us st) seg).
Proof.
  intros Hres. unfold run_from_click, prepend_log, segment_log. simpl.
  rewrite Hres. simpl. f_equal.
Qed.

Lemma after_loop_step st st' tempBatch x results halted :
  inputText st' = inputText st ->
  selectedAspectRatio st' = selectedAspectRatio st ->
  errorMsg st' = errorMsg st ->
  retryingIds st' = retryingIds st ->
  history st' = (if is_success x then [x] else []) ++ history st ->
  after_loop st' (tempBatch ++ [x]) results halted
  = after_loop st tempBatch (x :: results) halted.
Proof.
  intros H1 H2 H3 H4 H5. unfold after_loop.
  rewrite H1, H2, H3, H4, H5. f_equal.
  - rewrite <- app_assoc. reflexivity.
  - simpl. destruct (is_success x); simpl.
    + rewrite <- app_assoc. reflexivity.
    + reflexivity.
Qed.

Lemma attempted_length scenes : length (attempted scenes) <= length scenes.
Proof.
  induction scenes as [|[scene|] scenes IH]; simpl; lia.
Qed.

Lemma attempted_Some l : attempted (List.map Some l) = l.
Proof. induction l as [|x l IH]; simpl; [|rewrite IH]; reflexivity. Qed.

Lemma has_null_Some l : has_null (List.map Some l) = false.
Proof. induction l as [|x l IH]; simpl; [reflexivity | exact IH]. Qed.

(** The loop gets to every scene exactly when no element is [null]. *)
Lemma has_null_attempted scenes :
  has_null scenes = false <-> length (attempted scenes) = length scenes.
Proof.
  induction scenes as [|[scene|] scenes IH]; simpl.
  - tauto.
  - rewrite IH. lia.
  - split; [discriminate | lia].
Qed.

Lemma has_null_all scenes :
  has_null scenes = false -> scenes = List.map Some (attempted scenes).
Proof.
  induction scenes as [|[scene|] scenes IH]; simpl; intros Hn.
  - reflexivity.
  - rewrite <- IH by exact Hn. reflexivity.
  - discriminate.
Qed.

(** Below the first [null] the scene list and [attempted] agree. *)
Lemma attempted_lookup scenes :
  forall k, k < length (attempted scenes) ->
            scenes !! k = Some <$> attempted scenes !! k.
Proof.
  induction scenes as [|[scene|] scenes IH]; intros k Hk; simpl in *;
    [lia| |lia].
  destruct k as [|k]; [reflexivity|]. simpl. apply IH. lia.
Qed.

(** At the first [null], when there is one. *)
Lemma attempted_stop scenes :
  has_null scenes = true -> scenes !! length (attempted scenes) = Some None.
Proof.
  induction scenes as [|[scene|] scenes IH]; simpl; intros Hn.
  - discriminate.
  - apply IH, Hn.
  - reflexivity.
Qed.

(** The loop, entered at index [length done] with [tempBatch] on display,
    runs to its end whatever the provider answers: past the last scene, or
    into the outer [catch] at the first [null]. *)
Lemma run_loop W ctx scenes :
  forall rest done tempBatch st fuel,
    scenes = done ++ rest ->
    currentBatch st = tempBatch ->
    3 * length rest <= fuel ->
    run_from_click W fuel st (loop_test ctx scenes (length done) tempBatch)
    = mkOutcome
        (after_loop st tempBatch
           (results_from W ctx (length done) (attempted rest)) (has_null rest))
        None
        (loop_log W ctx scenes (length done) (attempted rest) (has_null rest)
           tempBatch).
Proof.
  induction rest as [|[scene|] rest IH];
    intros done tempBatch st fuel Hsc Hcb Hfuel.
  - unfold loop_test. rewrite Hsc, app_nil_r, lookup_ge_None_2 by lia.
    unfold run_from_click, after_loop. subst tempBatch. simpl.
    rewrite run_done, app_nil_r. reflexivity.
  - assert (Hlook : scenes !! length done = Some (Some scene)).
    { rewrite Hsc. rewrite lookup_app_r by lia.
      replace (length done - length done) with 0 by lia. reflexivity. }
    assert (Hnext : scenes = (done ++ [Some scene]) ++ rest).
    { rewrite <- app_assoc. exact Hsc. }
    assert (Hlen : length (done ++ [Some scene]) = length done + 1).
    { rewrite length_app. reflexivity. }
    simpl in Hfuel.
    (* the three waits of this iteration *)
    assert (Hbody :
      forall f, 2 + 3 * length rest <= f ->
        run_from_click W f st
          (loop_body ctx scenes (length done) (Some scene) tempBatch)
        = mkOutcome
            (after_loop st tempBatch
               (results_from W ctx (length done) (scene :: attempted rest))
               (has_null rest))
            None
            (segment_log (scene_start ctx scenes (length done) scene tempBatch)
             ++ match generateImage (render_reply W (length done)) with
                | Ok _ =>
                    [ Applied (setCurrentBatch
                                 (tempBatch ++ [result_of W ctx (length done) scene]));
                      Applied (setHistory_prepend
                                 (result_of W ctx (length done) scene)) ]
                | Throw _ =>
                    [ Issued (getPromptFix_call (english_prompt scene));
                      Applied (setCurrentBatch
                                 (tempBatch ++ [result_of W ctx (length done) scene])) ]
                end
             ++ loop_log W ctx scenes (length done + 1) (attempted rest)
                  (has_null rest)
                  (tempBatch ++ [result_of W ctx (length done) scene]))).
    { intros f Hf. destruct f as [|f]; [lia|].
      unfold loop_body, scene_start.
      destruct (generateImage (render_reply W (length done))) as [url|msg] eqn:Hgen.
      - erewrite run_from_click_more
          by (simpl; rewrite Hgen; reflexivity).
        rewrite run_from_click_then. rewrite <- Hlen.
        rewrite (IH (done ++ [Some scene])); [| exact Hnext | reflexivity | lia].
        rewrite Hlen. unfold prepend_log. simpl. unfold result_of.
        rewrite Hgen. f_equal. apply after_loop_step; reflexivity.
      - destruct f as [|f]; [lia|].
        erewrite run_from_click_more
          by (simpl; rewrite Hgen; reflexivity).
        erewrite run_from_click_await by reflexivity.
        rewrite run_from_click_then. rewrite <- Hlen.
        rewrite (IH (done ++ [Some scene])); [| exact Hnext | reflexivity | lia].
        rewrite Hlen. unfold prepend_log. simpl. unfold result_of.
        rewrite Hgen. f_equal. apply after_loop_step; reflexivity. }
    unfold loop_test. rewrite Hlook. simpl loop_log. unfold scene_log.
    simpl attempted. simpl has_null.
    destruct (0 <? length done)%nat eqn:Hpos.
    + destruct fuel as [|fuel]; [lia|].
      erewrite run_from_click_await by reflexivity.
      rewrite Hbody by lia. unfold prepend_log. simpl.
      rewrite <- ?app_assoc. reflexivity.
    + rewrite Hbody by lia. simpl. rewrite <- ?app_assoc. reflexivity.
  - (* a null element: the property read throws *)
    assert (Hlook : scenes !! length done = Some None).
    { rewrite Hsc. rewrite lookup_app_r by lia.
      replace (length done - length done) with 0 by lia. reflexivity. }
    simpl in Hfuel.
    assert (Hthrow :
      forall f,
        run_from_click W f st (loop_body ctx scenes (length done) None tempBatch)
        = mkOutcome (after_loop st tempBatch [] true) None
            (segment_log (outer_catch null_read_message))).
    { intros f. unfold loop_body, outer_catch, run_from_click, after_loop.
      subst tempBatch. simpl. rewrite run_done, app_nil_r. reflexivity. }
    unfold loop_test. rewrite Hlook. simpl. unfold loop_end.
    destruct (0 <? length done)%nat eqn:Hpos.
    + destruct fuel as [|fuel]; [lia|].
      erewrite run_from_click_await by reflexivity.
      rewrite Hthrow. reflexivity.
    + rewrite Hthrow. reflexivity.
Qed.

(** A batch started with a non-blank input runs to its end, and this is
    what it does and leaves. *)
Lemma startGeneration_runs W st fuel :
  Js.truthy (Js.trim (inputText st)) = true ->
  enough_fuel (analyzed W st) <= fuel ->
  startGeneration W fuel st
  = mkOutcome
      {| inputText := inputText st;
         selectedAspectRatio := selectedAspectRatio st;
         loadingState := end_state (has_null (analyzed W st));
         currentBatch := batch_results W st;
         history := List.rev (List.filter is_success (batch_results W st))
                    ++ history st;
         errorMsg := end_message (has_null (analyzed W st)) None;
         retryingIds := retryingIds st |}
      None
      (batch_log W st).
Proof.
  intros Hin Hfuel. unfold startGeneration, batch_log, handleGenerate.
  rewrite Hin. simpl negb. cbv iota.
  unfold enough_fuel in Hfuel. destruct fuel as [|fuel]; [lia|].
  erewrite run_from_click_more by reflexivity.
  rewrite run_from_click_then.
  rewrite (run_loop W _ _ (analyzeScript (analysis_reply W) (inputText st)) []);
    [| reflexivity | reflexivity | simpl in *; unfold analyzed in Hfuel; lia].
  unfold prepend_log, after_loop, batch_results, analyzed, batch_ctx,
    analysis_done_log, segment_log.
  simpl. reflexivity.
Qed.

(** *** The records of a batch *)

Lemma result_of_id W ctx i scene :
  id (result_of W ctx i scene) = scene_id (g_batchId ctx) i.
Proof. unfold result_of. destruct (generateImage _); reflexivity. Qed.

Lemma result_of_refinedPrompt W ctx i scene :
  refinedPrompt (result_of W ctx i scene) = english_prompt scene.
Proof. unfold result_of. destruct (generateImage _); reflexivity. Qed.

Lemma result_of_sceneSummary W ctx i scene :
  sceneSummary (result_of W ctx i scene) = Some (korean_summary scene).
Proof. unfold result_of. destruct (generateImage _); reflexivity. Qed.

Lemma result_of_success W ctx i scene :
  is_success (result_of W ctx i scene) = render_succeeds W i.
Proof.
  unfold result_of, render_succeeds. destruct (generateImage _); reflexivity.
Qed.

Lemma results_from_length W ctx rest :
  forall i, length (results_from W ctx i rest) = length rest.
Proof.
  induction rest as [|scene rest IH]; intros i; simpl; [reflexivity|].
  rewrite IH. reflexivity.
Qed.

Lemma results_from_lookup W ctx rest :
  forall i k,
    results_from W ctx i rest !! k = result_of W ctx (i + k) <$> rest !! k.
Proof.
  induction rest as [|scene rest IH]; intros i k; [reflexivity|].
  destruct k as [|k]; simpl.
  - rewrite Nat.add_0_r. reflexivity.
  - rewrite IH. replace (i + 1 + k) with (i + S k) by lia. reflexivity.
Qed.

Lemma results_from_ids W ctx rest :
  forall i,
    List.map id (results_from W ctx i rest)
    = List.map (scene_id (g_batchId ctx)) (List.seq i (length rest)).
Proof.
  induction rest as [|scene rest IH]; intros i; simpl; [reflexivity|].
  rewrite result_of_id, IH. replace (i + 1) with (S i) by lia. reflexivity.
Qed.

(** *** The log of the loop *)

Lemma render_calls_app l1 l2 :
  render_calls (l1 ++ l2) = render_calls l1 ++ render_calls l2.
Proof. apply flat_map_app. Qed.

Lemma progress_indices_app l1 l2 :
  progress_indices (l1 ++ l2) = progress_indices l1 ++ progress_indices l2.
Proof. apply flat_map_app. Qed.

Lemma history_inserts_app l1 l2 :
  history_inserts (l1 ++ l2) = history_inserts l1 ++ history_inserts l2.
Proof. apply flat_map_app. Qed.

Lemma batch_writes_app l1 l2 :
  batch_writes (l1 ++ l2) = batch_writes l1 ++ batch_writes l2.
Proof. apply flat_map_app. Qed.

Lemma emitted_app l1 l2 : emitted (l1 ++ l2) = emitted l1 ++ emitted l2.
Proof. apply flat_map_app. Qed.

Lemma loop_log_render_calls W ctx scenes rest halted :
  forall i tempBatch,
    render_calls (loop_log W ctx scenes i rest halted tempBatch)
    = List.map (fun s => (english_prompt s, g_aspectRatio ctx)) rest.
Proof.
  induction rest as [|scene rest IH]; intros i tempBatch.
  - simpl. unfold loop_end. destruct halted, (0 <? i)%nat; reflexivity.
  - simpl. unfold scene_log. rewrite !render_calls_app, IH.
    destruct (0 <? i)%nat, (generateImage (render_reply W i)); reflexivity.
Qed.

Lemma loop_log_progress W ctx scenes rest halted :
  forall i tempBatch,
    progress_indices (loop_log W ctx scenes i rest halted tempBatch)
    = List.seq (i + 1) (length rest).
Proof.
  induction rest as [|scene rest IH]; intros i tempBatch.
  - simpl. unfold loop_end. destruct halted, (0 <? i)%nat; reflexivity.
  - simpl. unfold scene_log. rewrite !progress_indices_app, IH.
    replace (i + 1 + 1) with (S (i + 1)) by lia.
    destruct (0 <? i)%nat, (generateImage (render_reply W i)); reflexivity.
Qed.

(** C1, as the code has it. A batch started with a non-blank input runs
    to a terminal phase whatever the provider answers.  It gets to the scenes of the analyzed
    list in list order up to the first element that is [null]: to all of
    them when there is none, and the phase is then [success]; otherwise the
    phase is [error].  It issues exactly one render call per scene it gets
    to, in list order; the live batch view ends with one record per such
    scene, the record at position [k] being the one of the scene at
    position [k] (id suffix [k], that scene's prompt and summary), whether
    the render of a scene before it failed or not; and the progress
    announces the scenes 1, 2, ..., A in that order after the initial 0. *)
Theorem startGeneration_attempts_every_scene_in_order W st fuel :
  Js.truthy (Js.trim (inputText st)) = true ->
  enough_fuel (analyzed W st) <= fuel ->
  let r := startGeneration W fuel st in
  let scenes := analyzed W st in
  let N := length scenes in
  let A := length (attempted scenes) in
  unfinished r = None
  /\ (has_null scenes = false ->
      A = N /\ scenes = List.map Some (attempted scenes)
      /\ ls_status (loadingState (final r)) = LoadingStatus.success)
  /\ (has_null scenes = true ->
      A < N /\ scenes !! A = Some None
      /\ ls_status (loadingState (final r)) = LoadingStatus.error)
  /\ (forall k, k < A -> scenes !! k = Some <$> attempted scenes !! k)
  /\ length (currentBatch (final r)) = A
  /\ List.map id (currentBatch (final r))
     = List.map (scene_id (Js.Z_toString (click_time W))) (List.seq 0 A)
  /\ (forall k scene,
        k < A ->
        scenes !! k = Some (Some scene) ->
        exists x,
          currentBatch (final r) !! k = Some x
          /\ id x = scene_id (Js.Z_toString (click_time W)) k
          /\ refinedPrompt x = english_prompt scene
          /\ sceneSummary x = Some (korean_summary scene)
          /\ (status x = ImageStatus.success <-> render_succeeds W k = true))
  /\ render_calls (log r)
     = List.map (fun s => (english_prompt s, selectedAspectRatio st))
         (attempted scenes)
  /\ progress_indices (log r) = 0 :: List.seq 1 A.
Proof.
  intros Hin Hfuel r scenes N A. subst r.
  rewrite (startGeneration_runs W st fuel Hin Hfuel). simpl.
  unfold batch_results. fold scenes.
  split; [reflexivity|].
  split.
  { intros Hn. rewrite Hn. split; [apply has_null_attempted, Hn|].
    split; [apply has_null_all, Hn | reflexivity]. }
  split.
  { intros Hn. rewrite Hn. split; [|split; [apply attempted_stop, Hn | reflexivity]].
    subst A N. pose proof (attempted_length scenes) as Hle.
    destruct (Nat.eq_dec (length (attempted scenes)) (length scenes)) as [He|He];
      [|lia].
    apply has_null_attempted in He. congruence. }
  split; [apply attempted_lookup|].
  split; [rewrite results_from_length; reflexivity|].
  split; [rewrite results_from_ids; reflexivity|].
  split.
  { intros k scene Hk Hlook. exists (result_of W (batch_ctx W st) k scene).
    rewrite attempted_lookup in Hlook by exact Hk.
    destruct (attempted scenes !! k) as [scene'|] eqn:Hk'; [|discriminate].
    simpl in Hlook. injection Hlook as ->.
    rewrite results_from_lookup, Hk'. simpl.
    rewrite result_of_id, result_of_refinedPrompt, result_of_sceneSummary.
    repeat split.
    + intros Hs. rewrite <- result_of_success with (ctx := batch_ctx W st)
        (scene := scene). unfold is_success. apply bool_decide_eq_true. exact Hs.
    + intros Hs. rewrite <- result_of_success with (ctx := batch_ctx W st)
        (scene := scene) in Hs. unfold is_success in Hs.
      apply bool_decide_eq_true in Hs. exact Hs. }
  split.
  - unfold batch_log, handleGenerate. rewrite Hin. simpl.
    rewrite loop_log_render_calls. reflexivity.
  - unfold batch_log, handleGenerate. rewrite Hin. simpl.
    rewrite loop_log_progress. reflexivity.
Qed.

Lemma loop_log_batch_writes W ctx scenes rest halted :
  forall i tempBatch,
    Forall (fun w => writes_records w = true)
      (batch_writes (loop_log W ctx scenes i rest halted tempBatch)).
Proof.
  induction rest as [|scene rest IH]; intros i tempBatch; simpl.
  - unfold loop_end. destruct halted, (0 <? i)%nat; constructor.
  - unfold scene_log. rewrite !batch_writes_app, !Forall_app.
    repeat split.
    + destruct (0 <? i)%nat; constructor.
    + constructor.
    + destruct (generateImage (render_reply W i)); simpl;
        (constructor; [destruct tempBatch; reflexivity | constructor]).
    + apply IH.
Qed.

Lemma loop_log_history_inserts W ctx scenes rest halted :
  forall i tempBatch,
    history_inserts (loop_log W ctx scenes i rest halted tempBatch)
    = List.filter is_success (results_from W ctx i rest).
Proof.
  induction rest as [|scene rest IH]; intros i tempBatch.
  - simpl. unfold loop_end. destruct halted, (0 <? i)%nat; reflexivity.
  - simpl. unfold scene_log. rewrite !history_inserts_app, IH.
    rewrite result_of_success. unfold render_succeeds, result_of.
    destruct (0 <? i)%nat, (generateImage (render_reply W i)); reflexivity.
Qed.

Lemma results_from_successes W ctx rest :
  forall i,
    length (List.filter is_success (results_from W ctx i rest))
    = length (List.filter (render_succeeds W) (List.seq i (length rest))).
Proof.
  induction rest as [|scene rest IH]; intros i; [reflexivity|].
  simpl. rewrite result_of_success.
  replace (S i) with (i + 1) by lia.
  destruct (render_succeeds W i); simpl; rewrite IH; reflexivity.
Qed.

(** *** The log of a run and the states it passes through *)

Lemma applied_app l1 l2 : applied (l1 ++ l2) = applied l1 ++ applied l2.
Proof. apply flat_map_app. Qed.

Lemma applied_segment_log seg : applied (segment_log seg) = fst seg.
Proof.
  unfold segment_log. rewrite applied_app.
  assert (H1 : forall us, applied (List.map Applied us) = us).
  { induction us as [|u us IH]; simpl; [|rewrite IH]; reflexivity. }
  rewrite H1. destruct (snd seg); simpl; rewrite app_nil_r; reflexivity.
Qed.

Lemma replay_app l1 l2 st : replay (l1 ++ l2) st = replay l2 (replay l1 st).
Proof. unfold replay, apply_updates. rewrite applied_app. apply fold_left_app. Qed.

(** The log of a run tells where it ends. *)
Lemma run_replay W fuel :
  forall st t, final (run W fuel st t) = replay (log (run W fuel st t)) st.
Proof.
  induction fuel as [|fuel IH]; intros st t.
  - destruct t; reflexivity.
  - destruct t as [tk|]; [|reflexivity]. simpl.
    destruct (resume tk (answer W tk) (now_at W tk)) as [seg|]; [|reflexivity].
    simpl. rewrite replay_app, IH. unfold replay at 3.
    rewrite applied_segment_log. reflexivity.
Qed.

Lemma startGeneration_replay W fuel st :
  final (startGeneration W fuel st) = replay (log (startGeneration W fuel st)) st.
Proof.
  unfold startGeneration, run_from_click. simpl.
  rewrite replay_app, run_replay. unfold replay at 3.
  rewrite applied_segment_log. reflexivity.
Qed.

(** C10. The stretch of [handleGenerate] that runs at the click leaves the
    live batch view as it was and suspends at the analysis, in phase
    [analyzing]; this holds in every state of the event loop.  Whatever the
    analysis returns, the stretch that follows it empties the view, and it
    does so before it issues a render call.  In a batch run on its own the
    log reads: a part in which the view is not written, stays the one of
    before the click, and no render call is issued; the clear, after which
    the view is empty; and a part in which every write to the view puts
    records there.  The final state is the one this log leads to. *)
Theorem startGeneration_clears_batch_once_after_analysis W st fuel :
  Js.truthy (Js.trim (inputText st)) = true ->
  enough_fuel (analyzed W st) <= fuel ->
  let click := handleGenerate st (click_time W) in
  let r := startGeneration W fuel st in
  snd click = Some (GenAwaitAnalyze (batch_ctx W st))
  /\ ls_status (loadingState (apply_updates (fst click) st))
     = LoadingStatus.analyzing
  /\ currentBatch (apply_updates (fst click) st) = currentBatch st
  /\ (forall m now,
        exists m',
          step m (Click_generate now) = Some m'
          /\ currentBatch (app m') = currentBatch (app m))
  /\ (forall m k ctx o now,
        pending m !! k = Some (GenAwaitAnalyze ctx) ->
        exists m',
          step m (Settle k (TextReply o) now) = Some m'
          /\ currentBatch (app m') = [])
  /\ final r = replay (log r) st
  /\ exists before after,
       log r = before ++ Applied (setCurrentBatch []) :: after
       /\ Issued (analyzeScript_call (inputText st)) ∈ before
       /\ render_calls before = []
       /\ batch_writes before = []
       /\ Forall (fun view => view = currentBatch st) (views_along before st)
       /\ currentBatch (replay (before ++ [Applied (setCurrentBatch [])]) st)
          = []
       /\ Forall (fun w => writes_records w = true) (batch_writes after).
Proof.
  assert (Hloop : forall ctx scenes j tb s,
            currentBatch (apply_updates (fst (loop_test ctx scenes j tb)) s)
            = currentBatch s).
  { intros ctx scenes j tb s. unfold loop_test, loop_body.
    destruct (scenes !! j) as [[scene|]|]; [destruct (0 <? j)%nat| |];
      try reflexivity.
    destruct (0 <? j)%nat; reflexivity. }
  intros Hin Hfuel click r.
  split; [subst click; unfold handleGenerate; rewrite Hin; reflexivity|].
  split; [subst click; unfold handleGenerate; rewrite Hin; reflexivity|].
  split; [subst click; unfold handleGenerate; rewrite Hin; reflexivity|].
  split.
  { intros m now. eexists. split; [reflexivity|].
    simpl. unfold handleGenerate. destruct (negb _); reflexivity. }
  split.
  { intros m k ctx o now Hk. simpl. rewrite Hk. simpl.
    eexists. split; [reflexivity|]. simpl.
    rewrite Hloop. reflexivity. }
  split; [apply startGeneration_replay|].
  subst r. rewrite (startGeneration_runs W st fuel Hin Hfuel). subst click.
  unfold batch_log, handleGenerate. rewrite Hin. cbn [negb].
  eexists (_ :: _ :: _ :: [_]), _.
  split; [reflexivity|].
  split; [right; right; left|].
  split; [reflexivity|].
  split; [reflexivity|].
  split; [repeat constructor|].
  split; [reflexivity|].
  apply loop_log_batch_writes.
Qed.

(** *** What a step can add to the history *)

Lemma history_after_updates us :
  forall st x,
    x ∈ history (apply_updates us st) ->
    x ∈ history st \/ setHistory_prepend x ∈ us.
Proof.
  induction us as [|u us IH]; intros st x Hx; [left; exact Hx|].
  simpl in Hx. apply IH in Hx. destruct Hx as [Hx|Hx].
  - destruct u; simpl in Hx; try (left; exact Hx).
    + apply elem_of_cons in Hx. destruct Hx as [->|Hx].
      * right. left.
      * left. exact Hx.
    + left. unfold remove_by_id in Hx.
      apply list_elem_of_In, filter_In in Hx. apply list_elem_of_In, Hx.
  - right. right. exact Hx.
Qed.

(** The updates of the loop's own stretches write the phase and, in the
    outer [catch], the error message; nothing else. *)
Lemma loop_body_updates ctx scenes i scene tempBatch u :
  u ∈ fst (loop_body ctx scenes i scene tempBatch) ->
  (exists ls, u = setLoadingState ls) \/ (exists msg, u = setErrorMsg msg).
Proof.
  unfold loop_body, scene_start, outer_catch.
  destruct scene; simpl; intros Hu.
  - apply list_elem_of_singleton in Hu. eauto.
  - rewrite !elem_of_cons in Hu. destruct Hu as [->|[->|Hu]]; eauto.
    inversion Hu.
Qed.

Lemma loop_test_updates ctx scenes i tempBatch u :
  u ∈ fst (loop_test ctx scenes i tempBatch) ->
  (exists ls, u = setLoadingState ls) \/ (exists msg, u = setErrorMsg msg).
Proof.
  unfold loop_test.
  destruct (scenes !! i) as [scene|]; [destruct (0 <? i)%nat|]; intros Hu.
  - inversion Hu.
  - eapply loop_body_updates, Hu.
  - apply list_elem_of_singleton in Hu. eauto.
Qed.

Lemma resume_history_inserts t s now seg x :
  resume t s now = Some seg ->
  setHistory_prepend x ∈ fst seg ->
  status x = ImageStatus.success.
Proof.
  intros Hres Hx.
  destruct t, s; simpl in Hres; try discriminate.
  - injection Hres as <-. simpl in Hx.
    rewrite !elem_of_cons in Hx. destruct Hx as [Hx|[Hx|Hx]]; try discriminate.
    apply loop_test_updates in Hx as [[ls Hx]|[em Hx]]; discriminate.
  - injection Hres as <-.
    apply loop_body_updates in Hx as [[ls Hx]|[em Hx]]; discriminate.
  - destruct (generateImage o); injection Hres as <-; simpl in Hx.
    + rewrite !elem_of_cons in Hx. destruct Hx as [Hx|[Hx|Hx]]; try discriminate.
      * injection Hx as ->. reflexivity.
      * apply loop_test_updates in Hx as [[ls Hx]|[em Hx]]; discriminate.
    + inversion Hx.
  - injection Hres as <-. simpl in Hx.
    rewrite !elem_of_cons in Hx. destruct Hx as [Hx|Hx]; try discriminate.
    apply loop_test_updates in Hx as [[ls Hx]|[em Hx]]; discriminate.
  - destruct (generateImage o); injection Hres as <-; simpl in Hx.
    + rewrite !elem_of_cons in Hx.
      destruct Hx as [Hx|[Hx|[Hx|Hx]]]; try discriminate.
      * injection Hx as ->. reflexivity.
      * inversion Hx.
    + rewrite !elem_of_cons in Hx.
      destruct Hx as [Hx|[Hx|Hx]]; try discriminate. inversion Hx.
Qed.

Lemma step_history_inserts m e m' x :
  step m e = Some m' ->
  x ∈ history (app m') ->
  x ∈ history (app m) \/ status x = ImageStatus.success.
Proof.
  intros Hstep Hx. destruct e; simpl in Hstep.
  - injection Hstep as <-. left. exact Hx.
  - injection Hstep as <-. left. exact Hx.
  - injection Hstep as <-. simpl in Hx.
    apply history_after_updates in Hx as [Hx|Hx]; [left; exact Hx|].
    unfold handleGenerate in Hx.
    destruct (negb _); simpl in Hx.
    + inversion Hx.
    + rewrite !elem_of_cons in Hx.
      destruct Hx as [Hx|[Hx|Hx]]; try discriminate. inversion Hx.
  - injection Hstep as <-. simpl in Hx.
    apply history_after_updates in Hx as [Hx|Hx]; [left; exact Hx|].
    unfold handleRetry in Hx. destruct (bool_decide _); simpl in Hx.
    + inversion Hx.
    + apply list_elem_of_singleton in Hx. discriminate.
  - injection Hstep as <-. simpl in Hx. left.
    unfold remove_by_id in Hx.
    apply list_elem_of_In, filter_In in Hx. apply list_elem_of_In, Hx.
  - injection Hstep as <-. simpl in Hx.
    apply history_after_updates in Hx as [Hx|Hx]; [left; exact Hx|].
    repeat (match type of Hx with
            | context [match ?c with _ => _ end] => destruct c
            end);
      apply list_elem_of_singleton in Hx; discriminate.
  - destruct (pending m !! k) as [t|]; [|discriminate].
    destruct (resume t s now) as [seg|] eqn:Hres; [|discriminate].
    injection Hstep as <-. simpl in Hx.
    apply history_after_updates in Hx as [Hx|Hx]; [left; exact Hx|].
    right. eapply resume_history_inserts; eassumption.
Qed.

(** C4, as the code has it. A batch that gets to A scenes (all N of the
    analyzed list when no element is [null]), of which the renderer delivers K, leaves A records
    in the live batch view and K more records in the history: the records
    inserted are exactly the successful ones of the view, in scene order,
    so no failed record of the batch is inserted.  And whatever the event
    (a click, or the settlement of a call a generation or a retry is
    waiting for), every record it adds to the history has
    [status = success]. *)
Theorem failed_results_are_not_stored W st fuel :
  Js.truthy (Js.trim (inputText st)) = true ->
  enough_fuel (analyzed W st) <= fuel ->
  let r := startGeneration W fuel st in
  let N := length (analyzed W st) in
  let A := length (attempted (analyzed W st)) in
  let K := successes W A in
  length (currentBatch (final r)) = A
  /\ (has_null (analyzed W st) = false -> A = N)
  /\ history_inserts (log r) = List.filter is_success (currentBatch (final r))
  /\ history (final r)
     = List.rev (List.filter is_success (currentBatch (final r))) ++ history st
  /\ length (history (final r)) = K + length (history st)
  /\ (forall x, x ∈ history_inserts (log r) -> status x = ImageStatus.success)
  /\ (forall m e m' x,
        step m e = Some m' ->
        x ∈ history (app m') ->
        x ∈ history (app m) \/ status x = ImageStatus.success).
Proof.
  intros Hin Hfuel r N A K. subst r.
  rewrite (startGeneration_runs W st fuel Hin Hfuel). simpl.
  assert (Hins : history_inserts (batch_log W st)
                 = List.filter is_success (batch_results W st)).
  { unfold batch_log, handleGenerate. rewrite Hin. simpl.
    rewrite loop_log_history_inserts. reflexivity. }
  split; [unfold batch_results; rewrite results_from_length; reflexivity|].
  split; [apply has_null_attempted|].
  split; [exact Hins|].
  split; [reflexivity|].
  split.
  { rewrite length_app, length_rev. unfold batch_results.
    rewrite results_from_successes. reflexivity. }
  split.
  - intros x Hx. rewrite Hins in Hx.
    apply list_elem_of_In, filter_In in Hx. destruct Hx as [_ Hx].
    unfold is_success in Hx. apply bool_decide_eq_true in Hx. exact Hx.
  - intros m e m' x. apply step_history_inserts.
Qed.

(** *** Properties of records kept by every handler *)

Lemma insert_sorted_perm {A} (cmp : A -> A -> comparison) x l :
  Js.insert_sorted cmp x l ≡ₚ x :: l.
Proof.
  induction l as [|y l IH]; simpl; [reflexivity|].
  destruct (Js.le_cmp cmp x y); [reflexivity|].
  rewrite IH. apply Permutation_swap.
Qed.

Lemma sort_perm {A} (cmp : A -> A -> comparison) l : Js.sort cmp l ≡ₚ l.
Proof.
  induction l as [|x l IH]; simpl; [reflexivity|].
  rewrite insert_sorted_perm, IH. reflexivity.
Qed.

Section RecordInvariant.
Variable P : GeneratedImage -> Prop.
Hypothesis P_new :
  forall ctx i scene o url now,
    generateImage o = Ok url -> P (newImage ctx i scene url now).
Hypothesis P_failed :
  forall ctx i scene suggested now, P (failedImage ctx i scene suggested now).
Hypothesis P_retry :
  forall item o url prompt now,
    generateImage o = Ok url -> P (successItem item url prompt now).

Lemma apply_updates_records us :
  forall st,
    Forall P (currentBatch st) ->
    Forall P (history st) ->
    (forall u, u ∈ us -> Forall P (carried u)) ->
    Forall P (currentBatch (apply_updates us st))
    /\ Forall P (history (apply_updates us st)).
Proof.
  induction us as [|u us IH]; intros st Hb Hh Hus; [split; assumption|].
  simpl. apply IH.
  - assert (Hu : Forall P (carried u)) by (apply Hus; left).
    destruct u; simpl in *; try assumption.
    + unfold replace_by_id. apply Forall_forall. intros y Hy.
      apply list_elem_of_In, in_map_iff in Hy. destruct Hy as (z & <- & Hz).
      destruct (String.eqb (id z) target).
      * inversion Hu; assumption.
      * rewrite Forall_forall in Hb. apply Hb, list_elem_of_In, Hz.
    + unfold remove_by_id. apply Forall_forall. intros y Hy.
      apply list_elem_of_In, filter_In in Hy.
      rewrite Forall_forall in Hb. apply Hb, list_elem_of_In, Hy.
  - assert (Hu : Forall P (carried u)) by (apply Hus; left).
    destruct u; simpl in *; try assumption.
    + constructor; [inversion Hu|]; assumption.
    + unfold remove_by_id. apply Forall_forall. intros y Hy.
      apply list_elem_of_In, filter_In in Hy.
      rewrite Forall_forall in Hh. apply Hh, list_elem_of_In, Hy.
  - intros u' Hu'. apply Hus. right. exact Hu'.
Qed.

Lemma loop_test_records ctx scenes i tempBatch :
  Forall P tempBatch ->
  (forall u, u ∈ fst (loop_test ctx scenes i tempBatch) -> Forall P (carried u))
  /\ (forall t, snd (loop_test ctx scenes i tempBatch) = Some t ->
             Forall P (task_records t)).
Proof.
  intros Hb. split.
  - intros u Hu. apply loop_test_updates in Hu as [[ls ->]|[em ->]];
      constructor.
  - intros t. unfold loop_test, loop_body.
    destruct (scenes !! i) as [[scene|]|]; [destruct (0 <? i)%nat| |];
      simpl; intros Ht; try discriminate;
      try (injection Ht as <-; exact Hb).
    destruct (0 <? i)%nat; simpl in Ht; try discriminate.
    injection Ht as <-. exact Hb.
Qed.

Lemma resume_records t s now seg :
  resume t s now = Some seg ->
  Forall P (task_records t) ->
  (forall u, u ∈ fst seg -> Forall P (carried u))
  /\ (forall t', snd seg = Some t' -> Forall P (task_records t')).
Proof.
  intros Hres Ht.
  destruct t, s; simpl in Hres; try discriminate; simpl in Ht.
  - injection Hres as <-.
    destruct (loop_test_records ctx (analyzeScript o (g_inputText ctx)) 0 [])
      as [Hu Hn]; [constructor|].
    split; [|exact Hn]. simpl. intros u Hin.
    rewrite !elem_of_cons in Hin. destruct Hin as [->|[->|Hin]].
    + constructor.
    + constructor.
    + apply Hu, Hin.
  - injection Hres as <-. split.
    + intros u Hin.
      apply loop_body_updates in Hin as [[ls ->]|[em ->]]; constructor.
    + destruct scene; simpl; intros t' Ht'; [|discriminate].
      injection Ht' as <-. exact Ht.
  - destruct (generateImage o) as [url|msg] eqn:Hgen; injection Hres as <-.
    + assert (Hb : Forall P (tempBatch ++ [newImage ctx i scene url now])).
      { apply Forall_app. split; [exact Ht|].
        constructor; [eapply P_new; eassumption | constructor]. }
      destruct (loop_test_records ctx scenes (i + 1) _ Hb) as [Hu Hn].
      split; [|exact Hn]. simpl. intros u Hin.
      rewrite !elem_of_cons in Hin. destruct Hin as [->|[->|Hin]].
      * exact Hb.
      * simpl. constructor; [eapply P_new; eassumption | constructor].
      * apply Hu, Hin.
    + split.
      * simpl. intros u Hin. inversion Hin.
      * simpl. intros t' Ht'. injection Ht' as <-. exact Ht.
  - injection Hres as <-.
    assert (Hb : Forall P (tempBatch
                           ++ [failedImage ctx i scene
                                 (Some (getPromptFix o (english_prompt scene)))
                                 now])).
    { apply Forall_app. split; [exact Ht|].
      constructor; [apply P_failed | constructor]. }
    destruct (loop_test_records ctx scenes (i + 1) _ Hb) as [Hu Hn].
    split; [|exact Hn]. simpl. intros u Hin.
    rewrite !elem_of_cons in Hin. destruct Hin as [->|Hin].
    + exact Hb.
    + apply Hu, Hin.
  - destruct (generateImage o) as [url|msg] eqn:Hgen; injection Hres as <-.
    + split; [|discriminate]. simpl. intros u Hin.
      rewrite !elem_of_cons in Hin. destruct Hin as [->|[->|[->|Hin]]].
      * simpl. constructor; [eapply P_retry; eassumption | constructor].
      * simpl. constructor; [eapply P_retry; eassumption | constructor].
      * constructor.
      * inversion Hin.
    + split; [|discriminate]. simpl. intros u Hin.
      rewrite !elem_of_cons in Hin. destruct Hin as [->|[->|Hin]].
      * constructor.
      * constructor.
      * inversion Hin.
Qed.

(** Every record a run carries into the state has the property. *)
Lemma run_emitted W fuel :
  forall st t,
    (forall tk, t = Some tk -> Forall P (task_records tk)) ->
    Forall P (emitted (log (run W fuel st t))).
Proof.
  induction fuel as [|fuel IH]; intros st t Ht.
  - destruct t; constructor.
  - destruct t as [tk|]; [|constructor]. simpl.
    destruct (resume tk (answer W tk) (now_at W tk)) as [seg|] eqn:Hres;
      [|constructor].
    destruct (resume_records _ _ _ _ Hres (Ht tk eq_refl)) as [Hu Hn].
    simpl. unfold segment_log. rewrite !emitted_app, !Forall_app.
    repeat split.
    + apply Forall_forall. intros x Hx.
      apply list_elem_of_In, in_flat_map in Hx. destruct Hx as (e & He & Hx).
      apply in_map_iff in He. destruct He as (u & <- & Hin).
      specialize (Hu u (proj2 (list_elem_of_In _ _) Hin)).
      rewrite Forall_forall in Hu. apply Hu, list_elem_of_In, Hx.
    + destruct (snd seg); constructor.
    + apply IH. exact Hn.
Qed.

Lemma startGeneration_emitted W fuel st :
  Forall P (emitted (log (startGeneration W fuel st))).
Proof.
  unfold startGeneration, run_from_click, handleGenerate.
  destruct (negb _); simpl.
  - rewrite run_done. constructor.
  - apply run_emitted. intros tk Htk. injection Htk as <-. constructor.
Qed.

Lemma retry_emitted W st item useSuggestion :
  Forall P (emitted (log (retry W st item useSuggestion))).
Proof.
  unfold retry, run_from_click, handleRetry.
  destruct (bool_decide _); simpl.
  - constructor.
  - destruct (generateImage (retry_reply W)) as [url|msg] eqn:Hgen; simpl.
    + repeat constructor; eapply P_retry; eassumption.
    + constructor.
Qed.

(** Every step of the event loop keeps the property on all records. *)
Lemma step_records_ok m e m' :
  records_ok P m -> offered m e -> step m e = Some m' -> records_ok P m'.
Proof.
  intros (Hb & Hh & Hp) Hoff Hstep. destruct e; simpl in Hstep.
  - injection Hstep as <-. repeat split; assumption.
  - injection Hstep as <-. repeat split; assumption.
  - injection Hstep as <-. unfold records_ok, run_segment, handleGenerate.
    destruct (negb _); simpl.
    + rewrite app_nil_r. repeat split; assumption.
    + repeat split; try assumption.
      apply Forall_app. split; [assumption|]. repeat constructor.
  - injection Hstep as <-. unfold records_ok, run_segment, handleRetry.
    destruct (bool_decide _); simpl.
    + rewrite app_nil_r. repeat split; assumption.
    + repeat split; try assumption.
      apply Forall_app. split; [assumption|]. repeat constructor.
  - injection Hstep as <-. unfold records_ok, run_segment. simpl.
    rewrite app_nil_r. repeat split; try assumption.
    + unfold remove_by_id. apply Forall_forall. intros y Hy.
      apply list_elem_of_In, filter_In in Hy.
      rewrite Forall_forall in Hb. apply Hb, list_elem_of_In, Hy.
    + unfold remove_by_id. apply Forall_forall. intros y Hy.
      apply list_elem_of_In, filter_In in Hy.
      rewrite Forall_forall in Hh. apply Hh, list_elem_of_In, Hy.
  - injection Hstep as <-. unfold records_ok, run_segment.
    cbn [app pending fst snd option_to_list]. rewrite app_nil_r.
    simpl in Hoff.
    assert (Hitem : P item).
    { rewrite Forall_forall in Hh. apply Hh, Hoff. }
    destruct (apply_updates_records
                (handleSelectHistoryItem (app m) item) (app m) Hb Hh)
      as [Hb' Hh'].
    { intros u Hu. unfold handleSelectHistoryItem in Hu.
      apply elem_of_cons in Hu as [->|Hu]; [repeat constructor; exact Hitem|].
      repeat (match type of Hu with
              | context [match ?c with _ => _ end] => destruct c
              end);
        apply list_elem_of_singleton in Hu as ->; simpl;
        try (repeat constructor; exact Hitem).
      rewrite sort_perm, Forall_forall. intros y Hy.
      apply list_elem_of_In, in_rev, filter_In in Hy.
      rewrite Forall_forall in Hh. apply Hh, list_elem_of_In, Hy. }
    repeat split; assumption.
  - destruct (pending m !! k) as [t|] eqn:Hk; [|discriminate].
    destruct (resume t s now) as [seg|] eqn:Hres; [|discriminate].
    injection Hstep as <-. unfold records_ok. simpl.
    assert (Ht : Forall P (task_records t)).
    { rewrite Forall_forall in Hp. apply Hp.
      apply list_elem_of_lookup. eauto. }
    destruct (resume_records _ _ _ _ Hres Ht) as [Hu Hn].
    destruct (apply_updates_records (fst seg) (app m) Hb Hh Hu) as [Hb' Hh'].
    repeat split; try assumption.
    rewrite !Forall_app. repeat split.
    + apply Forall_take. exact Hp.
    + destruct (snd seg) as [t'|]; simpl; [|constructor].
      constructor; [apply Hn; reflexivity | constructor].
    + apply Forall_drop. exact Hp.
Qed.

End RecordInvariant.

(** *** The image payload *)

Lemma truthy_nonempty s : Js.truthy s = true <-> s <> "".
Proof.
  unfold Js.truthy. rewrite negb_true_iff. apply String.eqb_neq.
Qed.

Lemma generateImage_nonempty o url : generateImage o = Ok url -> url <> "".
Proof.
  unfold generateImage. destruct o as [|response]; simpl; [discriminate|].
  destruct (extract_image response) as [imageUrl|msg]; simpl; [|discriminate].
  destruct (Js.truthy imageUrl) eqn:Ht; simpl; [|discriminate].
  intros Heq. injection Heq as <-. apply truthy_nonempty, Ht.
Qed.

Lemma payload_ok_newImage ctx i scene o url now :
  generateImage o = Ok url -> payload_ok (newImage ctx i scene url now).
Proof.
  intros Hgen. unfold payload_ok. simpl. split; [reflexivity|].
  intros _. eapply generateImage_nonempty, Hgen.
Qed.

Lemma payload_ok_failedImage ctx i scene suggested now :
  payload_ok (failedImage ctx i scene suggested now).
Proof. unfold payload_ok. simpl. split; [congruence | discriminate]. Qed.

Lemma payload_ok_successItem item o url prompt now :
  generateImage o = Ok url -> payload_ok (successItem item url prompt now).
Proof.
  intros Hgen. unfold payload_ok. simpl. split; [reflexivity|].
  intros _. eapply generateImage_nonempty, Hgen.
Qed.

(** C5. The renderer never returns an empty payload (it throws instead);
    every record that a generation or a retry carries into the live batch
    view or the history, through any of its state updates, has a non-empty
    image payload if and only if its status is [success]; and every step
    of the event loop keeps this true of all records on display, stored,
    or under construction. *)
Theorem image_present_iff_success :
  (forall o url, generateImage o = Ok url -> url <> "")
  /\ (forall W fuel st,
        Forall payload_ok (emitted (log (startGeneration W fuel st))))
  /\ (forall W st item useSuggestion,
        Forall payload_ok (emitted (log (retry W st item useSuggestion))))
  /\ (forall m e m',
        records_ok payload_ok m -> offered m e -> step m e = Some m' ->
        records_ok payload_ok m').
Proof.
  split; [exact generateImage_nonempty|].
  split; [|split].
  - intros W fuel st.
    apply startGeneration_emitted;
      [ exact payload_ok_newImage | exact payload_ok_failedImage
      | exact payload_ok_successItem ].
  - intros W st item useSuggestion.
    apply retry_emitted with (P := payload_ok). exact payload_ok_successItem.
  - intros m e m'.
    apply step_records_ok;
      [ exact payload_ok_newImage | exact payload_ok_failedImage
      | exact payload_ok_successItem ].
Qed.

(** *** The choice of the retry prompt *)

(** C9. On a record without a suggestion, a retry asked to use the
    suggestion is the same as one asked not to: the click does the same, the
    render call is issued with the record's [refinedPrompt], and the whole
    retry has the same outcome in the same world. *)
Theorem retry_without_suggestion_ignores_flag st item :
  suggestedPrompt item = None ->
  handleRetry st item true = handleRetry st item false
  /\ (forall useSuggestion,
        promptToUse item useSuggestion = refinedPrompt item)
  /\ (id item ∉ retryingIds st ->
      snd (handleRetry st item true)
      = Some (RetryAwaitImage item (refinedPrompt item)))
  /\ (forall W, retry W st item true = retry W st item false).
Proof.
  intros Hnone.
  assert (Hprompt : forall b, promptToUse item b = refinedPrompt item).
  { intros b. unfold promptToUse. rewrite Hnone. reflexivity. }
  assert (Hsame : handleRetry st item true = handleRetry st item false).
  { unfold handleRetry. rewrite !Hprompt. reflexivity. }
  split; [exact Hsame|]. split; [exact Hprompt|]. split.
  - intros Hfree. unfold handleRetry.
    rewrite bool_decide_eq_false_2 by exact Hfree. rewrite Hprompt.
    reflexivity.
  - intros W. unfold retry. rewrite Hsame. reflexivity.
Qed.

(** *** The fallback of the analysis *)

(** The analysis yields the one-scene fallback when the provider call
    fails, when the response has no text or an empty text, when the text
    does not parse, and when it parses to something that is neither an array
    nor an object. *)
Lemma analyzeScript_fallback reply userInput :
  (reply = Rejected
   \/ (exists response, reply = Resolved response
        /\ (text response = None
            \/ text response = Some ""
            \/ exists t, text response = Some t
                 /\ (JSON_parse (cleanJson t) = None
                     \/ JSON_parse (cleanJson t) = Some JOther)))) ->
  analyzeScript reply userInput = [Some (fallback_scene userInput)].
Proof.
  unfold analyzeScript, analyzeScript_try.
  intros [->|(response & -> & Hr)]; [reflexivity|]. simpl.
  destruct Hr as [->|[->|(t & -> & Hp)]]; [reflexivity|reflexivity|].
  destruct (Js.truthy t); [|reflexivity].
  destruct Hp as [->| ->]; reflexivity.
Qed.

(** C7, at the input where the claim fails: the provider answers the
    empty JSON array.  The text is not empty and parses to an array, so
    [analyzeScript] returns it as it is, an empty scene list, and not the
    one-scene fallback; a batch started on it renders nothing and ends in
    phase [success] with an empty live batch view. *)
Theorem analyzeScript_empty_array_is_not_replaced W st fuel :
  JSON_parse "[]" = Some (JArray []) ->
  analysis_reply W = Resolved (mkTextResponse (Some "[]")) ->
  Js.truthy (Js.trim (inputText st)) = true ->
  1 <= fuel ->
  analyzeScript (analysis_reply W) (inputText st) = []
  /\ currentBatch (final (startGeneration W fuel st)) = []
  /\ render_calls (log (startGeneration W fuel st)) = []
  /\ ls_status (loadingState (final (startGeneration W fuel st)))
     = LoadingStatus.success.
Proof.
  intros Hparse Hreply Hin Hfuel.
  assert (Hnil : analyzed W st = []).
  { unfold analyzed, analyzeScript, analyzeScript_try. rewrite Hreply. simpl.
    change (cleanJson "[]") with "[]". rewrite Hparse. reflexivity. }
  split; [exact Hnil|].
  rewrite (startGeneration_runs W st fuel Hin)
    by (rewrite Hnil; unfold enough_fuel; simpl; lia).
  unfold batch_results, batch_log, handleGenerate.
  rewrite Hin, Hnil. simpl. repeat split.
Qed.

(** *** The in-flight guard of retries *)

Lemma apply_updates_retryingIds us :
  forall st,
    Forall (fun u => touches_retrying u = false) us ->
    retryingIds (apply_updates us st) = retryingIds st.
Proof.
  induction us as [|u us IH]; intros st Hus; [reflexivity|].
  inversion Hus as [|? ? Hu Hrest]; subst. simpl. rewrite IH by exact Hrest.
  destruct u; simpl in *; try reflexivity; discriminate.
Qed.

Lemma loop_body_retrying ctx scenes i scene tempBatch :
  Forall (fun u => touches_retrying u = false)
    (fst (loop_body ctx scenes i scene tempBatch))
  /\ forall t, snd (loop_body ctx scenes i scene tempBatch) = Some t ->
              retry_target t = None.
Proof.
  unfold loop_body, scene_start, outer_catch.
  destruct scene; simpl; split;
    repeat constructor; intros t Ht; try discriminate;
    injection Ht as <-; reflexivity.
Qed.

Lemma loop_test_retrying ctx scenes i tempBatch :
  Forall (fun u => touches_retrying u = false)
    (fst (loop_test ctx scenes i tempBatch))
  /\ forall t, snd (loop_test ctx scenes i tempBatch) = Some t ->
              retry_target t = None.
Proof.
  unfold loop_test.
  destruct (scenes !! i) as [scene|]; [destruct (0 <? i)%nat|];
    [|apply loop_body_retrying|]; simpl; split;
    repeat constructor; intros t Ht; try discriminate;
    injection Ht as <-; reflexivity.
Qed.

(** A generation that resumes leaves [retryingIds] alone and stays a
    generation. *)
Lemma resume_generation t s now seg :
  retry_target t = None ->
  resume t s now = Some seg ->
  Forall (fun u => touches_retrying u = false) (fst seg)
  /\ forall t', snd seg = Some t' -> retry_target t' = None.
Proof.
  intros Ht Hres.
  destruct t, s; simpl in Hres; try discriminate; simpl in Ht;
    try discriminate.
  - injection Hres as <-.
    destruct (loop_test_retrying ctx (analyzeScript o (g_inputText ctx)) 0 [])
      as [Hu Hn].
    split; [|exact Hn]. simpl. repeat constructor. exact Hu.
  - injection Hres as <-. apply loop_body_retrying.
  - destruct (generateImage o) as [url|msg]; injection Hres as <-.
    + destruct (loop_test_retrying ctx scenes (i + 1)
                  (tempBatch ++ [newImage ctx i scene url now])) as [Hu Hn].
      split; [|exact Hn]. simpl. repeat constructor. exact Hu.
    + split; [constructor|].
      simpl. intros t' Ht'. injection Ht' as <-. reflexivity.
  - injection Hres as <-.
    destruct (loop_test_retrying ctx scenes (i + 1)
                (tempBatch
                 ++ [failedImage ctx i scene
                       (Some (getPromptFix o (english_prompt scene))) now]))
      as [Hu Hn].
    split; [|exact Hn]. simpl. repeat constructor. exact Hu.
Qed.

(** A retry that resumes ends, and its last update removes the flag. *)
Lemma resume_retry item prompt s now seg st :
  resume (RetryAwaitImage item prompt) s now = Some seg ->
  snd seg = None
  /\ retryingIds (apply_updates (fst seg) st) = retryingIds st ∖ {[id item]}.
Proof.
  intros Hres. destruct s; simpl in Hres; try discriminate.
  destruct (generateImage o); injection Hres as <-; split; reflexivity.
Qed.

Lemma step_in_flight_ok m e m' :
  in_flight_ok m -> step m e = Some m' -> in_flight_ok m'.
Proof.
  intros [Hnd Hiff] Hstep. destruct e; simpl in Hstep.
  - injection Hstep as <-. split; assumption.
  - injection Hstep as <-. split; assumption.
  - injection Hstep as <-. unfold in_flight_ok, retries_in_flight, run_segment,
      handleGenerate.
    destruct (negb _); simpl.
    + rewrite app_nil_r. split; assumption.
    + rewrite omap_app. simpl. rewrite app_nil_r. split; assumption.
  - injection Hstep as <-. unfold in_flight_ok, retries_in_flight, run_segment,
      handleRetry.
    destruct (bool_decide (id item ∈ retryingIds (app m))) eqn:Hin; simpl.
    + rewrite app_nil_r. split; assumption.
    + apply bool_decide_eq_false in Hin.
      rewrite omap_app. simpl. split.
      * apply NoDup_app. split; [exact Hnd|]. split.
        -- intros x Hx Hx'. apply list_elem_of_singleton in Hx' as ->.
           apply Hin, Hiff, Hx.
        -- apply NoDup_singleton.
      * intros x. rewrite elem_of_union, elem_of_singleton, elem_of_app,
          list_elem_of_singleton, Hiff. tauto.
  - injection Hstep as <-. unfold in_flight_ok, retries_in_flight, run_segment.
    simpl. rewrite app_nil_r. split; assumption.
  - injection Hstep as <-. unfold in_flight_ok, retries_in_flight, run_segment.
    cbn [app pending fst snd option_to_list]. rewrite app_nil_r.
    rewrite apply_updates_retryingIds; [split; assumption|].
    unfold handleSelectHistoryItem. constructor; [reflexivity|].
    repeat (match goal with
            | |- context [match ?c with _ => _ end] => destruct c
            end); repeat constructor.
  - destruct (pending m !! k) as [t|] eqn:Hk; [|discriminate].
    destruct (resume t s now) as [seg|] eqn:Hres; [|discriminate].
    injection Hstep as <-.
    unfold in_flight_ok, retries_in_flight in *. simpl.
    rewrite <- (take_drop_middle (pending m) k t Hk) in Hnd, Hiff.
    rewrite omap_app in Hnd, Hiff. simpl in Hnd, Hiff.
    rewrite !omap_app.
    destruct (retry_target t) as [x0|] eqn:Ht.
    + destruct t; try discriminate. simpl in Ht. injection Ht as <-.
      destruct (resume_retry _ _ _ _ _ (app m) Hres) as [Hn Hset].
      rewrite Hn, Hset. simpl.
      apply NoDup_app in Hnd. destruct Hnd as (HA & Hdis & HB).
      apply NoDup_cons in HB. destruct HB as [HidB HB].
      assert (HidA : id item ∉ omap retry_target (take k (pending m))).
      { intros Hx. apply (Hdis _ Hx). left. }
      split.
      * apply NoDup_app. split; [exact HA|]. split; [|exact HB].
        intros x Hx Hx'. apply (Hdis _ Hx). right. exact Hx'.
      * intros x. rewrite elem_of_difference, elem_of_singleton, Hiff,
          !elem_of_app, elem_of_cons.
        split.
        -- intros [[?|[?|?]] Hne]; tauto.
        -- intros [Hx|Hx]; (split; [tauto|]); intros ->; tauto.
    + destruct (resume_generation _ _ _ _ Ht Hres) as [Hu Hn].
      rewrite apply_updates_retryingIds by exact Hu.
      assert (Hnext : omap retry_target (option_to_list (snd seg)) = []).
      { destruct (snd seg) as [t'|]; [|reflexivity].
        simpl. rewrite (Hn t' eq_refl). reflexivity. }
      rewrite Hnext. simpl. split; assumption.
Qed.

Lemma steps_offered_reachable saved es :
  forall m m',
    reachable saved m -> steps_offered m es = Some m' -> reachable saved m'.
Proof.
  induction es as [|e es IH]; intros m m' Hm Hrun; simpl in Hrun.
  - injection Hrun as <-. exact Hm.
  - destruct (bool_decide (offered m e)); [|discriminate].
    destruct (step m e) as [m1|] eqn:Hstep; [|discriminate].
    eapply IH; [|exact Hrun]. eapply reachable_step; eassumption.
Qed.

Lemma reachable_in_flight_ok saved m : reachable saved m -> in_flight_ok m.
Proof.
  induction 1 as [|m e m' _ IH Hstep].
  - split; [constructor|]. intros x. simpl. set_solver.
  - eapply step_in_flight_ok; eassumption.
Qed.

(** C8. A retry request for an id whose retry is in flight changes
    nothing: the state and the suspended calls are as before, so no render
    call is issued.  In every state the event loop can reach, no id has more
    than one retry in flight, and [retryingIds] holds exactly the ids that
    have one.  When the render call of a retry settles, with an image or
    with a failure, the retry finishes, the flag of its id is cleared, and a
    new retry request for that id issues a render call again. *)
Theorem retry_guard_one_in_flight_per_id :
  (forall m item useSuggestion,
     id item ∈ retryingIds (app m) ->
     step m (Click_retry item useSuggestion) = Some m)
  /\ (forall saved m, reachable saved m -> in_flight_ok m)
  /\ (forall m k item prompt o now,
        pending m !! k = Some (RetryAwaitImage item prompt) ->
        exists m',
          step m (Settle k (ImageReply o) now) = Some m'
          /\ pending m' = take k (pending m) ++ drop (S k) (pending m)
          /\ (id item ∉ retryingIds (app m'))
          /\ (forall useSuggestion,
                exists p,
                  handleRetry (app m') item useSuggestion
                  = ([setRetryingIds_add (id item)],
                     Some (RetryAwaitImage item p)))).
Proof.
  split; [|split].
  - intros m item useSuggestion Hin. simpl. unfold handleRetry, run_segment.
    rewrite bool_decide_eq_true_2 by exact Hin. simpl.
    rewrite app_nil_r. destruct m; reflexivity.
  - exact reachable_in_flight_ok.
  - intros m k item prompt o now Hk. simpl. rewrite Hk. simpl.
    destruct (generateImage o) as [url|msg] eqn:Hgen;
      (eexists; split; [reflexivity|]; simpl;
       split; [reflexivity|];
       assert (Hfree : forall X : gset string, id item ∉ X ∖ {[id item]})
         by (intros X; rewrite elem_of_difference, elem_of_singleton; tauto);
       split; [apply Hfree|];
       intros useSuggestion; unfold handleRetry; simpl;
       rewrite bool_decide_eq_false_2 by apply Hfree;
       eexists; reflexivity).
Qed.

(** *** Retry *)

Lemma replace_by_id_ids target x l :
  id x = target -> List.map id (replace_by_id target x l) = List.map id l.
Proof.
  intros Hx. unfold replace_by_id. rewrite List.map_map.
  apply List.map_ext_in. intros y _.
  destruct (String.eqb (id y) target) eqn:Hy; [|reflexivity].
  apply String.eqb_eq in Hy. congruence.
Qed.

Lemma replace_by_id_hit target x l y :
  id x = target -> y ∈ replace_by_id target x l -> id y = target -> y = x.
Proof.
  intros Hx Hy Hid. unfold replace_by_id in Hy.
  apply list_elem_of_In, in_map_iff in Hy. destruct Hy as (z & Hz & _).
  destruct (String.eqb (id z) target) eqn:Hzt; [congruence|].
  apply String.eqb_neq in Hzt. congruence.
Qed.

Lemma with_id_absent target l :
  target ∉ List.map id l -> with_id target l = [].
Proof.
  induction l as [|y l IH]; intros Habs; [reflexivity|].
  unfold with_id in *. simpl.
  destruct (String.eqb (id y) target) eqn:Hy.
  - apply String.eqb_eq in Hy. exfalso. apply Habs. simpl. rewrite Hy. left.
  - apply IH. intros Hin. apply Habs. simpl. right. exact Hin.
Qed.

(** C3, as the code has it. A successful retry of a record that has no
    retry in flight issues one render call with the selected prompt and
    builds the updated record: same id, [status = success], the image
    returned, [refinedPrompt] the prompt used, a fresh timestamp.  In the
    live batch view every record with that id is replaced by it, in place
    (the sequence of ids is unchanged).  The updated record is prepended to
    the history whether or not the history holds a record with that id:
    the history then has one more record with that id than before, hence
    exactly one when it held none. *)
Theorem retry_success_replaces_in_view_and_prepends_to_history
    W st item useSuggestion url :
  id item ∉ retryingIds st ->
  generateImage (retry_reply W) = Ok url ->
  let r := retry W st item useSuggestion in
  let x := successItem item url (promptToUse item useSuggestion) (retry_time W) in
  unfinished r = None
  /\ render_calls (log r) = [(promptToUse item useSuggestion, aspectRatio item)]
  /\ (id x = id item /\ status x = ImageStatus.success /\ imageUrl x = url
      /\ url <> ""
      /\ refinedPrompt x = promptToUse item useSuggestion
      /\ timestamp x = retry_time W)
  /\ currentBatch (final r) = replace_by_id (id item) x (currentBatch st)
  /\ List.map id (currentBatch (final r)) = List.map id (currentBatch st)
  /\ (forall y, y ∈ currentBatch (final r) -> id y = id item -> y = x)
  /\ history (final r) = x :: history st
  /\ length (with_id (id item) (history (final r)))
     = S (length (with_id (id item) (history st)))
  /\ (id item ∉ List.map id (history st) ->
      with_id (id item) (history (final r)) = [x]).
Proof.
  intros Hfree Hgen r x. subst r x.
  unfold retry, run_from_click, handleRetry.
  rewrite bool_decide_eq_false_2 by exact Hfree. simpl. rewrite Hgen. simpl.
  split; [reflexivity|]. split; [reflexivity|].
  split.
  { repeat split. eapply generateImage_nonempty, Hgen. }
  split; [reflexivity|].
  split; [apply replace_by_id_ids; reflexivity|].
  split.
  { intros y Hy Hid. eapply replace_by_id_hit; [|exact Hy|exact Hid].
    reflexivity. }
  split; [reflexivity|].
  unfold with_id. simpl. rewrite String.eqb_refl. simpl.
  split; [reflexivity|].
  intros Habs. f_equal. apply with_id_absent, Habs.
Qed.

(** *** Suggestions *)

Lemma suggestion_ok_newImage ctx i scene o url now :
  generateImage o = Ok url -> suggestion_ok (newImage ctx i scene url now).
Proof. intros _. unfold suggestion_ok. simpl. discriminate. Qed.

Lemma suggestion_ok_failedImage ctx i scene suggested now :
  suggestion_ok (failedImage ctx i scene suggested now).
Proof.
  unfold suggestion_ok. simpl. intros _.
  destruct suggested as [s|]; [|discriminate].
  destruct (Js.truthy s); simpl; [|discriminate].
  destruct (String.eqb s (english_prompt scene)) eqn:Hs; simpl; [discriminate|].
  apply String.eqb_neq in Hs. congruence.
Qed.

Lemma suggestion_ok_successItem item o url prompt now :
  generateImage o = Ok url -> suggestion_ok (successItem item url prompt now).
Proof. intros _. unfold suggestion_ok. simpl. discriminate. Qed.

(** C6, as the code has it. On every failed record a present suggestion
    differs from [refinedPrompt]: this holds of every record a generation
    carries into the state, and every step of the event loop keeps it true
    of all records on display, stored, or under construction.  A successful
    retry that used the suggestion yields a success record that keeps the
    suggestion, which is then equal to its [refinedPrompt]. *)
Theorem failed_suggestion_differs_from_prompt :
  (forall W fuel st,
     Forall suggestion_ok (emitted (log (startGeneration W fuel st))))
  /\ (forall m e m',
        records_ok suggestion_ok m -> offered m e -> step m e = Some m' ->
        records_ok suggestion_ok m')
  /\ (forall W st item suggested url,
        id item ∉ retryingIds st ->
        suggestedPrompt item = Some suggested ->
        Js.truthy suggested = true ->
        generateImage (retry_reply W) = Ok url ->
        let x := successItem item url suggested (retry_time W) in
        history (final (retry W st item true)) = x :: history st
        /\ currentBatch (final (retry W st item true))
           = replace_by_id (id item) x (currentBatch st)
        /\ status x = ImageStatus.success
        /\ suggestedPrompt x = Some (refinedPrompt x)).
Proof.
  split; [|split].
  - intros W fuel st.
    apply startGeneration_emitted;
      [ exact suggestion_ok_newImage | exact suggestion_ok_failedImage
      | exact suggestion_ok_successItem ].
  - intros m e m'.
    apply step_records_ok;
      [ exact suggestion_ok_newImage | exact suggestion_ok_failedImage
      | exact suggestion_ok_successItem ].
  - intros W st item suggested url Hfree Hsug Htruthy Hgen x. subst x.
    unfold retry, run_from_click, handleRetry, promptToUse.
    rewrite bool_decide_eq_false_2 by exact Hfree.
    rewrite Hsug, Htruthy. simpl. rewrite Hgen. simpl.
    repeat split. exact Hsug.
Qed.

End Properties.


(* ===================================================================== *)
(** * The properties on the concrete worlds *)
(* ===================================================================== *)

Import Scenario.

(** C2, at an input where the claim fails: the history left by a batch of
    eleven scenes, all rendered.  The live batch view of that batch lists
    the scenes in order; reconstructed from the history, whichever record
    is selected, the view lists the ids in the order of their text, so the
    record of scene index 10 comes third, before the one of index 2.  With
    ten scenes the two orders agree. *)
Theorem selectBatch_sorts_ids_as_text :
  List.map id (currentBatch after_eleven)
  = List.map (scene_id "1700000000000") (List.seq 0 11)
  /\ List.map id (history after_eleven)
     = List.rev (List.map (scene_id "1700000000000") (List.seq 0 11))
  /\ List.map (selected_ids after_eleven) (history after_eleven)
     = List.repeat
         (List.map (scene_id "1700000000000")
            [0; 1; 10; 2; 3; 4; 5; 6; 7; 8; 9])
         11
  /\ List.map (selected_ids after_ten) (history after_ten)
     = List.repeat
         (List.map (scene_id "1700000000000") (List.seq 0 10)) 10.
Proof.
  split; [vm_compute; reflexivity|]. split; [vm_compute; reflexivity|].
  split; vm_compute; reflexivity.
Qed.

(** C6, where the claim fails. A batch of two scenes whose first render
    is refused gets a failed card with a suggestion; the user accepts the
    suggestion and the retry succeeds.  The record then on display has
    [status = success] and still carries the suggestion, which is the
    prompt it was rendered with: [suggestedPrompt] equals [refinedPrompt]. *)
Lemma successful_retry_with_suggestion_keeps_it :
  steps_offered (H := example_host) mounted accept_suggestion
  = Some after_accept_suggestion
  /\ List.map
       (fun x => (id x, status x, suggestedPrompt x, refinedPrompt x))
       (currentBatch (app after_accept_suggestion))
     = [ ("1700000000000_0", ImageStatus.success,
          Some "A scholar walks out of a quiet village",
          "A scholar walks out of a quiet village") ]
  /\ ~ Forall suggestion_differs (currentBatch (app after_accept_suggestion)).
Proof.
  split; [vm_compute; reflexivity|]. split; [vm_compute; reflexivity|].
  intros Hall.
  assert (Hb : exists x,
             currentBatch (app after_accept_suggestion) = [x]
             /\ suggestedPrompt x = Some (refinedPrompt x)).
  { vm_compute. eexists. split; reflexivity. }
  destruct Hb as (x & Hb & Hx). rewrite Hb in Hall.
  inversion Hall as [|? ? Hd _]; subst. exact (Hd _ Hx eq_refl).
Qed.

(** C3, where the claim fails. A batch of two scenes whose first render
    is refused; the user retries the first scene while the second is still
    to come, and the retry succeeds and is stored.  When the second scene
    arrives the handler writes its own batch to the view, with the first
    scene as it failed; the user retries it again, and the second
    successful retry is stored too: the history holds two records with the
    id of the first scene. *)
Lemma second_retry_stores_a_second_record :
  steps_offered (H := example_host) mounted retry_twice
  = Some after_retry_twice
  /\ List.map (fun x => (id x, status x, timestamp x))
       (history (app after_retry_twice))
     = [ ("1700000000000_0", ImageStatus.success, 1700000020000%Z);
         ("1700000000000_1", ImageStatus.success, 1700000010000%Z);
         ("1700000000000_0", ImageStatus.success, 1700000006000%Z) ]
  /\ length (with_id "1700000000000_0" (history (app after_retry_twice))) = 2
  /\ ~ NoDup (List.map id (history (app after_retry_twice))).
Proof.
  split; [vm_compute; reflexivity|]. split; [vm_compute; reflexivity|].
  split; [vm_compute; reflexivity|].
  assert (Hids : List.map id (history (app after_retry_twice))
                 = [ "1700000000000_0"; "1700000000000_1"; "1700000000000_0" ])
    by (vm_compute; reflexivity).
  rewrite Hids. intros Hnd. apply NoDup_cons in Hnd. destruct Hnd as [Hnot _].
  apply Hnot. right. left.
Qed.

(** C1, where the claim fails.  The analysis returns the array whose one
    element is [null].  The scene list has one element; reading its summary
    throws, the outer [catch] runs, and the batch ends in phase [error],
    with the message of the engine shown, without a render call and without
    a record: the live batch view does not hold one result per scene. *)
Lemma null_scene_ends_the_batch_without_a_result :
  Js.truthy (Js.trim (inputText typed)) = true
  /\ analyzed (H := example_host) world_null typed = [None]
  /\ unfinished (startGeneration (H := example_host) world_null 4 typed) = None
  /\ ls_status
       (loadingState (final (startGeneration (H := example_host) world_null 4 typed)))
     = LoadingStatus.error
  /\ errorMsg (final (startGeneration (H := example_host) world_null 4 typed))
     = Some "Cannot read properties of null (reading 'korean_summary')"
  /\ render_calls (log (startGeneration (H := example_host) world_null 4 typed))
     = []
  /\ currentBatch (final (startGeneration (H := example_host) world_null 4 typed))
     = []
  /\ length
       (currentBatch (final (startGeneration (H := example_host) world_null 4 typed)))
     <> length (analyzed (H := example_host) world_null typed).
Proof.
  split; [reflexivity|]. split; [vm_compute; reflexivity|].
  split; [vm_compute; reflexivity|]. split; [vm_compute; reflexivity|].
  split; [vm_compute; reflexivity|]. split; [vm_compute; reflexivity|].
  split; [vm_compute; reflexivity|]. vm_compute. discriminate.
Qed.

(** C4, where the claim fails.  The analysis returns a scene followed by
    [null], and the renderer delivers whatever it is asked for.  The batch
    has N = 2 scenes; it renders the first, stores it, and ends at the
    second: the live batch view shows one record, not N. *)
Lemma halted_batch_shows_fewer_records_than_scenes :
  Js.truthy (Js.trim (inputText typed)) = true
  /\ analyzed (H := example_host) world_scene_then_null typed
     = [Some first_scene; None]
  /\ unfinished
       (startGeneration (H := example_host) world_scene_then_null 7 typed)
     = None
  /\ List.map status
       (currentBatch
          (final (startGeneration (H := example_host) world_scene_then_null 7
                    typed)))
     = [ImageStatus.success]
  /\ List.map id
       (history
          (final (startGeneration (H := example_host) world_scene_then_null 7
                    typed)))
     = ["1700000000000_0"]
  /\ length
       (currentBatch
          (final (startGeneration (H := example_host) world_scene_then_null 7
                    typed)))
     <> length (analyzed (H := example_host) world_scene_then_null typed).
Proof.
  split; [reflexivity|]. split; [vm_compute; reflexivity|].
  split; [vm_compute; reflexivity|]. split; [vm_compute; reflexivity|].
  split; [vm_compute; reflexivity|]. vm_compute. discriminate.
Qed.

(** *** The general theorems at concrete inputs *)

Lemma startGeneration_attempts_every_scene_in_order_witness :
  Js.truthy (Js.trim (inputText typed)) = true
  /\ enough_fuel (analyzed (H := example_host) world_two typed) <= 7
  /\ has_null (analyzed (H := example_host) world_two typed) = false
  /\ unfinished (startGeneration (H := example_host) world_two 7 typed) = None
  /\ ls_status
       (loadingState (final (startGeneration (H := example_host) world_two 7 typed)))
     = LoadingStatus.success
  /\ List.map id
       (currentBatch (final (startGeneration (H := example_host) world_two 7 typed)))
     = List.map (scene_id "1700000000000") [0; 1]
  /\ render_calls (log (startGeneration (H := example_host) world_two 7 typed))
     = List.map (fun s => (english_prompt s, "16:9")) two_scenes
  /\ progress_indices (log (startGeneration (H := example_host) world_two 7 typed))
     = [0; 1; 2].
Proof.
  assert (Hin : Js.truthy (Js.trim (inputText typed)) = true) by reflexivity.
  assert (Hfuel : enough_fuel (analyzed (H := example_host) world_two typed) <= 7)
    by (vm_compute; lia).
  assert (Hfull : has_null (analyzed (H := example_host) world_two typed) = false)
    by (vm_compute; reflexivity).
  destruct (startGeneration_attempts_every_scene_in_order
              (H := example_host) world_two typed 7 Hin Hfuel)
    as (H1 & H2 & _ & _ & _ & H6 & _ & H8 & H9).
  destruct (H2 Hfull) as (_ & _ & Hphase).
  split; [exact Hin|]. split; [exact Hfuel|]. split; [exact Hfull|].
  split; [exact H1|]. split; [exact Hphase|].
  split; [exact H6|]. split; [exact H8|]. exact H9.
Defined.

Lemma failed_results_are_not_stored_witness :
  Js.truthy (Js.trim (inputText typed)) = true
  /\ enough_fuel (analyzed (H := example_host) world_two typed) <= 7
  /\ length (currentBatch (final (startGeneration (H := example_host) world_two 7 typed)))
     = 2
  /\ length (history (final (startGeneration (H := example_host) world_two 7 typed)))
     = 1 + length (history typed).
Proof.
  assert (Hin : Js.truthy (Js.trim (inputText typed)) = true) by reflexivity.
  assert (Hfuel : enough_fuel (analyzed (H := example_host) world_two typed) <= 7)
    by (vm_compute; lia).
  destruct (failed_results_are_not_stored
              (H := example_host) world_two typed 7 Hin Hfuel)
    as (H1 & _ & _ & _ & H5 & _).
  split; [exact Hin|]. split; [exact Hfuel|]. split; [exact H1|]. exact H5.
Defined.

Lemma startGeneration_clears_batch_once_after_analysis_witness :
  Js.truthy (Js.trim (inputText Cases.after_two)) = true
  /\ enough_fuel (analyzed (H := example_host) world_two Cases.after_two) <= 7
  /\ List.map id (currentBatch Cases.after_two)
     = ["1700000000000_0"; "1700000000000_1"]
  /\ currentBatch
       (apply_updates
          (fst (handleGenerate Cases.after_two (click_time world_two)))
          Cases.after_two)
     = currentBatch Cases.after_two
  /\ exists before after,
       log (startGeneration (H := example_host) world_two 7 Cases.after_two)
       = before ++ Applied (setCurrentBatch []) :: after
       /\ Forall (fun view => view = currentBatch Cases.after_two)
            (views_along before Cases.after_two)
       /\ currentBatch
            (replay (before ++ [Applied (setCurrentBatch [])]) Cases.after_two)
          = []
       /\ Forall (fun w => writes_records w = true) (batch_writes after).
Proof.
  assert (Hin : Js.truthy (Js.trim (inputText Cases.after_two)) = true)
    by (vm_compute; reflexivity).
  assert (Hfuel : enough_fuel
                    (analyzed (H := example_host) world_two Cases.after_two)
                  <= 7)
    by (vm_compute; lia).
  destruct (startGeneration_clears_batch_once_after_analysis
              (H := example_host) world_two Cases.after_two 7 Hin Hfuel)
    as (_ & _ & H3 & _ & _ & _
        & before & after & H7 & _ & _ & _ & H10 & H11 & H12).
  split; [exact Hin|]. split; [exact Hfuel|].
  split; [vm_compute; reflexivity|]. split; [exact H3|].
  exists before, after.
  split; [exact H7|]. split; [exact H10|]. split; [exact H11 | exact H12].
Defined.

Lemma analyzeScript_empty_array_is_not_replaced_witness :
  JSON_parse (Host := example_host) "[]" = Some (JArray [])
  /\ analysis_reply world_empty = Resolved (mkTextResponse (Some "[]"))
  /\ Js.truthy (Js.trim (inputText typed)) = true
  /\ 1 <= 1
  /\ analyzeScript (H := example_host) (analysis_reply world_empty)
       (inputText typed) = []
  /\ currentBatch (final (startGeneration (H := example_host) world_empty 1 typed))
     = [].
Proof.
  assert (Hparse : JSON_parse (Host := example_host) "[]" = Some (JArray []))
    by reflexivity.
  assert (Hreply : analysis_reply world_empty
                   = Resolved (mkTextResponse (Some "[]"))) by reflexivity.
  assert (Hin : Js.truthy (Js.trim (inputText typed)) = true) by reflexivity.
  assert (Hfuel : 1 <= 1) by lia.
  destruct (analyzeScript_empty_array_is_not_replaced
              (H := example_host) world_empty typed 1 Hparse Hreply Hin Hfuel)
    as (H1 & H2 & _).
  split; [exact Hparse|]. split; [exact Hreply|]. split; [exact Hin|].
  split; [exact Hfuel|]. split; [exact H1|]. exact H2.
Defined.

Lemma retry_without_suggestion_ignores_flag_witness :
  suggestedPrompt failed_card_plain = None
  /\ handleRetry typed failed_card_plain true
     = handleRetry typed failed_card_plain false
  /\ retry (H := example_host) world_two typed failed_card_plain true
     = retry (H := example_host) world_two typed failed_card_plain false.
Proof.
  assert (Hnone : suggestedPrompt failed_card_plain = None) by reflexivity.
  destruct (retry_without_suggestion_ignores_flag
              (H := example_host) typed failed_card_plain Hnone)
    as (H1 & _ & _ & H4).
  split; [exact Hnone|]. split; [exact H1|]. exact (H4 world_two).
Defined.

Lemma retry_success_replaces_in_view_and_prepends_to_history_witness :
  (id failed_card ∉ retryingIds typed)
  /\ generateImage (retry_reply world_two)
     = Ok "data:image/png;base64,iVBORw0KGgo="
  /\ history (final (retry (H := example_host) world_two typed failed_card true))
     = [ successItem failed_card "data:image/png;base64,iVBORw0KGgo="
           (promptToUse failed_card true) (retry_time world_two) ].
Proof.
  assert (Hfree : id failed_card ∉ retryingIds typed)
    by (simpl; apply not_elem_of_empty).
  assert (Hgen : generateImage (retry_reply world_two)
                 = Ok "data:image/png;base64,iVBORw0KGgo=") by reflexivity.
  destruct (retry_success_replaces_in_view_and_prepends_to_history
              (H := example_host) world_two typed failed_card true
              "data:image/png;base64,iVBORw0KGgo=" Hfree Hgen)
    as (_ & _ & _ & _ & _ & _ & H7 & _).
  split; [exact Hfree|]. split; [exact Hgen|]. exact H7.
Defined.

Lemma image_present_iff_success_witness :
  generateImage image_ok = Ok "data:image/png;base64,iVBORw0KGgo="
  /\ "data:image/png;base64,iVBORw0KGgo=" <> ""
  /\ Forall payload_ok
       (emitted (log (startGeneration (H := example_host) world_two 7 typed)))
  /\ List.map (fun x => (imageUrl x, status x))
       (currentBatch (final (startGeneration (H := example_host) world_two 7 typed)))
     = [ ("", ImageStatus.failed);
         ("data:image/png;base64,iVBORw0KGgo=", ImageStatus.success) ].
Proof.
  assert (Hgen : generateImage image_ok = Ok "data:image/png;base64,iVBORw0KGgo=")
    by reflexivity.
  destruct (image_present_iff_success (H := example_host)) as (H1 & H2 & _).
  split; [exact Hgen|]. split; [exact (H1 _ _ Hgen)|].
  split; [exact (H2 world_two 7 typed)|]. vm_compute. reflexivity.
Defined.

Lemma failed_suggestion_differs_from_prompt_witness :
  (id failed_card ∉ retryingIds typed)
  /\ suggestedPrompt failed_card = Some "A scholar walks out of a quiet village"
  /\ Js.truthy "A scholar walks out of a quiet village" = true
  /\ generateImage (retry_reply world_two)
     = Ok "data:image/png;base64,iVBORw0KGgo="
  /\ Forall suggestion_ok
       (emitted (log (startGeneration (H := example_host) world_two 7 typed)))
  /\ history (final (retry (H := example_host) world_two typed failed_card true))
     = [ successItem failed_card "data:image/png;base64,iVBORw0KGgo="
           "A scholar walks out of a quiet village" (retry_time world_two) ].
Proof.
  assert (Hfree : id failed_card ∉ retryingIds typed)
    by (simpl; apply not_elem_of_empty).
  assert (Hsug : suggestedPrompt failed_card
                 = Some "A scholar walks out of a quiet village") by reflexivity.
  assert (Htruthy : Js.truthy "A scholar walks out of a quiet village" = true)
    by reflexivity.
  assert (Hgen : generateImage (retry_reply world_two)
                 = Ok "data:image/png;base64,iVBORw0KGgo=") by reflexivity.
  destruct (failed_suggestion_differs_from_prompt (H := example_host))
    as (H1 & _ & H3).
  destruct (H3 world_two typed failed_card _ _ Hfree Hsug Htruthy Hgen)
    as (H4 & _).
  split; [exact Hfree|]. split; [exact Hsug|]. split; [exact Htruthy|].
  split; [exact Hgen|]. split; [exact (H1 world_two 7 typed)|]. exact H4.
Defined.

Lemma retry_guard_one_in_flight_per_id_witness :
  pending retry_in_flight !! 1
  = Some (RetryAwaitImage failed_card_plain (refinedPrompt failed_card_plain))
  /\ (id failed_card_plain ∈ retryingIds (app retry_in_flight))
  /\ step (H := example_host) retry_in_flight (Click_retry failed_card_plain true)
     = Some retry_in_flight
  /\ reachable (H := example_host) [] retry_in_flight
  /\ in_flight_ok retry_in_flight
  /\ exists m',
       step (H := example_host) retry_in_flight
         (Settle 1 (ImageReply Rejected) 1700000006000%Z) = Some m'
       /\ (id failed_card_plain ∉ retryingIds (app m')).
Proof.
  assert (Hk : pending retry_in_flight !! 1
               = Some (RetryAwaitImage failed_card_plain
                         (refinedPrompt failed_card_plain)))
    by (vm_compute; reflexivity).
  assert (Hin : id failed_card_plain ∈ retryingIds (app retry_in_flight))
    by (apply (bool_decide_eq_true_1
                 (id failed_card_plain ∈ retryingIds (app retry_in_flight)));
        vm_compute; reflexivity).
  assert (Hreach : reachable (H := example_host) [] retry_in_flight).
  { apply (steps_offered_reachable (H := example_host) []
             (take 6 retry_twice) mounted).
    - apply reachable_init.
    - vm_compute. reflexivity. }
  destruct (retry_guard_one_in_flight_per_id (H := example_host))
    as (H1 & H2 & H3).
  destruct (H3 retry_in_flight 1 failed_card_plain _ Rejected
              1700000006000%Z Hk) as (m' & Hstep & _ & Hclear & _).
  split; [exact Hk|]. split; [exact Hin|].
  split; [exact (H1 retry_in_flight failed_card_plain true Hin)|].
  split; [exact Hreach|]. split; [exact (H2 [] retry_in_flight Hreach)|].
  exists m'. split; [exact Hstep | exact Hclear].
Defined.

(* ===================================================================== *)
(** * Further properties of the handlers *)
(* ===================================================================== *)

(** ** Deleting a record *)

Lemma remove_by_id_elem target l x :
  x ∈ remove_by_id target l <-> x ∈ l /\ id x <> target.
Proof.
  unfold remove_by_id. rewrite !list_elem_of_In, filter_In.
  rewrite negb_true_iff, String.eqb_neq. reflexivity.
Qed.

Lemma remove_by_id_absent target l :
  target ∉ List.map id l -> remove_by_id target l = l.
Proof.
  induction l as [|y l IH]; intros Habs; [reflexivity|].
  unfold remove_by_id in *. simpl.
  destruct (String.eqb (id y) target) eqn:Hy; simpl.
  - apply String.eqb_eq in Hy. exfalso. apply Habs. simpl. rewrite Hy. left.
  - f_equal. apply IH. intros Hin. apply Habs. simpl. right. exact Hin.
Qed.

Lemma remove_by_id_twice target l :
  remove_by_id target (remove_by_id target l) = remove_by_id target l.
Proof.
  apply remove_by_id_absent. intros Hin.
  apply list_elem_of_In, in_map_iff in Hin. destruct Hin as (x & Hid & Hx).
  apply list_elem_of_In, remove_by_id_elem in Hx. tauto.
Qed.

Lemma remove_by_id_comm a b l :
  remove_by_id a (remove_by_id b l) = remove_by_id b (remove_by_id a l).
Proof.
  unfold remove_by_id. induction l as [|y l IH]; [reflexivity|]. simpl.
  destruct (String.eqb (id y) a) eqn:Ha, (String.eqb (id y) b) eqn:Hb; simpl;
    rewrite ?Ha, ?Hb; simpl; rewrite IH; reflexivity.
Qed.

Lemma remove_by_id_sublist target l : remove_by_id target l `sublist_of` l.
Proof.
  unfold remove_by_id. induction l as [|y l IH]; simpl; [constructor|].
  destruct (negb _); [apply sublist_skip | apply sublist_cons]; exact IH.
Qed.

(** X1. [handleDelete] removes from the live batch view and from the
    history every record with the given id and nothing else, keeps the
    remaining records in their order, and touches no other part of the
    state; on an id that occurs in neither list it changes nothing, so
    deleting twice is the same as deleting once, and two deletions can be
    done in either order. *)
Theorem handleDelete_removes_the_id_and_nothing_else target st :
  (forall x, x ∈ currentBatch (after_delete target st)
             <-> x ∈ currentBatch st /\ id x <> target)
  /\ (forall x, x ∈ history (after_delete target st)
                <-> x ∈ history st /\ id x <> target)
  /\ currentBatch (after_delete target st) `sublist_of` currentBatch st
  /\ history (after_delete target st) `sublist_of` history st
  /\ (inputText (after_delete target st) = inputText st
      /\ selectedAspectRatio (after_delete target st) = selectedAspectRatio st
      /\ loadingState (after_delete target st) = loadingState st
      /\ errorMsg (after_delete target st) = errorMsg st
      /\ retryingIds (after_delete target st) = retryingIds st)
  /\ (target ∉ List.map id (currentBatch st) ->
      target ∉ List.map id (history st) ->
      after_delete target st = st)
  /\ after_delete target (after_delete target st) = after_delete target st
  /\ (forall other,
        after_delete target (after_delete other st)
        = after_delete other (after_delete target st)).
Proof.
  unfold after_delete. simpl.
  split; [intros x; apply remove_by_id_elem|].
  split; [intros x; apply remove_by_id_elem|].
  split; [apply remove_by_id_sublist|].
  split; [apply remove_by_id_sublist|].
  split; [repeat split|].
  split.
  { intros Hb Hh. rewrite (remove_by_id_absent _ _ Hb),
      (remove_by_id_absent _ _ Hh). destruct st; reflexivity. }
  split.
  { rewrite !remove_by_id_twice. reflexivity. }
  intros other.
  rewrite (remove_by_id_comm target other (currentBatch st)),
    (remove_by_id_comm target other (history st)). reflexivity.
Qed.

(** ** The ids of a batch *)

Lemma nat_toString_inj n n' : Js.nat_toString n = Js.nat_toString n' -> n = n'.
Proof.
  unfold Js.nat_toString. intros Heq.
  assert (Hnn : forall k, Nat.to_uint k <> Decimal.Nil).
  { intros k. rewrite <- (Unsigned.of_to k) at 1. rewrite Unsigned.to_of.
    apply unorm_nonnil. }
  apply (f_equal NilZero.uint_of_string) in Heq.
  rewrite !NilZero.usu in Heq by apply Hnn.
  injection Heq as Heq. apply Unsigned.to_uint_inj, Heq.
Qed.

Lemma scene_id_inj batch i j : scene_id batch i = scene_id batch j -> i = j.
Proof.
  unfold scene_id. intros Heq.
  apply (inj (String.app batch)) in Heq.
  apply (inj (String.app "_")) in Heq.
  apply nat_toString_inj, Heq.
Qed.

Lemma NoDup_map_injective {A B} (f : A -> B) (l : list A) :
  (forall x y, f x = f y -> x = y) -> NoDup l -> NoDup (List.map f l).
Proof.
  intros Hinj. induction 1 as [|x l Hx _ IH]; simpl; constructor;
    [|exact IH].
  intros Hin. apply list_elem_of_In, in_map_iff in Hin.
  destruct Hin as (y & Hy & Hin). apply Hinj in Hy. subst y.
  apply Hx, list_elem_of_In, Hin.
Qed.

Lemma NoDup_ids_elem (l : list GeneratedImage) x y :
  NoDup (List.map id l) -> x ∈ l -> y ∈ l -> id x = id y -> x = y.
Proof.
  induction l as [|z l IH]; simpl; intros Hnd Hx Hy Hid; [inversion Hx|].
  apply NoDup_cons in Hnd. destruct Hnd as [Hz Hnd].
  assert (Hmem : forall w, w ∈ l -> id w ∈ List.map id l).
  { intros w Hw. apply list_elem_of_In, in_map, list_elem_of_In, Hw. }
  apply elem_of_cons in Hx. apply elem_of_cons in Hy.
  destruct Hx as [->|Hx], Hy as [->|Hy].
  - reflexivity.
  - exfalso. apply Hz. rewrite Hid. apply Hmem, Hy.
  - exfalso. apply Hz. rewrite <- Hid. apply Hmem, Hx.
  - apply IH; assumption.
Qed.

Lemma remove_by_id_one (l : list GeneratedImage) x :
  NoDup (List.map id l) -> x ∈ l ->
  length (remove_by_id (id x) l) = length l - 1.
Proof.
  induction l as [|z l IH]; simpl; intros Hnd Hx; [inversion Hx|].
  apply NoDup_cons in Hnd. destruct Hnd as [Hz Hnd].
  apply elem_of_cons in Hx. destruct Hx as [->|Hx].
  - rewrite String.eqb_refl. simpl.
    fold (remove_by_id (id z) l). rewrite remove_by_id_absent by exact Hz. lia.
  - destruct (String.eqb (id z) (id x)) eqn:Hzx; simpl.
    + apply String.eqb_eq in Hzx. exfalso. apply Hz. rewrite Hzx.
      apply list_elem_of_In, in_map, list_elem_of_In, Hx.
    + fold (remove_by_id (id x) l). rewrite IH by assumption.
      destruct l; [inversion Hx | simpl; lia].
Qed.

Section BatchIds.
Context `{Host}.

(** X2. The records of one batch have pairwise distinct ids, so deleting
    a card of a batch that has ended (in phase [success] or [error]) by its
    id takes exactly that card out of the live batch view: one record fewer
    than the batch left, and every other card still there. *)
Theorem batch_ids_are_distinct_and_delete_removes_one_card W st fuel :
  Js.truthy (Js.trim (inputText st)) = true ->
  enough_fuel (analyzed W st) <= fuel ->
  let st' := final (startGeneration W fuel st) in
  NoDup (List.map id (currentBatch st'))
  /\ forall x,
       x ∈ currentBatch st' ->
       length (currentBatch (after_delete (id x) st'))
       = length (currentBatch st') - 1
       /\ (x ∉ currentBatch (after_delete (id x) st'))
       /\ (forall y, y ∈ currentBatch st' -> y <> x ->
                     y ∈ currentBatch (after_delete (id x) st')).
Proof.
  intros Hin Hfuel st'. subst st'.
  rewrite (startGeneration_runs W st fuel Hin Hfuel). simpl.
  assert (Hnd : NoDup (List.map id (batch_results W st))).
  { unfold batch_results. rewrite results_from_ids.
    apply NoDup_map_injective; [apply scene_id_inj | apply NoDup_seq]. }
  split; [exact Hnd|].
  intros x Hx. unfold after_delete. simpl. split; [|split].
  - rewrite remove_by_id_one by assumption. reflexivity.
  - rewrite remove_by_id_elem. tauto.
  - intros y Hy Hne. apply remove_by_id_elem. split; [exact Hy|].
    intros Hid. apply Hne. eapply NoDup_ids_elem; eassumption.
Qed.

End BatchIds.

(** ** Selecting a record of the history *)

Lemma le_cmp_by_id a b :
  Js.le_cmp (fun a b => Js.localeCompare (id a) (id b)) a b
  = String.leb (id a) (id b).
Proof.
  unfold Js.le_cmp, Js.localeCompare, String.leb.
  destruct (String.compare (id a) (id b)); reflexivity.
Qed.

Lemma insert_sorted_by_id x l :
  Sorted id_le l ->
  Sorted id_le
    (Js.insert_sorted (fun a b => Js.localeCompare (id a) (id b)) x l).
Proof.
  induction 1 as [|y l Hl IH Hhd]; simpl.
  - repeat constructor.
  - rewrite le_cmp_by_id. destruct (String.leb (id x) (id y)) eqn:Hxy.
    + constructor; [constructor; assumption|]. constructor. exact Hxy.
    + assert (Hyx : id_le y x).
      { destruct (String.leb_total (id x) (id y)) as [Hc|Hc];
          [congruence | exact Hc]. }
      constructor; [exact IH|].
      destruct Hhd as [|z l Hyz]; simpl.
      * constructor. exact Hyx.
      * rewrite le_cmp_by_id. destruct (String.leb (id x) (id z));
          constructor; assumption.
Qed.

Lemma sort_by_id_sorted l :
  Sorted id_le (Js.sort (fun a b => Js.localeCompare (id a) (id b)) l).
Proof.
  induction l as [|x l IH]; simpl; [constructor|].
  apply insert_sorted_by_id, IH.
Qed.

Lemma id_le_trans : Transitive id_le.
Proof.
  intros a b c Hab Hbc. unfold id_le in *.
  apply Is_true_true. apply Is_true_true in Hab, Hbc.
  exact (transitivity (R := String.le) Hab Hbc).
Qed.

Lemma sort_already_sorted l :
  Sorted id_le l ->
  Js.sort (fun a b => Js.localeCompare (id a) (id b)) l = l.
Proof.
  induction 1 as [|x l Hl IH Hhd]; simpl; [reflexivity|].
  rewrite IH. destruct Hhd as [|y l Hxy]; simpl; [reflexivity|].
  rewrite le_cmp_by_id. unfold id_le in Hxy. rewrite Hxy. reflexivity.
Qed.

(** X3. [handleSelectHistoryItem] leaves the history and every other part
    of the state but the live batch view as they are.  When the selected
    record has a batch id and the history holds more than one record of
    that batch, the view becomes those records, each exactly as often as
    stored, in non-decreasing order of their id texts; in every other case
    the view is the selected record alone.  The view is never empty. *)
Theorem handleSelectHistoryItem_shows_the_stored_batch_sorted_by_id st item :
  (inputText (after_select st item) = inputText st
   /\ selectedAspectRatio (after_select st item) = selectedAspectRatio st
   /\ loadingState (after_select st item) = loadingState st
   /\ history (after_select st item) = history st
   /\ errorMsg (after_select st item) = errorMsg st
   /\ retryingIds (after_select st item) = retryingIds st)
  /\ (Js.truthy_opt (batchId item) = true ->
      1 < length (siblings_of st item) ->
      currentBatch (after_select st item) ≡ₚ siblings_of st item
      /\ StronglySorted id_le (currentBatch (after_select st item)))
  /\ (Js.truthy_opt (batchId item) = false
      \/ length (siblings_of st item) <= 1 ->
      currentBatch (after_select st item) = [item])
  /\ currentBatch (after_select st item) <> [].
Proof.
  unfold after_select, handleSelectHistoryItem. fold (siblings_of st item).
  assert (Hsorted :
    StronglySorted id_le
      (Js.sort (fun a b => Js.localeCompare (id a) (id b))
         (siblings_of st item))).
  { apply Sorted_StronglySorted; [exact id_le_trans | apply sort_by_id_sorted]. }
  destruct (batchId item) as [b|] eqn:Hb; simpl.
  - destruct (Js.truthy b) eqn:Htb; simpl.
    + destruct (1 <? length (siblings_of st item))%nat eqn:Hlen; simpl.
      * apply Nat.ltb_lt in Hlen.
        split; [repeat split|]. split; [|split].
        -- intros _ _. split; [apply sort_perm | exact Hsorted].
        -- intros [Hf|Hle]; [discriminate | lia].
        -- intros Hnil.
           assert (Hp := sort_perm
                           (fun a b => Js.localeCompare (id a) (id b))
                           (siblings_of st item)).
           rewrite Hnil in Hp. apply Permutation_nil_l in Hp.
           rewrite <- Hp in Hlen. simpl in Hlen. lia.
      * apply Nat.ltb_ge in Hlen.
        split; [repeat split|]. split; [|split].
        -- intros _ Hgt. lia.
        -- intros _. reflexivity.
        -- discriminate.
    + split; [repeat split|]. split; [|split].
      * discriminate.
      * intros _. reflexivity.
      * discriminate.
  - split; [repeat split|]. split; [|split].
    + discriminate.
    + intros _. reflexivity.
    + discriminate.
Qed.

(** ** From a batch to the history and back *)

Lemma Z_toString_truthy z : Js.truthy (Js.Z_toString z) = true.
Proof.
  unfold Js.Z_toString. destruct z as [|p|p]; simpl; try reflexivity;
    destruct (Pos.to_uint p); reflexivity.
Qed.

Lemma compare_common_prefix p a b :
  String.compare (p +:+ a) (p +:+ b) = String.compare a b.
Proof.
  induction p as [|c p IH]; simpl; [reflexivity|].
  unfold Ascii.compare. rewrite N.compare_refl. exact IH.
Qed.

Lemma one_digit_order i j :
  i < j -> j < 10 ->
  String.compare (Js.nat_toString i) (Js.nat_toString j) = Lt.
Proof.
  intros Hij Hj.
  do 10 (destruct j as [|j];
         [ do 10 (destruct i as [|i]; [first [reflexivity | lia]|]); lia |]).
  lia.
Qed.

Lemma scene_id_order batch i j :
  i < j -> j < 10 ->
  String.leb (scene_id batch i) (scene_id batch j) = true.
Proof.
  intros Hij Hj. unfold String.leb, scene_id.
  rewrite !compare_common_prefix, one_digit_order by assumption. reflexivity.
Qed.

Lemma results_from_sorted W ctx rest :
  forall i,
    i + length rest <= 10 ->
    StronglySorted id_le (results_from W ctx i rest).
Proof.
  induction rest as [|scene rest IH]; intros i Hi; simpl; constructor.
  - apply IH. simpl in Hi. lia.
  - apply Forall_forall. intros y Hy.
    apply list_elem_of_lookup in Hy. destruct Hy as [k Hk].
    rewrite results_from_lookup in Hk.
    destruct (rest !! k) as [sc|] eqn:Hrk; [|discriminate].
    injection Hk as <-. apply lookup_lt_Some in Hrk.
    unfold id_le. rewrite !result_of_id. simpl in Hi.
    apply scene_id_order; lia.
Qed.

Lemma StronglySorted_filter_keep {A} (R : A -> A -> Prop) f l :
  StronglySorted R l -> StronglySorted R (List.filter f l).
Proof.
  induction 1 as [|x l Hl IH Hx]; simpl; [constructor|].
  destruct (f x); [|exact IH]. constructor; [exact IH|].
  apply Forall_forall. intros y Hy.
  apply list_elem_of_In, filter_In in Hy.
  rewrite Forall_forall in Hx. apply Hx, list_elem_of_In, Hy.
Qed.

Lemma filter_keeps_all {A} (f : A -> bool) l :
  Forall (fun x => f x = true) l -> List.filter f l = l.
Proof.
  induction 1 as [|x l Hx _ IH]; simpl; [reflexivity|].
  rewrite Hx, IH. reflexivity.
Qed.

Lemma filter_drops_all {A} (f : A -> bool) l :
  Forall (fun x => f x = false) l -> List.filter f l = [].
Proof.
  induction 1 as [|x l Hx _ IH]; simpl; [reflexivity|].
  rewrite Hx, IH. reflexivity.
Qed.

Lemma result_of_batchId W ctx i scene :
  batchId (result_of W ctx i scene) = Some (g_batchId ctx).
Proof. unfold result_of. destruct (generateImage _); reflexivity. Qed.

Lemma results_from_batchId W ctx rest :
  forall i,
    Forall (fun x => batchId x = Some (g_batchId ctx))
      (results_from W ctx i rest).
Proof.
  induction rest as [|scene rest IH]; intros i; simpl; constructor.
  - apply result_of_batchId.
  - apply IH.
Qed.

Section StoreAndSelect.
Context `{Host}.

(** X4. A batch of at most ten scenes, run where the history holds no
    record with the batch id it draws, can be brought back from the
    history: selecting any stored record of the batch puts on display
    exactly the records of the batch that rendered, in scene order, that
    is, the live batch view the batch left without its failed cards. *)
Theorem selecting_a_stored_record_restores_the_rendered_scenes
    W st fuel item :
  Js.truthy (Js.trim (inputText st)) = true ->
  enough_fuel (analyzed W st) <= fuel ->
  length (analyzed W st) <= 10 ->
  Forall (fun h => batchId h <> Some (Js.Z_toString (click_time W)))
    (history st) ->
  let st' := final (startGeneration W fuel st) in
  item ∈ history st' ->
  batchId item = Some (Js.Z_toString (click_time W)) ->
  currentBatch (after_select st' item)
  = List.filter is_success (currentBatch st').
Proof.
  intros Hin Hfuel Hten Hold st' Hitem Hbatch. subst st'.
  rewrite (startGeneration_runs W st fuel Hin Hfuel) in *.
  simpl in Hitem. cbn [final currentBatch].
  set (succ := List.filter is_success (batch_results W st)) in *.
  assert (Hall : Forall (fun x => batchId x = batchId item) succ).
  { apply Forall_forall. intros x Hx.
    apply list_elem_of_In, filter_In in Hx. destruct Hx as [Hx _].
    assert (Hb := results_from_batchId W (batch_ctx W st)
                    (attempted (analyzed W st)) 0).
    rewrite Forall_forall in Hb. rewrite Hbatch.
    apply (Hb x), list_elem_of_In, Hx. }
  assert (Hsib :
    List.rev
      (List.filter (fun h => bool_decide (batchId h = batchId item))
         (List.rev succ ++ history st)) = succ).
  { rewrite List.filter_app.
    rewrite (filter_drops_all _ (history st)).
    - rewrite app_nil_r, filter_keeps_all; [apply rev_involutive|].
      apply Forall_forall. intros x Hx.
      apply list_elem_of_In, in_rev in Hx.
      rewrite Forall_forall in Hall.
      apply bool_decide_eq_true_2, Hall, list_elem_of_In, Hx.
    - eapply Forall_impl; [exact Hold|]. intros h Hh. simpl in Hh.
      apply bool_decide_eq_false_2. rewrite Hbatch. exact Hh. }
  assert (Hsorted : Sorted id_le succ).
  { apply StronglySorted_Sorted, StronglySorted_filter_keep.
    apply results_from_sorted. simpl.
    pose proof (attempted_length (analyzed W st)). lia. }
  unfold after_select, handleSelectHistoryItem. simpl history.
  rewrite Hbatch, Z_toString_truthy. rewrite <- Hbatch, Hsib.
  destruct (1 <? length succ)%nat eqn:Hlen; simpl.
  - apply sort_already_sorted, Hsorted.
  - apply Nat.ltb_ge in Hlen.
    assert (Hmem : item ∈ succ).
    { apply elem_of_app in Hitem. destruct Hitem as [Hi|Hi].
      - apply list_elem_of_In, in_rev, list_elem_of_In. exact Hi.
      - rewrite Forall_forall in Hold. exfalso.
        exact (Hold item Hi Hbatch). }
    destruct succ as [|x [|y succ']]; simpl in Hlen; try lia.
    + inversion Hmem.
    + apply list_elem_of_singleton in Hmem. subst. reflexivity.
Qed.

End StoreAndSelect.

(* ===================================================================== *)
(** * Further properties of the service functions *)
(* ===================================================================== *)

(** ** The renderer *)

Lemma first_inline_image_shape ps :
  first_inline_image ps = ""
  \/ exists mime d,
       first_inline_image ps = "data:" +:+ mime +:+ ";base64," +:+ d
       /\ mime <> "".
Proof.
  induction ps as [|p ps IH]; simpl; [left; reflexivity|].
  destruct (inlineData p) as [d|]; [|exact IH]. right.
  destruct (mimeType d) as [m|].
  - destruct (Js.truthy m) eqn:Hm.
    + exists m, (data d). split; [reflexivity|]. apply truthy_nonempty, Hm.
    + exists "image/png", (data d). split; [reflexivity | discriminate].
  - exists "image/png", (data d). split; [reflexivity | discriminate].
Qed.

(** X5. [generateImage] fails with one and the same message whatever went
    wrong (no key, a rejected call, a response without candidates or
    without an inline image): the message of the inner [throw] never
    reaches the caller.  When it succeeds, the result is a [data:] URI with
    a non-empty media type and [;base64,] before the payload.  Only the
    first candidate of the response is read. *)
Theorem generateImage_fails_uniformly_and_returns_data_uris :
  (forall o msg, generateImage o = Throw msg -> msg = generateImage_error)
  /\ (forall o url,
        generateImage o = Ok url ->
        exists mime d,
          url = "data:" +:+ mime +:+ ";base64," +:+ d /\ mime <> "")
  /\ (forall c cs,
        generateImage (Resolved (mkImageResponse (Some (c :: cs))))
        = generateImage (Resolved (mkImageResponse (Some [c]))))
  /\ generateImage (Resolved (mkImageResponse (Some []))) = Throw generateImage_error
  /\ generateImage (Resolved (mkImageResponse None)) = Throw generateImage_error
  /\ generateImage Rejected = Throw generateImage_error.
Proof.
  split; [|split; [|repeat split]].
  - intros o msg. unfold generateImage. destruct o as [|response]; simpl.
    + intros Heq. injection Heq as <-. reflexivity.
    + destruct (extract_image response) as [imageUrl|m]; simpl.
      * destruct (Js.truthy imageUrl); simpl; [discriminate|].
        intros Heq. injection Heq as <-. reflexivity.
      * intros Heq. injection Heq as <-. reflexivity.
  - intros o url. unfold generateImage. destruct o as [|response]; simpl;
      [discriminate|].
    unfold extract_image.
    destruct (candidates response) as [[|c cs]|]; simpl; try discriminate.
    destruct (content c) as [ct|]; simpl; [|discriminate].
    destruct (parts ct) as [ps|]; simpl; [|discriminate].
    destruct (first_inline_image_shape ps) as [Hempty|(mime & d & Hshape & Hm)].
    + rewrite Hempty. simpl. discriminate.
    + destruct (Js.truthy (first_inline_image ps)); simpl; [|discriminate].
      intros Heq. injection Heq as <-. eauto.
Qed.

(** ** The prompt repair and the suggestion *)

(** X6. A failed record built by the loop carries a suggestion exactly
    when the repair call returned a text whose trimmed form is not empty
    and differs from the prompt that failed; the suggestion is then that
    trimmed text.  In particular a failed repair call, which makes
    [getPromptFix] return the prompt itself, leaves the record without a
    suggestion. *)
Theorem suggestion_is_the_trimmed_repair_when_it_differs
    ctx i scene o now s :
  suggestedPrompt
    (failedImage ctx i scene
       (Some (getPromptFix o (english_prompt scene))) now) = Some s
  <-> exists response t,
        o = Resolved response /\ text response = Some t
        /\ Js.trim t = s /\ s <> "" /\ s <> english_prompt scene.
Proof.
  simpl. unfold getPromptFix. split.
  - destruct o as [|response]; simpl.
    + destruct (Js.truthy (english_prompt scene)); simpl;
        rewrite ?String.eqb_refl; simpl; discriminate.
    + destruct (text response) as [t|] eqn:Ht.
      * destruct (Js.truthy (Js.trim t)) eqn:Htr.
        -- rewrite Htr. simpl.
           destruct (String.eqb (Js.trim t) (english_prompt scene)) eqn:Heq;
             simpl; [discriminate|].
           intros Hs. injection Hs as <-.
           exists response, t. repeat split; try assumption.
           ++ apply truthy_nonempty, Htr.
           ++ apply String.eqb_neq, Heq.
        -- destruct (Js.truthy (english_prompt scene)); simpl;
             rewrite ?String.eqb_refl; simpl; discriminate.
      * destruct (Js.truthy (english_prompt scene)); simpl;
          rewrite ?String.eqb_refl; simpl; discriminate.
  - intros (response & t & -> & Ht & Htrim & Hne & Hdiff). simpl.
    rewrite Ht, Htrim.
    apply truthy_nonempty in Hne. apply String.eqb_neq in Hdiff.
    rewrite Hne. simpl. rewrite ?Hne, ?Hdiff. simpl. rewrite ?Hne, ?Hdiff.
    reflexivity.
Qed.

(** ** The API key and the client *)

(** X7. [hasApiKey] is false exactly when [getAi] throws, and a throwing
    [getAi] builds no client.  The client is built once: after a first
    successful [getAi], made with the key of that moment, every later
    [getAi] under any non-empty key returns that same client and leaves the
    module variable as it is. *)
Theorem getAi_throws_without_key_and_builds_one_client :
  (forall API_KEY ai,
     hasApiKey API_KEY = false <-> exists msg, fst (getAi API_KEY ai) = Throw msg)
  /\ (forall API_KEY ai,
        hasApiKey API_KEY = false -> snd (getAi API_KEY ai) = ai)
  /\ (forall API_KEY client,
        fst (getAi API_KEY None) = Ok client ->
        getApiKey API_KEY = Some (apiKey client)
        /\ snd (getAi API_KEY None) = Some client)
  /\ (forall API_KEY ai client,
        fst (getAi API_KEY ai) = Ok client ->
        snd (getAi API_KEY ai) = Some client
        /\ forall API_KEY',
             hasApiKey API_KEY' = true ->
             getAi API_KEY' (Some client) = (Ok client, Some client)).
Proof.
  unfold hasApiKey, getApiKey, getAi. repeat split.
  - intros Hkey. destruct API_KEY as [key|]; simpl in Hkey.
    + rewrite Hkey. eauto.
    + eauto.
  - intros [msg Hmsg]. destruct API_KEY as [key|]; [|reflexivity]. simpl.
    destruct (Js.truthy key); [|reflexivity].
    destruct ai; discriminate.
  - destruct API_KEY as [key|]; simpl in *; [|reflexivity].
    destruct (Js.truthy key); [discriminate | reflexivity].
  - destruct API_KEY as [key|]; simpl in *; [|discriminate].
    destruct (Js.truthy key); [|discriminate].
    simpl in H. injection H as <-. reflexivity.
  - destruct API_KEY as [key|]; simpl in *; [|discriminate].
    destruct (Js.truthy key); [|discriminate].
    simpl in H. injection H as <-. reflexivity.
  - destruct API_KEY as [key|]; simpl in *; [|discriminate].
    destruct (Js.truthy key); [|discriminate].
    destruct ai as [c|]; simpl in *; injection H as <-; reflexivity.
  - intros API_KEY' Hkey'. destruct API_KEY' as [key'|]; simpl in Hkey';
      [|discriminate].
    rewrite Hkey'. reflexivity.
Qed.

Lemma through_getAi_without_key {R} API_KEY (o : call_outcome R) :
  hasApiKey API_KEY = false -> through_getAi API_KEY o = Rejected.
Proof.
  unfold hasApiKey, through_getAi, client_call, getAi.
  destruct API_KEY as [key|]; simpl; [|reflexivity].
  intros ->. reflexivity.
Qed.

Lemma through_getAi_with_key {R} API_KEY (o : call_outcome R) :
  hasApiKey API_KEY = true -> through_getAi API_KEY o = o.
Proof.
  unfold hasApiKey, through_getAi, client_call, getAi.
  destruct API_KEY as [key|]; simpl; [|discriminate].
  intros ->. reflexivity.
Qed.

Section Analysis.
Context `{Host}.

(** X8. Whatever the provider does, [analyzeScript] returns the parsed
    array, or the parsed object as a one-element list, or the one-scene
    fallback made of the input.  It returns no scene at all exactly when
    the response text is not empty and parses to the empty array. *)
Theorem analyzeScript_returns_parsed_scenes_or_the_fallback reply userInput :
  ((exists response t elems,
      reply = Resolved response /\ text response = Some t /\ t <> ""
      /\ JSON_parse (cleanJson t) = Some (JArray elems)
      /\ analyzeScript reply userInput = elems)
   \/ (exists response t o,
        reply = Resolved response /\ text response = Some t /\ t <> ""
        /\ JSON_parse (cleanJson t) = Some (JObject o)
        /\ analyzeScript reply userInput = [Some o])
   \/ analyzeScript reply userInput = [Some (fallback_scene userInput)])
  /\ (analyzeScript reply userInput = []
      <-> exists response t,
            reply = Resolved response /\ text response = Some t /\ t <> ""
            /\ JSON_parse (cleanJson t) = Some (JArray [])).
Proof.
  unfold analyzeScript, analyzeScript_try.
  destruct reply as [|response]; simpl.
  { split; [right; right; reflexivity|].
    split; [discriminate|]. intros (r & t & Hr & _). discriminate. }
  destruct (text response) as [t|] eqn:Ht.
  2:{ split; [right; right; reflexivity|].
      split; [discriminate|]. intros (r & t & Hr & Ht' & _).
      injection Hr as <-. congruence. }
  destruct (Js.truthy t) eqn:Htr.
  2:{ split; [right; right; reflexivity|].
      split; [discriminate|]. intros (r & t' & Hr & Ht' & Hne & _).
      injection Hr as <-. rewrite Ht in Ht'. injection Ht' as <-.
      apply truthy_nonempty in Hne. congruence. }
  assert (Hne : t <> "") by (apply truthy_nonempty, Htr).
  destruct (JSON_parse (cleanJson t)) as [[elems|o|]|] eqn:Hp.
  - split; [left; exists response, t, elems; auto|].
    split.
    + intros ->. exists response, t. auto.
    + intros (r & t' & Hr & Ht' & _ & Hp').
      injection Hr as <-. rewrite Ht in Ht'. injection Ht' as <-.
      rewrite Hp in Hp'. injection Hp' as ->. reflexivity.
  - split; [right; left; exists response, t, o; auto|].
    split; [discriminate|].
    intros (r & t' & Hr & Ht' & _ & Hp').
    injection Hr as <-. rewrite Ht in Ht'. injection Ht' as <-.
    rewrite Hp in Hp'. discriminate.
  - split; [right; right; reflexivity|].
    split; [discriminate|].
    intros (r & t' & Hr & Ht' & _ & Hp').
    injection Hr as <-. rewrite Ht in Ht'. injection Ht' as <-.
    rewrite Hp in Hp'. discriminate.
  - split; [right; right; reflexivity|].
    split; [discriminate|].
    intros (r & t' & Hr & Ht' & _ & Hp').
    injection Hr as <-. rewrite Ht in Ht'. injection Ht' as <-.
    rewrite Hp in Hp'. discriminate.
Qed.

(** X9. Without an API key no service function reaches the provider:
    whatever it would answer, [analyzeScript] yields the one-scene
    fallback, [generateImage] throws, and [getPromptFix] returns the prompt
    unchanged.  A batch started in that situation still ends in phase
    [success], with no error message: it leaves one failed card whose
    prompt is the whole script, without a suggestion, and stores
    nothing. *)
Theorem without_key_a_batch_is_one_failed_card API_KEY W st fuel :
  hasApiKey API_KEY = false ->
  Js.truthy (Js.trim (inputText st)) = true ->
  4 <= fuel ->
  let r := startGeneration (world_with_key API_KEY W) fuel st in
  (forall (send : Client -> call_outcome TextResponse) ai,
     analyzeScript (fst (client_call API_KEY ai send)) (inputText st)
     = [Some (fallback_scene (inputText st))])
  /\ (forall (send : Client -> call_outcome ImageResponse) ai,
        generateImage (fst (client_call API_KEY ai send))
        = Throw generateImage_error)
  /\ (forall (send : Client -> call_outcome TextResponse) ai prompt,
        getPromptFix (fst (client_call API_KEY ai send)) prompt = prompt)
  /\ unfinished r = None
  /\ loadingState (final r) = success_state
  /\ errorMsg (final r) = None
  /\ history (final r) = history st
  /\ exists x,
       currentBatch (final r) = [x]
       /\ status x = ImageStatus.failed
       /\ refinedPrompt x = inputText st
       /\ suggestedPrompt x = None
       /\ imageUrl x = "".
Proof.
  intros Hkey Hin Hfuel r.
  assert (Hcall : forall R (send : Client -> call_outcome R) ai,
            fst (client_call API_KEY ai send) = Rejected).
  { intros R send ai. unfold client_call, getAi.
    unfold hasApiKey in Hkey. destruct API_KEY as [key|]; simpl in *;
      [rewrite Hkey|]; reflexivity. }
  split; [intros; rewrite Hcall; reflexivity|].
  split; [intros; rewrite Hcall; reflexivity|].
  split; [intros; rewrite Hcall; reflexivity|].
  assert (Han : analyzed (world_with_key API_KEY W) st
                = [Some (fallback_scene (inputText st))]).
  { unfold analyzed. simpl.
    rewrite through_getAi_without_key by exact Hkey. reflexivity. }
  subst r. rewrite (startGeneration_runs _ st fuel Hin)
    by (rewrite Han; unfold enough_fuel; simpl; lia).
  unfold batch_results. rewrite Han. simpl. unfold result_of. simpl.
  rewrite !through_getAi_without_key by exact Hkey. simpl.
  repeat split. eexists. split; [reflexivity|]. simpl.
  rewrite String.eqb_refl, Bool.andb_false_r. repeat split.
Qed.

End Analysis.

(* ===================================================================== *)
(** * Further properties of generation and retry *)
(* ===================================================================== *)

Lemma issued_requests_app l1 l2 :
  issued_requests (l1 ++ l2) = issued_requests l1 ++ issued_requests l2.
Proof. apply flat_map_app. Qed.

Lemma loop_log_requests `{Host} W ctx scenes rest halted :
  forall i tempBatch,
    issued_requests (loop_log W ctx scenes i rest halted tempBatch)
    = loop_requests W ctx i rest ++ halt_requests (i + length rest) halted.
Proof.
  induction rest as [|scene rest IH]; intros i tempBatch.
  - simpl. unfold loop_end, halt_requests. rewrite Nat.add_0_r.
    destruct halted, (0 <? i)%nat; reflexivity.
  - simpl. unfold scene_log, scene_requests, render_succeeds.
    rewrite !issued_requests_app, IH.
    replace (i + 1 + length rest) with (i + S (length rest)) by lia.
    destruct (0 <? i)%nat, (generateImage (render_reply W i)); reflexivity.
Qed.

Lemma loop_requests_delays W ctx rest :
  forall i,
    List.filter is_delay (loop_requests W ctx i rest)
    = List.repeat (setTimeout_call 3000)
        (if (0 <? i)%nat then length rest else length rest - 1).
Proof.
  induction rest as [|scene rest IH]; intros i; simpl.
  - destruct (0 <? i)%nat; reflexivity.
  - unfold scene_requests. rewrite !List.filter_app, IH.
    replace (0 <? i + 1)%nat with true by (symmetry; apply Nat.ltb_lt; lia).
    destruct (0 <? i)%nat, (render_succeeds W i); simpl;
      rewrite ?Nat.sub_0_r; reflexivity.
Qed.

Lemma loop_requests_repairs W ctx rest :
  forall i,
    length (List.filter is_repair (loop_requests W ctx i rest))
    + length (List.filter (render_succeeds W) (List.seq i (length rest)))
    = length rest.
Proof.
  induction rest as [|scene rest IH]; intros i; simpl; [reflexivity|].
  unfold scene_requests. rewrite !List.filter_app, !length_app.
  specialize (IH (i + 1)). replace (S i) with (i + 1) by lia.
  destruct (0 <? i)%nat, (render_succeeds W i); simpl; lia.
Qed.

Section Calls.
Context `{Host}.

(** X10. The calls of a batch, in the order they are issued: the analysis,
    then for each scene the loop gets to, in turn, a delay of 3000 ms
    (before every scene but the first), the render of that scene, and a
    repair call when, and only when, that render failed; and, when the loop
    ends on a [null] element that is not the first, the delay before it.
    So a batch that gets to A of its N scenes, K of which render, waits
    min(A, N-1) delays and asks for A-K repairs: N-1 delays and N-K repairs
    when no element is [null]. *)
Theorem batch_calls_are_paced_and_repairs_follow_failures W st fuel :
  Js.truthy (Js.trim (inputText st)) = true ->
  enough_fuel (analyzed W st) <= fuel ->
  let r := startGeneration W fuel st in
  let scenes := analyzed W st in
  let N := length scenes in
  let A := length (attempted scenes) in
  issued_requests (log r)
  = analyzeScript_call (inputText st)
    :: loop_requests W (batch_ctx W st) 0 (attempted scenes)
       ++ halt_requests A (has_null scenes)
  /\ List.filter is_delay (issued_requests (log r))
     = List.repeat (setTimeout_call 3000) (Nat.min A (N - 1))
  /\ length (List.filter is_repair (issued_requests (log r)))
     = A - successes W A
  /\ (has_null scenes = false -> A = N).
Proof.
  intros Hin Hfuel r scenes N A. subst r.
  rewrite (startGeneration_runs W st fuel Hin Hfuel). simpl.
  assert (Hreq : issued_requests (batch_log W st)
                 = analyzeScript_call (inputText st)
                   :: loop_requests W (batch_ctx W st) 0 (attempted scenes)
                      ++ halt_requests A (has_null scenes)).
  { unfold batch_log, handleGenerate. rewrite Hin. simpl.
    rewrite loop_log_requests. reflexivity. }
  rewrite Hreq. simpl.
  pose proof (attempted_length scenes) as Hle. fold A N in Hle.
  pose proof (has_null_attempted scenes) as Hfull. fold A N in Hfull.
  split; [reflexivity|]. split; [|split; [|apply Hfull]].
  - rewrite List.filter_app, loop_requests_delays. simpl. fold A.
    unfold halt_requests.
    destruct (has_null scenes) eqn:Hn; simpl.
    + assert (A <> N) by (intros He; apply Hfull in He; discriminate).
      destruct (0 <? A)%nat eqn:Hpos; simpl.
      * apply Nat.ltb_lt in Hpos.
        change [setTimeout_call 3000] with (List.repeat (setTimeout_call 3000) 1).
        rewrite <- List.repeat_app. f_equal. lia.
      * apply Nat.ltb_ge in Hpos. rewrite app_nil_r. f_equal. lia.
    + rewrite app_nil_r. f_equal. assert (A = N) by (apply Hfull; reflexivity).
      lia.
  - rewrite List.filter_app, length_app.
    pose proof (loop_requests_repairs W (batch_ctx W st) (attempted scenes) 0)
      as Hrep.
    unfold successes. fold A in Hrep |- *.
    assert (Hh : length (List.filter is_repair
                           (halt_requests A (has_null scenes))) = 0).
    { unfold halt_requests. destruct (has_null scenes && (0 <? A)%nat);
        reflexivity. }
    rewrite Hh. lia.
Qed.

(** X11. A retry whose render fails changes nothing but the error
    message: the live batch view, the history and the set of retrying ids
    are as before the click, one render call was issued with the selected
    prompt, and the message is the fixed retry notice.  The notice stays
    until a generation is started, whose first updates clear it. *)
Theorem failed_retry_changes_only_the_error_message
    W st item useSuggestion msg :
  id item ∉ retryingIds st ->
  generateImage (retry_reply W) = Throw msg ->
  let r := retry W st item useSuggestion in
  unfinished r = None
  /\ render_calls (log r) = [(promptToUse item useSuggestion, aspectRatio item)]
  /\ final r
     = mkAppState (inputText st) (selectedAspectRatio st) (loadingState st)
         (currentBatch st) (history st) (Some retry_error) (retryingIds st)
  /\ (forall now,
        Js.truthy (Js.trim (inputText st)) = true ->
        errorMsg (apply_updates (fst (handleGenerate (final r) now)) (final r))
        = None).
Proof.
  intros Hfree Hgen r. subst r.
  unfold retry, run_from_click, handleRetry.
  rewrite bool_decide_eq_false_2 by exact Hfree. simpl. rewrite Hgen. simpl.
  split; [reflexivity|]. split; [reflexivity|]. split.
  - f_equal. apply leibniz_equiv. intros y.
    rewrite elem_of_difference, elem_of_union, elem_of_singleton.
    split; [tauto|]. intros Hy. split; [tauto|]. intros ->. tauto.
  - intros now Hin. unfold handleGenerate. simpl. rewrite Hin. reflexivity.
Qed.

(** X12. When the render or the repair of a running batch settles, the
    handler writes its own [tempBatch] with the new record to the live
    batch view, whatever the view holds at that moment: a card of the batch
    that was deleted from the view, or replaced by a successful retry, in
    the meantime is on display again as the handler recorded it.  The
    history is not rewritten: it only gains the new record when the render
    succeeded. *)
Theorem a_settled_scene_rewrites_the_view_from_tempBatch
    m k ctx scenes i scene tempBatch now :
  (forall o url,
     pending m !! k = Some (GenAwaitImage ctx scenes i scene tempBatch) ->
     generateImage o = Ok url ->
     exists m',
       step m (Settle k (ImageReply o) now) = Some m'
       /\ currentBatch (app m')
          = tempBatch ++ [newImage ctx i scene url now]
       /\ history (app m')
          = newImage ctx i scene url now :: history (app m))
  /\ (forall o,
        pending m !! k = Some (GenAwaitFix ctx scenes i scene tempBatch) ->
        exists m',
          step m (Settle k (TextReply o) now) = Some m'
          /\ currentBatch (app m')
             = tempBatch
               ++ [failedImage ctx i scene
                     (Some (getPromptFix o (english_prompt scene))) now]
          /\ history (app m') = history (app m)).
Proof.
  assert (Hloop : forall j tb st,
            currentBatch (apply_updates (fst (loop_test ctx scenes j tb)) st)
            = currentBatch st
            /\ history (apply_updates (fst (loop_test ctx scenes j tb)) st)
               = history st).
  { intros j tb st. unfold loop_test, loop_body.
    destruct (scenes !! j) as [[s|]|]; [| |split; reflexivity];
      destruct (0 <? j)%nat; split; reflexivity. }
  split.
  - intros o url Hk Hgen. simpl. rewrite Hk. simpl. rewrite Hgen.
    eexists. split; [reflexivity|]. simpl.
    rewrite !(proj1 (Hloop _ _ _)), !(proj2 (Hloop _ _ _)).
    split; reflexivity.
  - intros o Hk. simpl. rewrite Hk. simpl.
    eexists. split; [reflexivity|]. simpl.
    rewrite !(proj1 (Hloop _ _ _)), !(proj2 (Hloop _ _ _)).
    split; reflexivity.
Qed.

End Calls.

(* ===================================================================== *)
(** * Further properties: the masked key and the download *)
(* ===================================================================== *)

Lemma get_substring_prefix n s i :
  i < n -> n <= String.length s ->
  String.get i (String.substring 0 n s) = String.get i s.
Proof.
  revert s i. induction n as [|n IH]; intros s i Hi Hn; [lia|].
  destruct s as [|c s]; simpl in *; [lia|].
  destruct i as [|i]; [reflexivity|]. apply IH; lia.
Qed.

Lemma length_substring_prefix n s :
  n <= String.length s -> String.length (String.substring 0 n s) = n.
Proof.
  revert s. induction n as [|n IH]; intros s Hn.
  - destruct s; reflexivity.
  - destruct s as [|c s]; simpl in *; [lia|]. rewrite IH by lia. reflexivity.
Qed.

Lemma drop_length n s :
  n <= String.length s -> String.length (Js.drop n s) = String.length s - n.
Proof.
  unfold Js.drop. revert s. induction n as [|n IH]; intros s Hn.
  - rewrite Nat.sub_0_r. clear Hn. induction s as [|c s IHs]; simpl;
      [reflexivity|]. rewrite IHs. reflexivity.
  - destruct s as [|c s]; simpl in *; [lia|]. apply IH. lia.
Qed.

Lemma get_drop n s i :
  n <= String.length s -> String.get i (Js.drop n s) = String.get (n + i) s.
Proof.
  unfold Js.drop. revert s i. induction n as [|n IH]; intros s i Hn.
  - rewrite Nat.sub_0_r. simpl. clear Hn. revert i.
    induction s as [|c s IHs]; intros i; simpl; [reflexivity|].
    destruct i as [|i]; [reflexivity|]. apply IHs.
  - destruct s as [|c s]; simpl in *; [lia|]. apply IH. lia.
Qed.

Lemma length_stars n : String.length (stars n) = n.
Proof. induction n as [|n IH]; simpl; [reflexivity|]. rewrite IH. reflexivity. Qed.

Lemma get_stars n i : i < n -> String.get i (stars n) = Some "*"%char.
Proof.
  revert i. induction n as [|n IH]; intros i Hi; [lia|].
  destruct i as [|i]; simpl; [reflexivity|]. apply IH. lia.
Qed.

Lemma length_append s1 s2 :
  String.length (s1 +:+ s2) = String.length s1 + String.length s2.
Proof.
  induction s1 as [|c s1 IH]; simpl; [reflexivity|].
  change (String.length (s1 +:+ s2)) with (String.length (String.append s1 s2)).
  rewrite <- IH. reflexivity.
Qed.

Lemma get_append_left s1 s2 i :
  i < String.length s1 -> String.get i (s1 +:+ s2) = String.get i s1.
Proof. intros Hi. symmetry. apply (append_correct1 s1 s2 i Hi). Qed.

Lemma get_append_right s1 s2 i :
  String.get (String.length s1 + i) (s1 +:+ s2) = String.get i s2.
Proof.
  rewrite Nat.add_comm. symmetry. apply (append_correct2 s1 s2 i).
Qed.

(** X13. For a key of ASCII characters: [maskApiKey] hides a key of at
    most eight characters entirely, as three stars; a longer key keeps its
    length, its first four and its last four characters, and shows a star
    at every position in between. *)
Theorem maskApiKey_shows_four_and_four_of_a_long_key key :
  is_ascii key ->
  (String.length key <= 8 -> maskApiKey key = "***")
  /\ (8 < String.length key ->
      String.length (maskApiKey key) = String.length key
      /\ (forall i, i < 4 ->
                    String.get i (maskApiKey key) = String.get i key)
      /\ (forall i, 4 <= i < String.length key - 4 ->
                    String.get i (maskApiKey key) = Some "*"%char)
      /\ (forall i, String.length key - 4 <= i < String.length key ->
                    String.get i (maskApiKey key) = String.get i key)).
Proof.
  intros _. unfold maskApiKey. split.
  - intros Hle. apply Nat.leb_le in Hle. rewrite Hle. reflexivity.
  - intros Hlong.
    replace (String.length key <=? 8)%nat with false
      by (symmetry; apply Nat.leb_gt; lia).
    set (n := String.length key) in *.
    assert (Hp : String.length (String.substring 0 4 key) = 4)
      by (apply length_substring_prefix; lia).
    assert (Hs : String.length (stars (n - 8)) = n - 8) by apply length_stars.
    assert (Hd : String.length (Js.drop (n - 4) key) = 4).
    { rewrite drop_length by lia. fold n. lia. }
    split; [|split; [|split]].
    + rewrite !length_append, Hp, Hs, Hd. lia.
    + intros i Hi. rewrite get_append_left by lia.
      apply get_substring_prefix; lia.
    + intros i Hi. replace i with (String.length (String.substring 0 4 key)
                                    + (i - 4)) by lia.
      rewrite get_append_right, get_append_left by lia.
      apply get_stars. lia.
    + intros i Hi.
      replace i with (String.length (String.substring 0 4 key)
                      + (String.length (stars (n - 8)) + (i - (n - 4)))) at 1
        by lia.
      rewrite !get_append_right, get_drop by lia.
      f_equal. lia.
Qed.

Lemma startsWith_append p s : Js.startsWith (p +:+ s) p = true.
Proof.
  unfold Js.startsWith. induction p as [|c p IH].
  - destruct s; reflexivity.
  - change (String c p +:+ s) with (String c (p +:+ s)). simpl.
    destruct (ascii_dec c c); [exact IH | congruence].
Qed.

Lemma generateImage_data_uri o url :
  generateImage o = Ok url -> Js.startsWith url "data:" = true.
Proof.
  unfold generateImage. destruct o as [|response]; simpl; [discriminate|].
  unfold extract_image.
  destruct (candidates response) as [[|c cs]|]; simpl; try discriminate.
  destruct (content c) as [ct|]; simpl; [|discriminate].
  destruct (parts ct) as [ps|]; simpl; [|discriminate].
  destruct (first_inline_image_shape ps) as [Hempty|(mime & d & Hshape & Hm)].
  - rewrite Hempty. simpl. discriminate.
  - destruct (Js.truthy (first_inline_image ps)); simpl; [|discriminate].
    intros Heq. injection Heq as <-. rewrite Hshape. apply startsWith_append.
Qed.

Section Downloads.
Context `{Host}.

Lemma steps_offered_records_ok (P : GeneratedImage -> Prop) es :
  (forall ctx i scene o url now,
     generateImage o = Ok url -> P (newImage ctx i scene url now)) ->
  (forall ctx i scene suggested now, P (failedImage ctx i scene suggested now)) ->
  (forall item o url prompt now,
     generateImage o = Ok url -> P (successItem item url prompt now)) ->
  forall m m',
    records_ok P m -> steps_offered m es = Some m' -> records_ok P m'.
Proof.
  intros Hnew Hfailed Hretry.
  induction es as [|e es IH]; intros m m' Hm Hrun; simpl in Hrun.
  - injection Hrun as <-. exact Hm.
  - destruct (bool_decide (offered m e)) eqn:Hoff; [|discriminate].
    apply bool_decide_eq_true in Hoff.
    destruct (step m e) as [m1|] eqn:Hstep; [|discriminate].
    eapply IH; [|exact Hrun].
    eapply (step_records_ok P Hnew Hfailed Hretry); eassumption.
Qed.

(** X14. Started from a history whose successful records hold [data:]
    URIs, and through any events the page offers, every record on display
    or stored is such that [handleDownload] starts a download exactly when
    the record's status is [success]; the download is then of a [data:]
    URI under the file name [yadam_<id>.png]. *)
Theorem downloads_are_data_uris_named_after_the_id saved es m x :
  Forall data_uri_ok saved ->
  steps_offered (mkMachine (initial_state saved) []) es = Some m ->
  x ∈ currentBatch (app m) ++ history (app m) ->
  (handleDownload x = None <-> status x = ImageStatus.failed)
  /\ forall a,
       handleDownload x = Some a ->
       status x = ImageStatus.success
       /\ href a = imageUrl x
       /\ Js.startsWith (href a) "data:" = true
       /\ download a = "yadam_" +:+ id x +:+ ".png".
Proof.
  intros Hsaved Hrun Hx.
  assert (Hok : records_ok data_uri_ok m).
  { eapply (steps_offered_records_ok data_uri_ok es); [| | | |exact Hrun].
    - intros ctx i scene o url now Hgen _. simpl.
      eapply generateImage_data_uri, Hgen.
    - intros ctx i scene suggested now. unfold data_uri_ok. simpl. discriminate.
    - intros item o url prompt now Hgen _. simpl.
      eapply generateImage_data_uri, Hgen.
    - repeat split; simpl; [constructor | exact Hsaved | constructor]. }
  destruct Hok as (Hb & Hh & _).
  assert (Hdata : data_uri_ok x).
  { apply elem_of_app in Hx. rewrite Forall_forall in Hb, Hh.
    destruct Hx as [Hx|Hx]; [apply Hb | apply Hh]; exact Hx. }
  unfold handleDownload, downloadImage. unfold data_uri_ok in Hdata.
  destruct (status x) eqn:Hst; split.
  - split; discriminate.
  - intros a Ha. injection Ha as <-. simpl. repeat split. apply Hdata.
    reflexivity.
  - split; reflexivity.
  - discriminate.
Qed.

End Downloads.

(* ===================================================================== *)
(** * Further properties: trimming and the cleaning of the response text *)
(* ===================================================================== *)

Lemma string_app_nil_r s : s +:+ "" = s.
Proof.
  induction s as [|c s IH]; [reflexivity|].
  change (String c s +:+ "") with (String c (s +:+ "")). rewrite IH.
  reflexivity.
Qed.

Lemma string_app_assoc a b c : (a +:+ b) +:+ c = a +:+ (b +:+ c).
Proof.
  induction a as [|x a IH]; [reflexivity|].
  change ((String x a +:+ b) +:+ c) with (String x ((a +:+ b) +:+ c)).
  rewrite IH. reflexivity.
Qed.

Lemma string_rev_app_spec s1 :
  forall s2, String.rev_app s1 s2 = String.rev s1 +:+ s2.
Proof.
  unfold String.rev. induction s1 as [|c s1 IH]; intros s2; [reflexivity|].
  simpl. rewrite (IH (String c s2)), (IH (String c "")).
  rewrite string_app_assoc. reflexivity.
Qed.

Lemma string_rev_cons c s : String.rev (String c s) = String.rev s +:+ String c "".
Proof. unfold String.rev at 1. simpl. apply string_rev_app_spec. Qed.

Lemma string_rev_app a b : String.rev (a +:+ b) = String.rev b +:+ String.rev a.
Proof.
  induction a as [|c a IH].
  - simpl. symmetry. apply string_app_nil_r.
  - change (String c a +:+ b) with (String c (a +:+ b)).
    rewrite !string_rev_cons, IH, string_app_assoc. reflexivity.
Qed.

Lemma string_rev_involutive s : String.rev (String.rev s) = s.
Proof.
  induction s as [|c s IH]; [reflexivity|].
  rewrite string_rev_cons, string_rev_app, IH. reflexivity.
Qed.

Lemma string_length_rev s : String.length (String.rev s) = String.length s.
Proof.
  induction s as [|c s IH]; [reflexivity|].
  rewrite string_rev_cons, length_append, IH. simpl. lia.
Qed.

Lemma substring_whole s : String.substring 0 (String.length s) s = s.
Proof. induction s as [|c s IH]; simpl; [reflexivity|]. rewrite IH. reflexivity. Qed.

Lemma drop_zero s : Js.drop 0 s = s.
Proof. unfold Js.drop. rewrite Nat.sub_0_r. apply substring_whole. Qed.

Lemma drop_cons n c s : Js.drop (S n) (String c s) = Js.drop n s.
Proof. reflexivity. Qed.

Lemma drop_append p s : Js.drop (String.length p) (p +:+ s) = s.
Proof.
  induction p as [|c p IH].
  - change ("" +:+ s) with s. apply drop_zero.
  - change (String c p +:+ s) with (String c (p +:+ s)).
    change (String.length (String c p)) with (S (String.length p)).
    rewrite drop_cons. exact IH.
Qed.

Lemma startsWith_split s p :
  Js.startsWith s p = true -> s = p +:+ Js.drop (String.length p) s.
Proof.
  unfold Js.startsWith. revert s. induction p as [|c p IH]; intros s Hp.
  - change (String.length "") with 0. rewrite drop_zero. reflexivity.
  - destruct s as [|d s]; simpl in Hp; [discriminate|].
    destruct (ascii_dec c d) as [->|]; [|discriminate].
    change (String.length (String d p)) with (S (String.length p)).
    rewrite drop_cons.
    change (String d p +:+ Js.drop (String.length p) s)
      with (String d (p +:+ Js.drop (String.length p) s)).
    rewrite <- (IH s Hp). reflexivity.
Qed.

Lemma startsWith_longer s x p :
  Js.startsWith s p = true -> Js.startsWith (s +:+ x) p = true.
Proof.
  intros Hp. rewrite (startsWith_split s p Hp), string_app_assoc.
  apply startsWith_append.
Qed.

Lemma remove_prefix_append p s : Js.remove_prefix p (p +:+ s) = s.
Proof.
  unfold Js.remove_prefix. rewrite startsWith_append. apply drop_append.
Qed.

Lemma remove_suffix_append p s : Js.remove_suffix p (s +:+ p) = s.
Proof.
  unfold Js.remove_suffix. rewrite string_rev_app, remove_prefix_append.
  apply string_rev_involutive.
Qed.

(** *** Stripping *)

Lemma strip_one_split seqs s s' :
  Js.strip_one seqs s = Some s' ->
  exists w, w ∈ seqs /\ s = w +:+ s'.
Proof.
  induction seqs as [|w seqs IH]; simpl; [discriminate|].
  destruct (Js.startsWith s w) eqn:Hw.
  - intros Heq. injection Heq as <-. exists w. split; [left|].
    apply startsWith_split, Hw.
  - intros Hs. destruct (IH Hs) as (w' & Hin & Heq).
    exists w'. split; [right; exact Hin | exact Heq].
Qed.

Lemma strip_one_longer seqs s x :
  Js.strip_one seqs (s +:+ x) = None -> Js.strip_one seqs s = None.
Proof.
  induction seqs as [|w seqs IH]; simpl; [reflexivity|].
  destruct (Js.startsWith s w) eqn:Hw.
  - rewrite (startsWith_longer s x w Hw). discriminate.
  - destruct (Js.startsWith (s +:+ x) w); [discriminate | exact IH].
Qed.

Lemma strip_many_stable n seqs s :
  Js.strip_one seqs s = None -> Js.strip_many n seqs s = s.
Proof. intros Hs. destruct n; simpl; [reflexivity|]. rewrite Hs. reflexivity. Qed.

Lemma strip_many_split n seqs :
  forall s, exists p, s = p +:+ Js.strip_many n seqs s.
Proof.
  induction n as [|n IH]; intros s; simpl; [exists ""; reflexivity|].
  destruct (Js.strip_one seqs s) as [s'|] eqn:Hs; [|exists ""; reflexivity].
  destruct (strip_one_split _ _ _ Hs) as (w & _ & Hw).
  destruct (IH s') as [p Hp]. exists (w +:+ p).
  rewrite string_app_assoc, <- Hp. exact Hw.
Qed.

Lemma strip_many_done n seqs :
  Forall (fun w => w <> "") seqs ->
  forall s,
    String.length s <= n ->
    Js.strip_one seqs (Js.strip_many n seqs s) = None.
Proof.
  intros Hne. induction n as [|n IH]; intros s Hlen; simpl.
  - destruct s; simpl in Hlen; [|lia]. clear Hlen.
    induction Hne as [|w seqs Hw _ IHs]; simpl; [reflexivity|].
    destruct w; [congruence | exact IHs].
  - destruct (Js.strip_one seqs s) as [s'|] eqn:Hs; [|exact Hs].
    apply IH. destruct (strip_one_split _ _ _ Hs) as (w & Hin & Hw).
    rewrite Forall_forall in Hne. specialize (Hne w Hin).
    rewrite Hw, length_append in Hlen. destruct w; [congruence|].
    simpl in Hlen. lia.
Qed.

Lemma whitespace_nonempty : Forall (fun w => w <> "") Js.whitespace.
Proof. repeat constructor; discriminate. Qed.

Lemma whitespace_rev_nonempty :
  Forall (fun w => w <> "") (List.map String.rev Js.whitespace).
Proof. repeat constructor; discriminate. Qed.

(** [trim] leaves nothing to trim. *)
Lemma trim_idempotent s : Js.trim (Js.trim s) = Js.trim s.
Proof.
  unfold Js.trim.
  set (u := Js.trimStart s).
  assert (Hu : Js.strip_one Js.whitespace u = None).
  { apply strip_many_done; [apply whitespace_nonempty | reflexivity]. }
  set (r := Js.strip_many (String.length u)
              (List.map String.rev Js.whitespace) (String.rev u)).
  assert (Hr : Js.strip_one (List.map String.rev Js.whitespace) r = None).
  { apply strip_many_done; [apply whitespace_rev_nonempty|].
    rewrite string_length_rev. reflexivity. }
  assert (Hv : Js.trimEnd u = String.rev r) by reflexivity.
  rewrite Hv.
  assert (Hlead : Js.strip_one Js.whitespace (String.rev r) = None).
  { destruct (strip_many_split (String.length u)
                (List.map String.rev Js.whitespace) (String.rev u)) as [p Hp].
    fold r in Hp.
    apply (f_equal String.rev) in Hp.
    rewrite string_rev_involutive, string_rev_app in Hp.
    rewrite Hp in Hu. eapply strip_one_longer, Hu. }
  unfold Js.trimStart. rewrite strip_many_stable by exact Hlead.
  unfold Js.trimEnd. rewrite string_rev_involutive.
  rewrite strip_many_stable by exact Hr. reflexivity.
Qed.

Lemma trim_fenced body :
  Js.trim ("```json" +:+ body +:+ "```") = "```json" +:+ body +:+ "```".
Proof.
  unfold Js.trim.
  assert (Hstart : Js.trimStart ("```json" +:+ body +:+ "```")
                   = "```json" +:+ body +:+ "```").
  { unfold Js.trimStart. apply strip_many_stable. reflexivity. }
  rewrite Hstart. unfold Js.trimEnd.
  rewrite !string_rev_app.
  rewrite strip_many_stable by reflexivity.
  rewrite <- !string_rev_app. apply string_rev_involutive.
Qed.

(** X15. The text [cleanJson] returns has no white space left to trim at
    either end.  A text that, once trimmed, does not open with three
    backquotes is just trimmed.  A text fenced as [```json ... ```] is
    reduced to what stands between the fences, trimmed. *)
Theorem cleanJson_trims_and_removes_the_json_fence :
  (forall t, Js.trim (cleanJson t) = cleanJson t)
  /\ (forall t,
        Js.startsWith (Js.trim t) "```" = false ->
        cleanJson t = Js.trim t)
  /\ (forall body,
        cleanJson ("```json" +:+ body +:+ "```") = Js.trim body).
Proof.
  split; [|split].
  - intros t. unfold cleanJson. apply trim_idempotent.
  - intros t Hfence. unfold cleanJson.
    destruct (Js.startsWith (Js.trim t) "```json") eqn:Hjson.
    + apply startsWith_split in Hjson.
      assert (Hc : Js.startsWith (Js.trim t) "```" = true).
      { rewrite Hjson.
        change ("```json" +:+ Js.drop (String.length "```json") (Js.trim t))
          with ("```" +:+ ("json" +:+ Js.drop 7 (Js.trim t))).
        apply startsWith_append. }
      congruence.
    + rewrite Hfence. apply trim_idempotent.
  - intros body. unfold cleanJson. rewrite trim_fenced.
    rewrite startsWith_append, remove_prefix_append, remove_suffix_append.
    reflexivity.
Qed.

(* ===================================================================== *)
(** * Further properties: a batch, a retry, and the history *)
(* ===================================================================== *)

Lemma leb_refl_string s : String.leb s s = true.
Proof. apply Is_true_true. exact (reflexivity (R := String.le) s). Qed.

Lemma sorted_by_id_unique l1 :
  forall l2,
    l1 ≡ₚ l2 ->
    StronglySorted id_le l1 -> StronglySorted id_le l2 ->
    NoDup (List.map id l1) ->
    l1 = l2.
Proof.
  induction l1 as [|a l1 IH]; intros l2 Hp H1 H2 Hnd.
  - destruct l2 as [|b l2]; [reflexivity|].
    exfalso. eapply Permutation_nil_cons, Hp.
  - destruct l2 as [|b l2].
    { exfalso. symmetry in Hp. eapply Permutation_nil_cons, Hp. }
    apply StronglySorted_inv in H1. destruct H1 as [H1 Ha].
    apply StronglySorted_inv in H2. destruct H2 as [H2 Hb].
    rewrite Forall_forall in Ha, Hb.
    assert (Hain : a ∈ b :: l2) by (rewrite <- Hp; left).
    assert (Hbin : b ∈ a :: l1) by (rewrite Hp; left).
    assert (Hab : id_le a b).
    { apply elem_of_cons in Hbin. destruct Hbin as [->|Hbin];
        [apply leb_refl_string | apply Ha, Hbin]. }
    assert (Hba : id_le b a).
    { apply elem_of_cons in Hain. destruct Hain as [->|Hain];
        [apply leb_refl_string | apply Hb, Hain]. }
    assert (Heq : a = b).
    { eapply (NoDup_ids_elem (a :: l1)); [exact Hnd | left | exact Hbin |].
      apply String.leb_antisym; assumption. }
    subst b. f_equal. apply IH; try assumption.
    + eapply Permutation_cons_inv, Hp.
    + simpl in Hnd. apply NoDup_cons in Hnd. tauto.
Qed.

Lemma sorted_by_id_same_ids l1 :
  forall l2,
    List.map id l1 = List.map id l2 ->
    StronglySorted id_le l2 -> StronglySorted id_le l1.
Proof.
  induction l1 as [|a l1 IH]; intros l2 Hids H2; [constructor|].
  destruct l2 as [|b l2]; [discriminate|]. simpl in Hids.
  injection Hids as Hab Hids.
  apply StronglySorted_inv in H2. destruct H2 as [H2 Hb].
  constructor; [eapply IH; eassumption|].
  apply Forall_forall. intros y Hy.
  assert (Hy' : id y ∈ List.map id l2).
  { rewrite <- Hids. apply list_elem_of_In, in_map, list_elem_of_In, Hy. }
  apply list_elem_of_In, in_map_iff in Hy'. destruct Hy' as (z & Hz & Hzin).
  rewrite Forall_forall in Hb. specialize (Hb z (proj2 (list_elem_of_In _ _) Hzin)).
  unfold id_le in *. rewrite Hab, <- Hz. exact Hb.
Qed.

Lemma replace_by_id_absent target x l :
  target ∉ List.map id l -> replace_by_id target x l = l.
Proof.
  induction l as [|y l IH]; intros Habs; [reflexivity|].
  unfold replace_by_id in *. simpl.
  destruct (String.eqb (id y) target) eqn:Hy.
  - apply String.eqb_eq in Hy. exfalso. apply Habs. simpl. rewrite Hy. left.
  - f_equal. apply IH. intros Hin. apply Habs. simpl. right. exact Hin.
Qed.

Lemma NoDup_sublist_ids (l : list GeneratedImage) f :
  NoDup (List.map id l) -> NoDup (List.map id (List.filter f l)).
Proof.
  induction l as [|y l IH]; simpl; intros Hnd; [constructor|].
  apply NoDup_cons in Hnd. destruct Hnd as [Hy Hnd].
  destruct (f y); simpl; [|apply IH, Hnd].
  constructor; [|apply IH, Hnd].
  intros Hin. apply Hy.
  apply list_elem_of_In, in_map_iff in Hin. destruct Hin as (z & Hz & Hzin).
  apply filter_In in Hzin. rewrite <- Hz.
  apply list_elem_of_In, in_map, Hzin.
Qed.

Section RetryThenSelect.
Context `{Host}.

Lemma startGeneration_final W st fuel :
  Js.truthy (Js.trim (inputText st)) = true ->
  enough_fuel (analyzed W st) <= fuel ->
  currentBatch (final (startGeneration W fuel st)) = batch_results W st
  /\ history (final (startGeneration W fuel st))
     = List.rev (List.filter is_success (batch_results W st)) ++ history st
  /\ retryingIds (final (startGeneration W fuel st)) = retryingIds st.
Proof.
  intros Hin Hfuel. rewrite (startGeneration_runs W st fuel Hin Hfuel).
  repeat split.
Qed.

Lemma retry_success_final W st item useSuggestion url :
  id item ∉ retryingIds st ->
  generateImage (retry_reply W) = Ok url ->
  currentBatch (final (retry W st item useSuggestion))
  = replace_by_id (id item)
      (successItem item url (promptToUse item useSuggestion) (retry_time W))
      (currentBatch st)
  /\ history (final (retry W st item useSuggestion))
     = successItem item url (promptToUse item useSuggestion) (retry_time W)
       :: history st.
Proof.
  intros Hfree Hgen. unfold retry, run_from_click, handleRetry.
  rewrite bool_decide_eq_false_2 by exact Hfree. simpl. rewrite Hgen.
  split; reflexivity.
Qed.

(** X16. After a batch of at most ten scenes (run where the history holds
    no record with its batch id) and a successful retry of one of its
    failed cards, the history no longer lists the batch in scene order: the
    retried record is the newest.  Selecting any stored record of the batch
    nevertheless puts the rendered scenes on display in scene order, the
    retried one at its place: the view is the live batch view after the
    retry without its failed cards. *)
Theorem selecting_after_a_retry_puts_the_retried_scene_at_its_place
    W st fuel item useSuggestion url sel :
  Js.truthy (Js.trim (inputText st)) = true ->
  enough_fuel (analyzed W st) <= fuel ->
  length (analyzed W st) <= 10 ->
  Forall (fun h => batchId h <> Some (Js.Z_toString (click_time W)))
    (history st) ->
  id item ∉ retryingIds st ->
  generateImage (retry_reply W) = Ok url ->
  let st1 := final (startGeneration W fuel st) in
  item ∈ currentBatch st1 ->
  status item = ImageStatus.failed ->
  let st2 := final (retry W st1 item useSuggestion) in
  sel ∈ history st2 ->
  batchId sel = Some (Js.Z_toString (click_time W)) ->
  List.hd_error (history st2)
  = Some (successItem item url (promptToUse item useSuggestion) (retry_time W))
  /\ currentBatch (after_select st2 sel)
     = List.filter is_success (currentBatch st2).
Proof.
  intros Hin Hfuel Hten Hold Hfree Hgen st1 Hitem Hfailed st2 Hsel Hbatch.
  destruct (startGeneration_final W st fuel Hin Hfuel) as (Hb1 & Hh1 & Hr1).
  fold st1 in Hb1, Hh1, Hr1.
  assert (Hfree1 : id item ∉ retryingIds st1) by (rewrite Hr1; exact Hfree).
  destruct (retry_success_final W st1 item useSuggestion url Hfree1 Hgen)
    as (Hb2 & Hh2).
  fold st2 in Hb2, Hh2.
  unfold after_select, handleSelectHistoryItem.
  rewrite Hh2, Hb2, Hh1, Hb1 in *. clear Hb2 Hh2 Hb1 Hh1 Hr1 Hfree1.
  clearbody st1 st2.
  set (x := successItem item url (promptToUse item useSuggestion)
              (retry_time W)) in *.
  set (results := batch_results W st) in *.
  set (succ := List.filter is_success results) in *.
  split; [reflexivity|].
  (* the batch, its ids and its order *)
  assert (Hnd : NoDup (List.map id results)).
  { unfold results, batch_results. rewrite results_from_ids.
    apply NoDup_map_injective; [apply scene_id_inj | apply NoDup_seq]. }
  assert (Hsorted : StronglySorted id_le results).
  { apply results_from_sorted. simpl.
    pose proof (attempted_length (analyzed W st)). lia. }
  assert (Hbid : Forall (fun y => batchId y = Some (Js.Z_toString (click_time W)))
                   results).
  { apply (results_from_batchId W (batch_ctx W st)). }
  assert (Hxb : batchId x = batchId sel).
  { rewrite Hbatch. simpl. rewrite Forall_forall in Hbid. apply Hbid, Hitem. }
  (* the view after the retry *)
  set (view := replace_by_id (id item) x results).
  assert (Hvids : List.map id view = List.map id results)
    by (apply replace_by_id_ids; reflexivity).
  assert (Hvsorted : StronglySorted id_le (List.filter is_success view)).
  { apply StronglySorted_filter_keep.
    eapply sorted_by_id_same_ids; eassumption. }
  assert (Hvnd : NoDup (List.map id (List.filter is_success view))).
  { apply NoDup_sublist_ids. rewrite Hvids. exact Hnd. }
  assert (Hperm : List.filter is_success view ≡ₚ succ ++ [x]).
  { apply list_elem_of_split in Hitem. destruct Hitem as (l1 & l2 & Hres).
    unfold view, succ. rewrite Hres in Hnd |- *.
    rewrite List.map_app in Hnd. simpl in Hnd.
    apply NoDup_app in Hnd. destruct Hnd as (_ & Hdis & Hnd2).
    apply NoDup_cons in Hnd2. destruct Hnd2 as [Hnot2 _].
    assert (Hnot1 : id item ∉ List.map id l1).
    { intros Hc. apply (Hdis _ Hc). left. }
    unfold replace_by_id at 1. rewrite List.map_app. simpl.
    rewrite String.eqb_refl.
    fold (replace_by_id (id item) x l1). fold (replace_by_id (id item) x l2).
    rewrite !replace_by_id_absent by assumption.
    rewrite !List.filter_app. simpl.
    assert (Hf : is_success item = false).
    { unfold is_success. apply bool_decide_eq_false_2. rewrite Hfailed.
      discriminate. }
    rewrite Hf. change (is_success x) with true. cbv iota.
    rewrite <- app_assoc. apply Permutation_app_head.
    apply Permutation_cons_append. }
  (* the stored records of the batch *)
  assert (Hsib :
    List.rev
      (List.filter (fun h => bool_decide (batchId h = batchId sel))
         (x :: List.rev succ ++ history st)) = succ ++ [x]).
  { simpl. rewrite (bool_decide_eq_true_2 _ Hxb). simpl.
    rewrite List.filter_app, (filter_drops_all _ (history st)).
    - rewrite app_nil_r, filter_keeps_all; [rewrite rev_involutive; reflexivity|].
      apply Forall_forall. intros y Hy.
      apply list_elem_of_In, in_rev, filter_In in Hy. destruct Hy as [Hy _].
      rewrite Forall_forall in Hbid.
      apply bool_decide_eq_true_2. rewrite Hbatch.
      apply Hbid, list_elem_of_In, Hy.
    - eapply Forall_impl; [exact Hold|]. intros h Hh. simpl in Hh.
      apply bool_decide_eq_false_2. rewrite Hbatch. exact Hh. }
  rewrite Hbatch, Z_toString_truthy. rewrite <- Hbatch, Hsib.
  destruct (1 <? length (succ ++ [x]))%nat eqn:Hlen; simpl.
  - symmetry. apply sorted_by_id_unique; try assumption.
    + rewrite Hperm. symmetry. apply sort_perm.
    + apply Sorted_StronglySorted; [exact id_le_trans | apply sort_by_id_sorted].
  - apply Nat.ltb_ge in Hlen. rewrite length_app in Hlen. simpl in Hlen.
    destruct succ as [|s0 succ']; simpl in Hlen; [|lia].
    simpl in Hperm, Hsel.
    apply Permutation_singleton_r in Hperm. rewrite Hperm.
    apply elem_of_cons in Hsel. destruct Hsel as [->|Hsel]; [reflexivity|].
    rewrite Forall_forall in Hold. exfalso. exact (Hold sel Hsel Hbatch).
Qed.

End RetryThenSelect.

(* ===================================================================== *)
(** * Further properties: the busy flag, the growth of the history *)
(* ===================================================================== *)

Lemma loading_states_app l1 l2 :
  loading_states (l1 ++ l2) = loading_states l1 ++ loading_states l2.
Proof. apply flat_map_app. Qed.

Lemma loop_log_loading `{Host} W ctx scenes rest halted :
  forall i tempBatch,
    i + length rest <= length scenes ->
    exists busy,
      loading_states (loop_log W ctx scenes i rest halted tempBatch)
      = busy ++ [end_state halted]
      /\ Forall (busy_counting (length scenes)) busy.
Proof.
  induction rest as [|scene rest IH]; intros i tempBatch Hlen; simpl.
  - exists []. split; [|constructor].
    unfold loop_end. destruct halted, (0 <? i)%nat; reflexivity.
  - simpl in Hlen.
    destruct (IH (i + 1) (tempBatch ++ [result_of W ctx i scene]))
      as (busy & Hbusy & Hall); [lia|].
    exists (generating_state (i + 1) (length scenes)
              ("장면 " +:+ Js.nat_toString (i + 1) +:+ " / "
               +:+ Js.nat_toString (length scenes) +:+ " 그리는 중... ("
               +:+ korean_summary scene +:+ ")") :: busy).
    split.
    + unfold scene_log. rewrite !loading_states_app, Hbusy.
      destruct (0 <? i)%nat, (generateImage (render_reply W i)); reflexivity.
    + constructor; [|exact Hall]. split; [reflexivity|].
      intros _. exists (i + 1). simpl. repeat split. lia.
Qed.

Section Busy.
Context `{Host}.

(** X17. From the click to the end of a batch the page is busy: every
    value [loadingState] takes before the last makes [isLoading] true (so
    the text area and the button stay disabled), and while generating it
    counts some c of N with c at most N, N the number of scenes.  The last
    value is [success], or [error] when the batch met a [null] element;
    with either [isLoading] is false. *)
Theorem the_page_is_busy_until_the_batch_ends W st fuel :
  Js.truthy (Js.trim (inputText st)) = true ->
  enough_fuel (analyzed W st) <= fuel ->
  let r := startGeneration W fuel st in
  let last :=
    if has_null (analyzed W st) then error_state else success_state in
  (exists busy,
     loading_states (log r) = busy ++ [last]
     /\ busy <> []
     /\ Forall (busy_counting (length (analyzed W st))) busy)
  /\ loadingState (final r) = last
  /\ isLoading (loadingState (final r)) = false.
Proof.
  intros Hin Hfuel r last. subst r last.
  rewrite (startGeneration_runs W st fuel Hin Hfuel). simpl.
  fold (end_state (has_null (analyzed W st))).
  split; [|split; [reflexivity | destruct (has_null _); reflexivity]].
  destruct (loop_log_loading W (batch_ctx W st) (analyzed W st)
              (attempted (analyzed W st)) (has_null (analyzed W st)) 0 [])
    as (busy & Hbusy & Hall); [apply attempted_length|].
  unfold batch_log, handleGenerate. rewrite Hin. simpl.
  rewrite Hbusy.
  eexists (_ :: _ :: busy). split; [reflexivity|]. split; [discriminate|].
  constructor.
  { split; [reflexivity | discriminate]. }
  constructor; [|exact Hall].
  split; [reflexivity|]. intros _. exists 0. simpl. repeat split. lia.
Qed.

(** X18. No event but a deletion removes or reorders stored records: after
    any other step of the event loop the history is the history before,
    with at most one new record put in front. *)
Theorem only_deletion_removes_from_the_history m e m' :
  step m e = Some m' ->
  (forall target, e <> Click_delete target) ->
  exists added,
    history (app m') = added ++ history (app m) /\ length added <= 1.
Proof.
  assert (Hloop : forall ctx scenes j tb st,
            history (apply_updates (fst (loop_test ctx scenes j tb)) st)
            = history st).
  { intros ctx scenes j tb st. unfold loop_test, loop_body.
    destruct (scenes !! j) as [[s|]|]; [| |reflexivity];
      destruct (0 <? j)%nat; reflexivity. }
  intros Hstep Hnot. destruct e; simpl in Hstep.
  - injection Hstep as <-. exists []. split; [reflexivity | simpl; lia].
  - injection Hstep as <-. exists []. split; [reflexivity | simpl; lia].
  - injection Hstep as <-. exists []. split; [|simpl; lia].
    unfold handleGenerate. destruct (negb _); reflexivity.
  - injection Hstep as <-. exists []. split; [|simpl; lia].
    unfold handleRetry. destruct (bool_decide _); reflexivity.
  - exfalso. exact (Hnot target eq_refl).
  - injection Hstep as <-. exists []. split; [|simpl; lia].
    simpl. unfold handleSelectHistoryItem. simpl.
    repeat (match goal with
            | |- context [match ?c with _ => _ end] => destruct c
            end); reflexivity.
  - destruct (pending m !! k) as [t|]; [|discriminate].
    destruct t, s; simpl in Hstep; try discriminate.
    + injection Hstep as <-. exists []. split; [|simpl; lia].
      simpl. rewrite Hloop. reflexivity.
    + injection Hstep as <-. exists []. split; [|simpl; lia].
      destruct scene; reflexivity.
    + destruct (generateImage o) as [url|msg]; injection Hstep as <-.
      * exists [newImage ctx i scene url now]. split; [|simpl; lia].
        simpl. rewrite Hloop. reflexivity.
      * exists []. split; [reflexivity | simpl; lia].
    + injection Hstep as <-. exists []. split; [|simpl; lia].
      simpl. rewrite Hloop. reflexivity.
    + destruct (generateImage o) as [url|msg]; injection Hstep as <-.
      * exists [successItem item url prompt now].
        split; [reflexivity | simpl; lia].
      * exists []. split; [reflexivity | simpl; lia].
Qed.

End Busy.

(* ===================================================================== *)
(** * The further properties at concrete inputs *)
(* ===================================================================== *)

Import Cases.

Lemma handleDelete_removes_the_id_and_nothing_else_witness :
  (id second_card ∉ List.map id (currentBatch typed))
  /\ (id second_card ∉ List.map id (history typed))
  /\ after_delete (id second_card) typed = typed
  /\ currentBatch (after_delete (id failed_card) after_two)
     `sublist_of` currentBatch after_two.
Proof.
  assert (H1 : id second_card ∉ List.map id (currentBatch typed))
    by (simpl; apply not_elem_of_nil).
  assert (H2 : id second_card ∉ List.map id (history typed))
    by (simpl; apply not_elem_of_nil).
  destruct (handleDelete_removes_the_id_and_nothing_else
              (id second_card) typed) as (_ & _ & _ & _ & _ & H6 & _).
  destruct (handleDelete_removes_the_id_and_nothing_else
              (id failed_card) after_two) as (_ & _ & H3 & _).
  split; [exact H1|]. split; [exact H2|]. split; [exact (H6 H1 H2)|].
  exact H3.
Defined.

Lemma batch_ids_are_distinct_and_delete_removes_one_card_witness :
  Js.truthy (Js.trim (inputText typed)) = true
  /\ enough_fuel (analyzed (H := example_host) world_two typed) <= 7
  /\ (second_card ∈ currentBatch after_two)
  /\ NoDup (List.map id (currentBatch after_two))
  /\ length (currentBatch (after_delete (id second_card) after_two))
     = length (currentBatch after_two) - 1
  /\ (second_card ∉ currentBatch (after_delete (id second_card) after_two)).
Proof.
  assert (Hin : Js.truthy (Js.trim (inputText typed)) = true) by reflexivity.
  assert (Hfuel : enough_fuel (analyzed (H := example_host) world_two typed) <= 7)
    by (vm_compute; lia).
  assert (Hx : second_card ∈ currentBatch after_two)
    by (apply list_elem_of_In; vm_compute; right; left; reflexivity).
  destruct (batch_ids_are_distinct_and_delete_removes_one_card
              (H := example_host) world_two typed 7 Hin Hfuel) as (H1 & H2).
  destruct (H2 second_card Hx) as (H3 & H4 & _).
  split; [exact Hin|]. split; [exact Hfuel|]. split; [exact Hx|].
  split; [exact H1|]. split; [exact H3 | exact H4].
Defined.

Lemma handleSelectHistoryItem_shows_the_stored_batch_sorted_by_id_witness :
  Js.truthy_opt (batchId retried_card_plain) = true
  /\ 1 < length (siblings_of (app after_retry_twice) retried_card_plain)
  /\ currentBatch (after_select (app after_retry_twice) retried_card_plain)
     ≡ₚ siblings_of (app after_retry_twice) retried_card_plain
  /\ StronglySorted id_le
       (currentBatch (after_select (app after_retry_twice) retried_card_plain)).
Proof.
  assert (H1 : Js.truthy_opt (batchId retried_card_plain) = true)
    by reflexivity.
  assert (H2 : 1 < length (siblings_of (app after_retry_twice)
                             retried_card_plain))
    by (vm_compute; lia).
  destruct (handleSelectHistoryItem_shows_the_stored_batch_sorted_by_id
              (app after_retry_twice) retried_card_plain)
    as (_ & H3 & _).
  destruct (H3 H1 H2) as (H4 & H5).
  split; [exact H1|]. split; [exact H2|]. split; [exact H4 | exact H5].
Defined.

Lemma selecting_a_stored_record_restores_the_rendered_scenes_witness :
  Js.truthy (Js.trim (inputText typed)) = true
  /\ enough_fuel (analyzed (H := example_host) world_two typed) <= 7
  /\ length (analyzed (H := example_host) world_two typed) <= 10
  /\ (second_card ∈ history after_two)
  /\ batchId second_card = Some (Js.Z_toString (click_time world_two))
  /\ currentBatch (after_select after_two second_card)
     = List.filter is_success (currentBatch after_two).
Proof.
  assert (Hin : Js.truthy (Js.trim (inputText typed)) = true) by reflexivity.
  assert (Hfuel : enough_fuel (analyzed (H := example_host) world_two typed) <= 7)
    by (vm_compute; lia).
  assert (Hten : length (analyzed (H := example_host) world_two typed) <= 10)
    by (vm_compute; lia).
  assert (Hfresh : Forall
                     (fun h => batchId h
                               <> Some (Js.Z_toString (click_time world_two)))
                     (history typed)) by constructor.
  assert (Hx : second_card ∈ history after_two)
    by (apply list_elem_of_In; vm_compute; left; reflexivity).
  assert (Hb : batchId second_card
               = Some (Js.Z_toString (click_time world_two)))
    by (vm_compute; reflexivity).
  split; [exact Hin|]. split; [exact Hfuel|]. split; [exact Hten|].
  split; [exact Hx|]. split; [exact Hb|].
  exact (selecting_a_stored_record_restores_the_rendered_scenes
           (H := example_host) world_two typed 7 second_card
           Hin Hfuel Hten Hfresh Hx Hb).
Defined.

Lemma generateImage_fails_uniformly_and_returns_data_uris_witness :
  generateImage image_ok = Ok png
  /\ (exists mime d, png = "data:" +:+ mime +:+ ";base64," +:+ d /\ mime <> "")
  /\ generateImage Rejected = Throw generateImage_error.
Proof.
  assert (Hgen : generateImage image_ok = Ok png) by reflexivity.
  destruct generateImage_fails_uniformly_and_returns_data_uris
    as (_ & H2 & _ & _ & _ & H6).
  split; [exact Hgen|]. split; [exact (H2 image_ok png Hgen) | exact H6].
Defined.

Lemma suggestion_is_the_trimmed_repair_when_it_differs_witness :
  suggestedPrompt
    (failedImage ctx_two 0 first_scene
       (Some (getPromptFix (repair_reply world_two 0)
                (english_prompt first_scene))) 1700000005000%Z)
  = Some "A scholar walks out of a quiet village".
Proof.
  apply (suggestion_is_the_trimmed_repair_when_it_differs
           ctx_two 0 first_scene (repair_reply world_two 0) 1700000005000%Z
           "A scholar walks out of a quiet village").
  exists (mkTextResponse (Some "A scholar walks out of a quiet village")).
  exists "A scholar walks out of a quiet village".
  split; [reflexivity|]. split; [reflexivity|].
  split; [vm_compute; reflexivity|]. split; discriminate.
Defined.

Lemma getAi_throws_without_key_and_builds_one_client_witness :
  hasApiKey None = false
  /\ snd (getAi None None) = None
  /\ fst (getAi (Some sample_key) None) = Ok (mkClient sample_key)
  /\ getAi (Some "another-key") (Some (mkClient sample_key))
     = (Ok (mkClient sample_key), Some (mkClient sample_key)).
Proof.
  assert (H0 : hasApiKey None = false) by reflexivity.
  assert (H1 : fst (getAi (Some sample_key) None) = Ok (mkClient sample_key))
    by reflexivity.
  assert (H2 : hasApiKey (Some "another-key") = true) by reflexivity.
  destruct getAi_throws_without_key_and_builds_one_client
    as (_ & Hkeep & _ & Honce).
  destruct (Honce (Some sample_key) None (mkClient sample_key) H1)
    as (_ & Hlater).
  split; [exact H0|]. split; [exact (Hkeep None None H0)|].
  split; [exact H1|]. exact (Hlater (Some "another-key") H2).
Defined.

Lemma analyzeScript_returns_parsed_scenes_or_the_fallback_witness :
  analysis_reply world_empty = Resolved (mkTextResponse (Some "[]"))
  /\ JSON_parse (Host := example_host) (cleanJson "[]") = Some (JArray [])
  /\ analyzeScript (H := example_host) (analysis_reply world_empty) story = [].
Proof.
  assert (H1 : analysis_reply world_empty
               = Resolved (mkTextResponse (Some "[]"))) by reflexivity.
  assert (H2 : JSON_parse (Host := example_host) (cleanJson "[]")
               = Some (JArray [])) by (vm_compute; reflexivity).
  split; [exact H1|]. split; [exact H2|].
  apply (proj2 (analyzeScript_returns_parsed_scenes_or_the_fallback
                  (H := example_host) (analysis_reply world_empty) story)).
  exists (mkTextResponse (Some "[]")), "[]".
  split; [exact H1|]. split; [reflexivity|]. split; [discriminate | exact H2].
Defined.

Lemma without_key_a_batch_is_one_failed_card_witness :
  hasApiKey None = false
  /\ Js.truthy (Js.trim (inputText typed)) = true
  /\ 4 <= 4
  /\ unfinished
       (startGeneration (H := example_host) (world_with_key None world_two)
          4 typed) = None
  /\ history
       (final (startGeneration (H := example_host)
                 (world_with_key None world_two) 4 typed))
     = history typed.
Proof.
  assert (Hkey : hasApiKey None = false) by reflexivity.
  assert (Hin : Js.truthy (Js.trim (inputText typed)) = true) by reflexivity.
  assert (Hfuel : 4 <= 4) by lia.
  destruct (without_key_a_batch_is_one_failed_card
              (H := example_host) None world_two typed 4 Hkey Hin Hfuel)
    as (_ & _ & _ & H4 & _ & _ & H7 & _).
  split; [exact Hkey|]. split; [exact Hin|]. split; [exact Hfuel|].
  split; [exact H4 | exact H7].
Defined.

Lemma batch_calls_are_paced_and_repairs_follow_failures_witness :
  Js.truthy (Js.trim (inputText typed)) = true
  /\ enough_fuel (analyzed (H := example_host) world_scene_then_null typed) <= 7
  /\ issued_requests
       (log (startGeneration (H := example_host) world_scene_then_null 7 typed))
     = [ analyzeScript_call story;
         generateImage_call (english_prompt first_scene) "16:9";
         setTimeout_call 3000 ]
  /\ List.filter is_delay
       (issued_requests
          (log (startGeneration (H := example_host) world_scene_then_null 7
                  typed)))
     = List.repeat (setTimeout_call 3000) 1
  /\ length
       (List.filter is_repair
          (issued_requests
             (log (startGeneration (H := example_host) world_scene_then_null 7
                     typed))))
     = 0.
Proof.
  assert (Hin : Js.truthy (Js.trim (inputText typed)) = true) by reflexivity.
  assert (Hfuel : enough_fuel
                    (analyzed (H := example_host) world_scene_then_null typed)
                  <= 7)
    by (vm_compute; lia).
  destruct (batch_calls_are_paced_and_repairs_follow_failures
              (H := example_host) world_scene_then_null typed 7 Hin Hfuel)
    as (H1 & H2 & H3 & _).
  split; [exact Hin|]. split; [exact Hfuel|].
  split; [rewrite H1; vm_compute; reflexivity|].
  split; [rewrite H2; vm_compute; reflexivity|].
  rewrite H3. vm_compute. reflexivity.
Defined.

Lemma failed_retry_changes_only_the_error_message_witness :
  (id failed_card ∉ retryingIds typed)
  /\ generateImage (retry_reply retry_refused) = Throw generateImage_error
  /\ final (retry (H := example_host) retry_refused typed failed_card true)
     = mkAppState (inputText typed) (selectedAspectRatio typed)
         (loadingState typed) (currentBatch typed) (history typed)
         (Some retry_error) (retryingIds typed).
Proof.
  assert (Hfree : id failed_card ∉ retryingIds typed)
    by (simpl; apply not_elem_of_empty).
  assert (Hgen : generateImage (retry_reply retry_refused)
                 = Throw generateImage_error) by reflexivity.
  destruct (failed_retry_changes_only_the_error_message
              (H := example_host) retry_refused typed failed_card true
              generateImage_error Hfree Hgen) as (_ & _ & H3 & _).
  split; [exact Hfree|]. split; [exact Hgen | exact H3].
Defined.

Lemma a_settled_scene_rewrites_the_view_from_tempBatch_witness :
  pending first_retry_done !! 0
  = Some (GenAwaitDelay ctx_two (List.map Some two_scenes) 1
            (Some second_scene) [failed_card_plain])
  /\ currentBatch (app first_retry_done)
     = [ successItem failed_card_plain png (refinedPrompt failed_card_plain)
           1700000006000%Z ]
  /\ forall m,
       pending m !! 0
       = Some (GenAwaitImage ctx_two (List.map Some two_scenes) 1 second_scene
                 [failed_card_plain]) ->
       exists m',
         step (H := example_host) m
           (Settle 0 (ImageReply image_ok) 1700000010000%Z) = Some m'
         /\ currentBatch (app m')
            = [failed_card_plain]
              ++ [newImage ctx_two 1 second_scene png 1700000010000%Z].
Proof.
  split; [vm_compute; reflexivity|]. split; [vm_compute; reflexivity|].
  intros m Hk.
  destruct (a_settled_scene_rewrites_the_view_from_tempBatch
              (H := example_host) m 0 ctx_two (List.map Some two_scenes) 1
              second_scene [failed_card_plain] 1700000010000%Z) as (H1 & _).
  destruct (H1 image_ok png Hk eq_refl) as (m' & Hstep & Hview & _).
  exists m'. split; [exact Hstep | exact Hview].
Defined.

Lemma maskApiKey_shows_four_and_four_of_a_long_key_witness :
  is_ascii sample_key
  /\ 8 < String.length sample_key
  /\ String.length (maskApiKey sample_key) = String.length sample_key
  /\ String.get 3 (maskApiKey sample_key) = String.get 3 sample_key
  /\ String.get 4 (maskApiKey sample_key) = Some "*"%char.
Proof.
  assert (Hascii : is_ascii sample_key)
    by (unfold is_ascii; simpl; repeat constructor).
  assert (Hlong : 8 < String.length sample_key) by (vm_compute; lia).
  destruct (maskApiKey_shows_four_and_four_of_a_long_key sample_key Hascii)
    as (_ & H2).
  destruct (H2 Hlong) as (H3 & H4 & H5 & _).
  split; [exact Hascii|]. split; [exact Hlong|]. split; [exact H3|].
  split; [apply H4; lia | apply H5; vm_compute; lia].
Defined.

Lemma downloads_are_data_uris_named_after_the_id_witness :
  Forall data_uri_ok []
  /\ steps_offered (H := example_host) (mkMachine (initial_state []) [])
       retry_twice = Some after_retry_twice
  /\ (retried_card_plain
      ∈ currentBatch (app after_retry_twice) ++ history (app after_retry_twice))
  /\ (handleDownload retried_card_plain = None
      <-> status retried_card_plain = ImageStatus.failed)
  /\ forall a,
       handleDownload retried_card_plain = Some a ->
       Js.startsWith (href a) "data:" = true
       /\ download a = "yadam_" +:+ id retried_card_plain +:+ ".png".
Proof.
  assert (Hsaved : Forall data_uri_ok []) by constructor.
  assert (Hrun : steps_offered (H := example_host)
                   (mkMachine (initial_state []) []) retry_twice
                 = Some after_retry_twice) by (vm_compute; reflexivity).
  assert (Hx : retried_card_plain
               ∈ currentBatch (app after_retry_twice)
                 ++ history (app after_retry_twice))
    by (apply list_elem_of_In; vm_compute; left; reflexivity).
  destruct (downloads_are_data_uris_named_after_the_id
              (H := example_host) [] retry_twice after_retry_twice
              retried_card_plain Hsaved Hrun Hx) as (H1 & H2).
  split; [exact Hsaved|]. split; [exact Hrun|]. split; [exact Hx|].
  split; [exact H1|].
  intros a Ha. destruct (H2 a Ha) as (_ & _ & H5 & H6).
  split; [exact H5 | exact H6].
Defined.

Lemma cleanJson_trims_and_removes_the_json_fence_witness :
  Js.startsWith (Js.trim "  [1, 2]  ") "```" = false
  /\ cleanJson "  [1, 2]  " = Js.trim "  [1, 2]  "
  /\ cleanJson ("```json" +:+ " [1, 2] " +:+ "```") = Js.trim " [1, 2] ".
Proof.
  assert (H0 : Js.startsWith (Js.trim "  [1, 2]  ") "```" = false)
    by (vm_compute; reflexivity).
  destruct cleanJson_trims_and_removes_the_json_fence as (_ & H2 & H3).
  split; [exact H0|]. split; [exact (H2 _ H0) | exact (H3 " [1, 2] ")].
Defined.

Lemma selecting_after_a_retry_puts_the_retried_scene_at_its_place_witness :
  Js.truthy (Js.trim (inputText typed)) = true
  /\ enough_fuel (analyzed (H := example_host) world_two typed) <= 7
  /\ length (analyzed (H := example_host) world_two typed) <= 10
  /\ (id failed_card ∉ retryingIds typed)
  /\ generateImage (retry_reply world_two) = Ok png
  /\ (failed_card ∈ currentBatch after_two)
  /\ status failed_card = ImageStatus.failed
  /\ (second_card
      ∈ history (final (retry (H := example_host) world_two after_two
                          failed_card true)))
  /\ batchId second_card = Some (Js.Z_toString (click_time world_two))
  /\ List.hd_error
       (history (final (retry (H := example_host) world_two after_two
                          failed_card true)))
     = Some retried_card
  /\ currentBatch
       (after_select
          (final (retry (H := example_host) world_two after_two
                    failed_card true)) second_card)
     = List.filter is_success
         (currentBatch
            (final (retry (H := example_host) world_two after_two
                      failed_card true))).
Proof.
  assert (Hin : Js.truthy (Js.trim (inputText typed)) = true) by reflexivity.
  assert (Hfuel : enough_fuel (analyzed (H := example_host) world_two typed) <= 7)
    by (vm_compute; lia).
  assert (Hten : length (analyzed (H := example_host) world_two typed) <= 10)
    by (vm_compute; lia).
  assert (Hfresh : Forall
                     (fun h => batchId h
                               <> Some (Js.Z_toString (click_time world_two)))
                     (history typed)) by constructor.
  assert (Hfree : id failed_card ∉ retryingIds typed)
    by (simpl; apply not_elem_of_empty).
  assert (Hgen : generateImage (retry_reply world_two) = Ok png)
    by reflexivity.
  assert (Hitem : failed_card ∈ currentBatch after_two)
    by (apply list_elem_of_In; vm_compute; left; reflexivity).
  assert (Hfailed : status failed_card = ImageStatus.failed) by reflexivity.
  assert (Hsel : second_card
                 ∈ history (final (retry (H := example_host) world_two
                                     after_two failed_card true)))
    by (apply list_elem_of_In; vm_compute; right; left; reflexivity).
  assert (Hb : batchId second_card
               = Some (Js.Z_toString (click_time world_two)))
    by (vm_compute; reflexivity).
  destruct (selecting_after_a_retry_puts_the_retried_scene_at_its_place
              (H := example_host) world_two typed 7 failed_card true png
              second_card Hin Hfuel Hten Hfresh Hfree Hgen Hitem Hfailed
              Hsel Hb) as (H1 & H2).
  split; [exact Hin|]. split; [exact Hfuel|]. split; [exact Hten|].
  split; [exact Hfree|]. split; [exact Hgen|]. split; [exact Hitem|].
  split; [exact Hfailed|]. split; [exact Hsel|]. split; [exact Hb|].
  split; [exact H1 | exact H2].
Defined.

Lemma the_page_is_busy_until_the_batch_ends_witness :
  Js.truthy (Js.trim (inputText typed)) = true
  /\ enough_fuel (analyzed (H := example_host) world_scene_then_null typed) <= 7
  /\ (exists busy,
        loading_states
          (log (startGeneration (H := example_host) world_scene_then_null 7
                  typed))
        = busy ++ [error_state]
        /\ busy <> []
        /\ Forall (busy_counting 2) busy)
  /\ isLoading
       (loadingState
          (final (startGeneration (H := example_host) world_scene_then_null 7
                    typed)))
     = false.
Proof.
  assert (Hin : Js.truthy (Js.trim (inputText typed)) = true) by reflexivity.
  assert (Hfuel : enough_fuel
                    (analyzed (H := example_host) world_scene_then_null typed)
                  <= 7)
    by (vm_compute; lia).
  destruct (the_page_is_busy_until_the_batch_ends
              (H := example_host) world_scene_then_null typed 7 Hin Hfuel)
    as (H1 & _ & H3).
  split; [exact Hin|]. split; [exact Hfuel|]. split; [exact H1 | exact H3].
Defined.

Lemma only_deletion_removes_from_the_history_witness :
  step (H := example_host) retry_in_flight
    (Settle 1 (ImageReply image_ok) 1700000006000%Z) = Some first_retry_done
  /\ (forall target,
        Settle 1 (ImageReply image_ok) 1700000006000%Z <> Click_delete target)
  /\ exists added,
       history (app first_retry_done)
       = added ++ history (app retry_in_flight)
       /\ length added <= 1.
Proof.
  assert (Hstep : step (H := example_host) retry_in_flight
                    (Settle 1 (ImageReply image_ok) 1700000006000%Z)
                  = Some first_retry_done) by (vm_compute; reflexivity).
  assert (Hnot : forall target,
             Settle 1 (ImageReply image_ok) 1700000006000%Z
             <> Click_delete target) by (intros target; discriminate).
  split; [exact Hstep|]. split; [exact Hnot|].
  exact (only_deletion_removes_from_the_history
           (H := example_host) retry_in_flight _ first_retry_done Hstep Hnot).
Defined.
